(** * Aer Lemmings: the per-frame simulation core

    A shallow embedding of the simulation classes of the repository and
    the properties of the specification that are settled against them.

    Sources.  [Passenger] is dist/Passenger.js (src/Passenger.ts is the
    same class without the wall-smasher test in the horizontal wall loop
    of [update]); [CollisionSystem.checkAABB] is the same in
    src/CollisionSystem.ts and dist/CollisionSystem.js; [GameEngine] is
    src/GameEngine.ts, the engine with three powers and an inventory;
    [DistGameEngine] holds the obstacle interaction of the compiled
    engine dist/GameEngine.js, which differs.

    Numbers.  Every JavaScript [number] that holds a coordinate, a speed or
    a time is a rational ([Q]): the decimal literals of the source (0.5,
    0.3, 0.15, 2.0) are exact there and the comparisons of the source are
    decidable.  Rounding of IEEE doubles and NaN are outside the model;
    where a property rests on a sum and a difference cancelling exactly,
    it is stated for whole pixels ([wholePixel]), on which the arithmetic
    of the source is exact.
    Counters that only ever hold integers (the inventory counts, the number
    of spawned passengers, the level number, [Date.now()] in milliseconds)
    are integers ([Z]).  The three places where the source takes a square
    root compare a distance with a constant; they are written in squared
    form ([sqrt d < 50] as [d < 50 * 50]).

    Effects.  Objects mutated in place are passed and returned explicitly.
    The engine keeps its passengers in an array; a passenger reference held
    elsewhere ([selectedPassenger]) is the index of the passenger in that
    array.  [Date.now()] and [Math.random()] are inputs of the calls that
    read them, and so is the layout that [generateLevelConfig] draws at
    random.  Calls to the sound manager and to the canvas have no effect
    on the simulation state and are left out. *)

From Stdlib Require Import QArith Qminmax Qabs ZArith Lia Lqa Bool.
From Stdlib Require Import Qround.
From stdpp Require Import base option list strings pretty gmap.

Local Open Scope Q_scope.

(** ** Comparisons on numbers, as booleans *)

Definition Qltb (a b : Q) : bool := negb (Qle_bool b a).
Definition Qleb (a b : Q) : bool := Qle_bool a b.
Definition Qgtb (a b : Q) : bool := Qltb b a.
Definition Qgeb (a b : Q) : bool := Qleb b a.
Definition Qeqb (a b : Q) : bool := Qeq_bool a b.

(** ** types.ts *)

Inductive SuperPower := bridge | doorBreaker | securityBriber.

Inductive ObstacleType := wall | door | gap | security | securityGuard.

Inductive GameState :=
  MENU | PLAYING | PAUSED | LEVEL_COMPLETE | GAME_OVER | VICTORY.

Module Vector2.
Record t := mk { x : Q; y : Q }.
End Vector2.

Module BoundingBox.
Record t := mk { x : Q; y : Q; width : Q; height : Q }.
End BoundingBox.

(** The [Obstacle] of a [LevelConfig] (with a [position]). *)
Module ConfigObstacle.
Record t := mk {
  type : ObstacleType;
  position : Vector2.t;
  width : Q;
  height : Q;
  id : string }.
End ConfigObstacle.

Module LevelConfig.
Record t := mk {
  levelNumber : Z;
  obstacles : list ConfigObstacle.t;
  spawnPoint : Vector2.t;
  checkInGate : Vector2.t;
  difficulty : Z }.
End LevelConfig.

#[global] Instance SuperPower_eq_dec : EqDecision SuperPower.
Proof. solve_decision. Defined.

#[global] Instance ObstacleType_eq_dec : EqDecision ObstacleType.
Proof. solve_decision. Defined.

#[global] Instance GameState_eq_dec : EqDecision GameState.
Proof. solve_decision. Defined.

Definition SuperPower_to_nat (k : SuperPower) : nat :=
  match k with bridge => 0 | doorBreaker => 1 | securityBriber => 2 end.

Definition SuperPower_of_nat (n : nat) : option SuperPower :=
  match n with
  | O => Some bridge
  | S O => Some doorBreaker
  | S (S O) => Some securityBriber
  | _ => None
  end.

#[global] Program Instance SuperPower_countable : Countable SuperPower :=
  inj_countable SuperPower_to_nat SuperPower_of_nat _.
Next Obligation. by intros []. Qed.

(** ** CollisionSystem.checkAABB *)

Module CollisionSystem.

Definition checkAABB (box1 box2 : BoundingBox.t) : bool :=
  Qltb (BoundingBox.x box1) (BoundingBox.x box2 + BoundingBox.width box2) &&
  Qgtb (BoundingBox.x box1 + BoundingBox.width box1) (BoundingBox.x box2) &&
  Qltb (BoundingBox.y box1) (BoundingBox.y box2 + BoundingBox.height box2) &&
  Qgtb (BoundingBox.y box1 + BoundingBox.height box1) (BoundingBox.y box2).

(** The result of [resolveCollision]. *)
Record resolution := mkResolution {
  x : Q;
  y : Q;
  collisionX : bool;
  collisionY : bool }.

(** [resolveCollision(entityBounds, obstacleBounds)]: pushes the entity
    out of the obstacle along the axis of least overlap. *)
Definition resolveCollision (entityBounds obstacleBounds : BoundingBox.t)
    : resolution :=
  let overlapLeft :=
    (BoundingBox.x entityBounds + BoundingBox.width entityBounds)
    - BoundingBox.x obstacleBounds in
  let overlapRight :=
    (BoundingBox.x obstacleBounds + BoundingBox.width obstacleBounds)
    - BoundingBox.x entityBounds in
  let overlapTop :=
    (BoundingBox.y entityBounds + BoundingBox.height entityBounds)
    - BoundingBox.y obstacleBounds in
  let overlapBottom :=
    (BoundingBox.y obstacleBounds + BoundingBox.height obstacleBounds)
    - BoundingBox.y entityBounds in
  let minOverlapX := Qmin overlapLeft overlapRight in
  let minOverlapY := Qmin overlapTop overlapBottom in
  if Qltb minOverlapX minOverlapY then
    (* Resolve X collision *)
    mkResolution
      (if Qltb overlapLeft overlapRight
       then BoundingBox.x obstacleBounds - BoundingBox.width entityBounds
       else BoundingBox.x obstacleBounds + BoundingBox.width obstacleBounds)
      (BoundingBox.y entityBounds) true false
  else
    (* Resolve Y collision *)
    mkResolution
      (BoundingBox.x entityBounds)
      (if Qltb overlapTop overlapBottom
       then BoundingBox.y obstacleBounds - BoundingBox.height entityBounds
       else BoundingBox.y obstacleBounds + BoundingBox.height obstacleBounds)
      false true.

End CollisionSystem.

(** ** Passenger (dist/Passenger.js) *)

Module Passenger.

Record t := mk {
  position : Vector2.t;
  velocity : Vector2.t;
  superPower : option SuperPower;
  isActive : bool;
  hasReachedGate : bool;
  isFalling : bool;
  direction : Z;            (* -1 for left, 1 for right *)
  color : string;
  isUsingPower : bool;
  powerCooldown : Q;
  id : string }.

Definition width : Q := 24.
Definition height : Q := 32.

Definition getColorForPower (power : option SuperPower) : string :=
  match power with
  | Some bridge => "#4CAF50"
  | Some doorBreaker => "#FF9800"
  | Some securityBriber => "#9C27B0"
  | None => "#2196F3"
  end.

(** [new Passenger(startPosition, superPower, id)] *)
Definition new (startPosition : Vector2.t) (power : option SuperPower)
    (ident : string) : t :=
  {| position := startPosition;
     velocity := Vector2.mk 0 0;
     superPower := power;
     isActive := true;
     hasReachedGate := false;
     isFalling := false;
     direction := 1%Z;
     color := getColorForPower power;
     isUsingPower := false;
     powerCooldown := 0;
     id := ident |}.

(** Field assignments. *)
Definition set_position (v : Vector2.t) (p : t) : t :=
  mk v (velocity p) (superPower p) (isActive p) (hasReachedGate p)
     (isFalling p) (direction p) (color p) (isUsingPower p) (powerCooldown p) (id p).
Definition set_velocity (v : Vector2.t) (p : t) : t :=
  mk (position p) v (superPower p) (isActive p) (hasReachedGate p)
     (isFalling p) (direction p) (color p) (isUsingPower p) (powerCooldown p) (id p).
Definition set_superPower (s : option SuperPower) (p : t) : t :=
  mk (position p) (velocity p) s (isActive p) (hasReachedGate p)
     (isFalling p) (direction p) (color p) (isUsingPower p) (powerCooldown p) (id p).
Definition set_isActive (b : bool) (p : t) : t :=
  mk (position p) (velocity p) (superPower p) b (hasReachedGate p)
     (isFalling p) (direction p) (color p) (isUsingPower p) (powerCooldown p) (id p).
Definition set_hasReachedGate (b : bool) (p : t) : t :=
  mk (position p) (velocity p) (superPower p) (isActive p) b
     (isFalling p) (direction p) (color p) (isUsingPower p) (powerCooldown p) (id p).
Definition set_isFalling (b : bool) (p : t) : t :=
  mk (position p) (velocity p) (superPower p) (isActive p) (hasReachedGate p)
     b (direction p) (color p) (isUsingPower p) (powerCooldown p) (id p).
Definition set_direction (d : Z) (p : t) : t :=
  mk (position p) (velocity p) (superPower p) (isActive p) (hasReachedGate p)
     (isFalling p) d (color p) (isUsingPower p) (powerCooldown p) (id p).
Definition set_color (c : string) (p : t) : t :=
  mk (position p) (velocity p) (superPower p) (isActive p) (hasReachedGate p)
     (isFalling p) (direction p) c (isUsingPower p) (powerCooldown p) (id p).
Definition set_isUsingPower (b : bool) (p : t) : t :=
  mk (position p) (velocity p) (superPower p) (isActive p) (hasReachedGate p)
     (isFalling p) (direction p) (color p) b (powerCooldown p) (id p).
Definition set_powerCooldown (c : Q) (p : t) : t :=
  mk (position p) (velocity p) (superPower p) (isActive p) (hasReachedGate p)
     (isFalling p) (direction p) (color p) (isUsingPower p) c (id p).

Definition getBounds (p : t) : BoundingBox.t :=
  {| BoundingBox.x := Vector2.x (position p);
     BoundingBox.y := Vector2.y (position p);
     BoundingBox.width := width;
     BoundingBox.height := height |}.

Definition reverseDirection (p : t) : t :=
  set_direction (if decide (direction p = 1%Z) then (-1)%Z else 1%Z) p.

(** [activateSuperPower()]: the returned flag and the passenger after the
    call. *)
Definition activateSuperPower (p : t) : bool * t :=
  if negb (bool_decide (is_Some (superPower p)))
     || Qgtb (powerCooldown p) 0
     || isUsingPower p
  then (false, p)
  else (true, set_powerCooldown 2 (set_isUsingPower true p)).

Definition stopUsingPower (p : t) : t := set_isUsingPower false p.

(** [checkReachedGate(gatePosition, gateWidth)] *)
Definition checkReachedGate (gatePosition : Vector2.t) (gateWidth : Q)
    (p : t) : bool * t :=
  if hasReachedGate p then (false, p)
  else
    let bounds := getBounds p in
    let gateLeft := Vector2.x gatePosition in
    let gateRight := Vector2.x gatePosition + gateWidth in
    let gateTop := Vector2.y gatePosition in
    let gateBottom := Vector2.y gatePosition + 50 in
    if Qgeb (BoundingBox.x bounds + BoundingBox.width bounds) gateLeft
       && Qleb (BoundingBox.x bounds) gateRight
       && Qgeb (BoundingBox.y bounds + BoundingBox.height bounds) gateTop
       && Qleb (BoundingBox.y bounds) gateBottom
    then (true, set_isActive false (set_hasReachedGate true p))
    else (false, p).

(** The horizontal wall loop of [update]: the first wall that the
    displaced box hits reverses the passenger, recomputes [velocity.x] and
    cancels the displacement ([break]).  The state is the passenger and
    [newX]. *)
Fixpoint hitWallX (speed : Q) (testBoundsX : BoundingBox.t)
    (walls : list BoundingBox.t) (p : t) (newX : Q) : t * Q :=
  match walls with
  | [] => (p, newX)
  | w :: rest =>
      let wallBounds :=
        BoundingBox.mk (BoundingBox.x w) (BoundingBox.y w)
                       (BoundingBox.width w) (BoundingBox.height w) in
      if CollisionSystem.checkAABB testBoundsX wallBounds then
        let p1 := reverseDirection p in
        let p2 := set_velocity
                    (Vector2.mk (inject_Z (direction p1) * speed)
                                (Vector2.y (velocity p1))) p1 in
        (p2, Vector2.x (position p))
      else hitWallX speed testBoundsX rest p newX
  end.

(** The local variables of the vertical part of [update], together with
    the two fields it assigns. *)
Record vertical := mkVertical {
  newY : Q;
  velocityY : Q;
  falling : bool;
  onPlatform : bool }.

(** The platform loop: standing on top of a platform snaps to it and
    leaves the loop; a hit from below is recorded and the loop goes on. *)
Fixpoint platformLoop (posX feetY : Q) (testBoundsY : BoundingBox.t)
    (platforms : list BoundingBox.t) (v : vertical) : vertical :=
  match platforms with
  | [] => v
  | platform :: rest =>
      let platformBounds :=
        BoundingBox.mk (BoundingBox.x platform) (BoundingBox.y platform)
                       (BoundingBox.width platform) (BoundingBox.height platform) in
      if Qgtb (posX + width) (BoundingBox.x platform)
         && Qltb posX (BoundingBox.x platform + BoundingBox.width platform)
         && Qgeb feetY (BoundingBox.y platform - 2)
         && Qleb feetY (BoundingBox.y platform + 5)
         && Qgeb (velocityY v) 0
      then mkVertical (BoundingBox.y platform - height) 0 false true
      else
        let v' :=
          if CollisionSystem.checkAABB testBoundsY platformBounds then
            let overlapTop :=
              (BoundingBox.y testBoundsY + BoundingBox.height testBoundsY)
              - BoundingBox.y platformBounds in
            let overlapBottom :=
              (BoundingBox.y platformBounds + BoundingBox.height platformBounds)
              - BoundingBox.y testBoundsY in
            if Qltb overlapTop overlapBottom && Qltb (velocityY v) 0
            then mkVertical (BoundingBox.y platformBounds
                             + BoundingBox.height platformBounds)
                            0 (falling v) (onPlatform v)
            else v
          else v in
        platformLoop posX feetY testBoundsY rest v'
  end.

(** The vertical wall loop: every wall that the displaced box overlaps
    pushes the passenger out, above or below (no [break]). *)
Fixpoint wallLoopY (testBoundsY : BoundingBox.t)
    (walls : list BoundingBox.t) (v : vertical) : vertical :=
  match walls with
  | [] => v
  | w :: rest =>
      let wallBounds :=
        BoundingBox.mk (BoundingBox.x w) (BoundingBox.y w)
                       (BoundingBox.width w) (BoundingBox.height w) in
      let v' :=
        if CollisionSystem.checkAABB testBoundsY wallBounds then
          let overlapTop :=
            (BoundingBox.y testBoundsY + BoundingBox.height testBoundsY)
            - BoundingBox.y wallBounds in
          let overlapBottom :=
            (BoundingBox.y wallBounds + BoundingBox.height wallBounds)
            - BoundingBox.y testBoundsY in
          if Qltb overlapTop overlapBottom
          then mkVertical (BoundingBox.y wallBounds - height) 0 (falling v) true
          else mkVertical (BoundingBox.y wallBounds + BoundingBox.height wallBounds)
                          0 (falling v) (onPlatform v)
        else v in
      wallLoopY testBoundsY rest v'
  end.

(** [update(deltaTime, platforms, walls, targetX, targetY)].  [target] is
    [None] when [targetX] or [targetY] is undefined. *)
Definition update (deltaTime : Q) (platforms walls : list BoundingBox.t)
    (target : option Vector2.t) (p : t) : t :=
  if negb (isActive p) || hasReachedGate p then p
  else
    (* Always apply gravity *)
    let vy := Vector2.y (velocity p) + 500 * deltaTime in
    let speed : Q := 50 in
    let dir :=
      match target with
      | Some tgt =>
          let dx := Vector2.x tgt - Vector2.x (position p) in
          if Qgtb (Qabs dx) 10
          then (if Qgtb dx 0 then 1%Z else (-1)%Z)
          else direction p
      | None => direction p
      end in
    let vx := inject_Z dir * speed in
    let p1 := set_velocity (Vector2.mk vx vy) (set_direction dir p) in
    let deltaX := vx * deltaTime in
    let deltaY := vy * deltaTime in
    (* Move horizontally first, check wall collisions *)
    let newX0 := Vector2.x (position p1) + deltaX in
    let testBoundsX :=
      BoundingBox.mk newX0 (Vector2.y (position p1)) width height in
    let '(p2, newX) :=
      if negb (bool_decide (superPower p1 = Some doorBreaker))
      then hitWallX speed testBoundsX walls p1 newX0
      else (p1, newX0) in
    let p3 := set_position (Vector2.mk newX (Vector2.y (position p2))) p2 in
    (* Move vertically (gravity) *)
    let newY0 := Vector2.y (position p3) + deltaY in
    let feetY := Vector2.y (position p3) + height in
    let testBoundsY :=
      BoundingBox.mk (Vector2.x (position p3)) newY0 width height in
    let v0 := mkVertical newY0 (Vector2.y (velocity p3)) (isFalling p3) false in
    let v1 := platformLoop (Vector2.x (position p3)) feetY testBoundsY platforms v0 in
    let v2 := wallLoopY testBoundsY walls v1 in
    let p4 :=
      set_isFalling (falling v2)
        (set_velocity (Vector2.mk (Vector2.x (velocity p3)) (velocityY v2))
           (set_position (Vector2.mk (Vector2.x (position p3)) (newY v2)) p3)) in
    (* Update falling state *)
    let p5 :=
      if negb (onPlatform v2) && Qgtb (Vector2.y (velocity p4)) 0
      then set_isFalling true p4 else p4 in
    (* Update power cooldown *)
    if Qgtb (powerCooldown p5) 0
    then set_powerCooldown (powerCooldown p5 - deltaTime) p5
    else p5.

End Passenger.

(** ** GameEngine (src/GameEngine.ts) *)

(** An obstacle as the engine stores it ([loadLevel] flattens the position). *)
Module Obstacle.
Record t := mk {
  type : ObstacleType;
  x : Q;
  y : Q;
  width : Q;
  height : Q;
  id : string }.

Definition bounds (o : t) : BoundingBox.t :=
  BoundingBox.mk (x o) (y o) (width o) (height o).
End Obstacle.

Module Bridge.
Record t := mk { x : Q; y : Q; width : Q }.
End Bridge.

(** ** CollisionSystem: the methods that take an obstacle list *)

Module CollisionSystemMoves.

(** The result of [checkCollisionAtPosition]. *)
Record hit := mkHit {
  collided : bool;
  obstacle : option Obstacle.t }.

(** [ignoreTypes.includes(obstacle.type)] *)
Definition ignored (ignoreTypes : list ObstacleType) (o : Obstacle.t) : bool :=
  bool_decide (Obstacle.type o ∈ ignoreTypes).

(** The default value of [ignoreTypes]. *)
Definition defaultIgnoreTypes : list ObstacleType := [gap].

(** The loop of [checkCollisionAtPosition] and of both stages of
    [moveWithCollision]: the first obstacle, not of an ignored type, that
    the box overlaps. *)
Fixpoint firstHit (testBounds : BoundingBox.t) (obstacles : list Obstacle.t)
    (ignoreTypes : list ObstacleType) : option Obstacle.t :=
  match obstacles with
  | [] => None
  | o :: rest =>
      if ignored ignoreTypes o then firstHit testBounds rest ignoreTypes
      else if CollisionSystem.checkAABB testBounds (Obstacle.bounds o)
      then Some o
      else firstHit testBounds rest ignoreTypes
  end.

(** [checkCollisionAtPosition(entityBounds, newX, newY, obstacles,
    ignoreTypes)] *)
Definition checkCollisionAtPosition (entityBounds : BoundingBox.t)
    (newX newY : Q) (obstacles : list Obstacle.t)
    (ignoreTypes : list ObstacleType) : hit :=
  let testBounds :=
    BoundingBox.mk newX newY (BoundingBox.width entityBounds)
                   (BoundingBox.height entityBounds) in
  match firstHit testBounds obstacles ignoreTypes with
  | Some o => mkHit true (Some o)
  | None => mkHit false None
  end.

(** The result of [moveWithCollision]. *)
Record moved := mkMoved {
  x : Q;
  y : Q;
  hitX : bool;
  hitY : bool }.

(** [moveWithCollision(currentX, currentY, deltaX, deltaY, width, height,
    obstacles, ignoreTypes)] *)
Definition moveWithCollision (currentX currentY deltaX deltaY width height : Q)
    (obstacles : list Obstacle.t) (ignoreTypes : list ObstacleType) : moved :=
  let newX0 := currentX + deltaX in
  let newY0 := currentY + deltaY in
  (* Check X movement first *)
  let '(newX, hitX) :=
    if negb (Qeqb deltaX 0) then
      let testBounds := BoundingBox.mk newX0 currentY width height in
      match firstHit testBounds obstacles ignoreTypes with
      | Some o =>
          let obstacleBounds := Obstacle.bounds o in
          let overlapLeft :=
            (BoundingBox.x testBounds + BoundingBox.width testBounds)
            - BoundingBox.x obstacleBounds in
          let overlapRight :=
            (BoundingBox.x obstacleBounds + BoundingBox.width obstacleBounds)
            - BoundingBox.x testBounds in
          (if Qltb overlapLeft overlapRight
           then BoundingBox.x obstacleBounds - width
           else BoundingBox.x obstacleBounds + BoundingBox.width obstacleBounds,
           true)
      | None => (newX0, false)
      end
    else (newX0, false) in
  (* Check Y movement *)
  let '(newY, hitY) :=
    if negb (Qeqb deltaY 0) then
      let testBounds := BoundingBox.mk newX newY0 width height in
      match firstHit testBounds obstacles ignoreTypes with
      | Some o =>
          let obstacleBounds := Obstacle.bounds o in
          let overlapTop :=
            (BoundingBox.y testBounds + BoundingBox.height testBounds)
            - BoundingBox.y obstacleBounds in
          let overlapBottom :=
            (BoundingBox.y obstacleBounds + BoundingBox.height obstacleBounds)
            - BoundingBox.y testBounds in
          (if Qltb overlapTop overlapBottom
           then BoundingBox.y obstacleBounds - height
           else BoundingBox.y obstacleBounds + BoundingBox.height obstacleBounds,
           true)
      | None => (newY0, false)
      end
    else (newY0, false) in
  mkMoved newX newY hitX hitY.

End CollisionSystemMoves.

Module GameEngine.

(** The fields of the engine that the simulation reads or writes.
    [selectedPassenger] is the index of the selected passenger in
    [passengers]; [canvasWidth] and [canvasHeight] stand for the canvas.
    [baddies] (always empty), [airportLayout] and [logoImage] (drawing
    only) and [lastTime] (never read) are left out. *)
Record t := mk {
  gameState : GameState;
  passengers : list Passenger.t;
  bridges : list Bridge.t;
  currentLevel : Z;
  levelConfig : option LevelConfig.t;
  levelStartTime : Q;
  passengersSpawned : Z;
  spawnTimer : Q;
  groundLevel : Q;
  checkInGate : Vector2.t;
  obstacles : list Obstacle.t;
  platforms : list BoundingBox.t;
  walls : list BoundingBox.t;
  selectedPassenger : option nat;
  selectedPower : option SuperPower;
  powerCounts : gmap SuperPower Z;
  canvasWidth : Q;
  canvasHeight : Q }.

Definition levelTimeLimit : Q := 300.       (* 5 minutes in seconds *)
Definition totalPassengers : Z := 100.
Definition spawnInterval : Q := 0.5.        (* Spawn every 0.5 seconds *)
Definition gateWidth : Q := 100.
Definition uiHeight : Q := 120.             (* Height of UI panel at bottom *)

(** Field assignments. *)
Definition set_gameState (v : GameState) (e : t) : t :=
  mk v (passengers e) (bridges e) (currentLevel e) (levelConfig e)
     (levelStartTime e) (passengersSpawned e) (spawnTimer e) (groundLevel e)
     (checkInGate e) (obstacles e) (platforms e) (walls e)
     (selectedPassenger e) (selectedPower e) (powerCounts e) (canvasWidth e)
     (canvasHeight e).
Definition set_passengers (v : list Passenger.t) (e : t) : t :=
  mk (gameState e) v (bridges e) (currentLevel e) (levelConfig e)
     (levelStartTime e) (passengersSpawned e) (spawnTimer e) (groundLevel e)
     (checkInGate e) (obstacles e) (platforms e) (walls e)
     (selectedPassenger e) (selectedPower e) (powerCounts e) (canvasWidth e)
     (canvasHeight e).
Definition set_bridges (v : list Bridge.t) (e : t) : t :=
  mk (gameState e) (passengers e) v (currentLevel e) (levelConfig e)
     (levelStartTime e) (passengersSpawned e) (spawnTimer e) (groundLevel e)
     (checkInGate e) (obstacles e) (platforms e) (walls e)
     (selectedPassenger e) (selectedPower e) (powerCounts e) (canvasWidth e)
     (canvasHeight e).
Definition set_currentLevel (v : Z) (e : t) : t :=
  mk (gameState e) (passengers e) (bridges e) v (levelConfig e)
     (levelStartTime e) (passengersSpawned e) (spawnTimer e) (groundLevel e)
     (checkInGate e) (obstacles e) (platforms e) (walls e)
     (selectedPassenger e) (selectedPower e) (powerCounts e) (canvasWidth e)
     (canvasHeight e).
Definition set_levelConfig (v : option LevelConfig.t) (e : t) : t :=
  mk (gameState e) (passengers e) (bridges e) (currentLevel e) v
     (levelStartTime e) (passengersSpawned e) (spawnTimer e) (groundLevel e)
     (checkInGate e) (obstacles e) (platforms e) (walls e)
     (selectedPassenger e) (selectedPower e) (powerCounts e) (canvasWidth e)
     (canvasHeight e).
Definition set_levelStartTime (v : Q) (e : t) : t :=
  mk (gameState e) (passengers e) (bridges e) (currentLevel e)
     (levelConfig e) v (passengersSpawned e) (spawnTimer e) (groundLevel e)
     (checkInGate e) (obstacles e) (platforms e) (walls e)
     (selectedPassenger e) (selectedPower e) (powerCounts e) (canvasWidth e)
     (canvasHeight e).
Definition set_passengersSpawned (v : Z) (e : t) : t :=
  mk (gameState e) (passengers e) (bridges e) (currentLevel e)
     (levelConfig e) (levelStartTime e) v (spawnTimer e) (groundLevel e)
     (checkInGate e) (obstacles e) (platforms e) (walls e)
     (selectedPassenger e) (selectedPower e) (powerCounts e) (canvasWidth e)
     (canvasHeight e).
Definition set_spawnTimer (v : Q) (e : t) : t :=
  mk (gameState e) (passengers e) (bridges e) (currentLevel e)
     (levelConfig e) (levelStartTime e) (passengersSpawned e) v
     (groundLevel e) (checkInGate e) (obstacles e) (platforms e) (walls e)
     (selectedPassenger e) (selectedPower e) (powerCounts e) (canvasWidth e)
     (canvasHeight e).
Definition set_checkInGate (v : Vector2.t) (e : t) : t :=
  mk (gameState e) (passengers e) (bridges e) (currentLevel e)
     (levelConfig e) (levelStartTime e) (passengersSpawned e) (spawnTimer e)
     (groundLevel e) v (obstacles e) (platforms e) (walls e)
     (selectedPassenger e) (selectedPower e) (powerCounts e) (canvasWidth e)
     (canvasHeight e).
Definition set_obstacles (v : list Obstacle.t) (e : t) : t :=
  mk (gameState e) (passengers e) (bridges e) (currentLevel e)
     (levelConfig e) (levelStartTime e) (passengersSpawned e) (spawnTimer e)
     (groundLevel e) (checkInGate e) v (platforms e) (walls e)
     (selectedPassenger e) (selectedPower e) (powerCounts e) (canvasWidth e)
     (canvasHeight e).
Definition set_platforms (v : list BoundingBox.t) (e : t) : t :=
  mk (gameState e) (passengers e) (bridges e) (currentLevel e)
     (levelConfig e) (levelStartTime e) (passengersSpawned e) (spawnTimer e)
     (groundLevel e) (checkInGate e) (obstacles e) v (walls e)
     (selectedPassenger e) (selectedPower e) (powerCounts e) (canvasWidth e)
     (canvasHeight e).
Definition set_walls (v : list BoundingBox.t) (e : t) : t :=
  mk (gameState e) (passengers e) (bridges e) (currentLevel e)
     (levelConfig e) (levelStartTime e) (passengersSpawned e) (spawnTimer e)
     (groundLevel e) (checkInGate e) (obstacles e) (platforms e) v
     (selectedPassenger e) (selectedPower e) (powerCounts e) (canvasWidth e)
     (canvasHeight e).
Definition set_selectedPassenger (v : option nat) (e : t) : t :=
  mk (gameState e) (passengers e) (bridges e) (currentLevel e)
     (levelConfig e) (levelStartTime e) (passengersSpawned e) (spawnTimer e)
     (groundLevel e) (checkInGate e) (obstacles e) (platforms e) (walls e) v
     (selectedPower e) (powerCounts e) (canvasWidth e) (canvasHeight e).
Definition set_selectedPower (v : option SuperPower) (e : t) : t :=
  mk (gameState e) (passengers e) (bridges e) (currentLevel e)
     (levelConfig e) (levelStartTime e) (passengersSpawned e) (spawnTimer e)
     (groundLevel e) (checkInGate e) (obstacles e) (platforms e) (walls e)
     (selectedPassenger e) v (powerCounts e) (canvasWidth e)
     (canvasHeight e).
Definition set_powerCounts (v : gmap SuperPower Z) (e : t) : t :=
  mk (gameState e) (passengers e) (bridges e) (currentLevel e)
     (levelConfig e) (levelStartTime e) (passengersSpawned e) (spawnTimer e)
     (groundLevel e) (checkInGate e) (obstacles e) (platforms e) (walls e)
     (selectedPassenger e) (selectedPower e) v (canvasWidth e)
     (canvasHeight e).

(** [this.powerCounts.get(power) || 0] *)
Definition getCount (power : SuperPower) (e : t) : Z :=
  default 0%Z (powerCounts e !! power).

Definition initializePowerCounts (e : t) : t :=
  set_powerCounts
    (<[securityBriber := 6%Z]>
       (<[doorBreaker := 8%Z]> (<[bridge := 10%Z]> (powerCounts e)))) e.

(** The state that the constructor leaves, for a canvas of the given size. *)
Definition new (width height : Q) : t :=
  initializePowerCounts
    {| gameState := MENU;
       passengers := [];
       bridges := [];
       currentLevel := 1%Z;
       levelConfig := None;
       levelStartTime := 0;
       passengersSpawned := 0%Z;
       spawnTimer := 0;
       groundLevel := height - uiHeight - 20;
       checkInGate := Vector2.mk 0 0;
       obstacles := [];
       platforms := [];
       walls := [];
       selectedPassenger := None;
       selectedPower := None;
       powerCounts := ∅;
       canvasWidth := width;
       canvasHeight := height |}.

(** The obstacle loop of [buildPlatformsAndWalls]: the non-gap obstacles
    that are wider than high are platforms, the others walls. *)
Definition isSolidType (ty : ObstacleType) : bool :=
  match ty with
  | wall | door | security | securityGuard => true
  | gap => false
  end.

Definition obstaclePlatforms (obs : list Obstacle.t) : list BoundingBox.t :=
  map Obstacle.bounds
    (List.filter (fun o => isSolidType (Obstacle.type o)
                           && Qgtb (Obstacle.width o) (Obstacle.height o)) obs).

Definition obstacleWalls (obs : list Obstacle.t) : list BoundingBox.t :=
  map Obstacle.bounds
    (List.filter (fun o => isSolidType (Obstacle.type o)
                           && negb (Qgtb (Obstacle.width o) (Obstacle.height o))) obs).

Definition buildPlatformsAndWalls (e : t) : t :=
  let ground := BoundingBox.mk 0 (groundLevel e) (canvasWidth e) 20 in
  let bridgePlatforms :=
    map (fun b => BoundingBox.mk (Bridge.x b) (Bridge.y b) (Bridge.width b) 10)
        (bridges e) in
  set_walls (obstacleWalls (obstacles e))
    (set_platforms
       (obstaclePlatforms (obstacles e) ++ [ground] ++ bridgePlatforms) e).

(** [loadLevel(config)] (the decorative airport layout is not modelled). *)
Definition loadLevel (config : LevelConfig.t) (e : t) : t :=
  let obs :=
    map (fun o =>
           Obstacle.mk (ConfigObstacle.type o)
                       (Vector2.x (ConfigObstacle.position o))
                       (Vector2.y (ConfigObstacle.position o))
                       (ConfigObstacle.width o) (ConfigObstacle.height o)
                       (ConfigObstacle.id o))
        (LevelConfig.obstacles config) in
  buildPlatformsAndWalls
    (set_checkInGate (LevelConfig.checkInGate config) (set_obstacles obs e)).

(** [startLevel(level)].  [now_ms] is the value of [Date.now()];
    [config] is the layout that [generateLevelConfig(level)] draws with
    [Math.random()], which is an input here. *)
Definition startLevel (level : Z) (now_ms : Z) (config : LevelConfig.t)
    (e : t) : t :=
  let e1 := set_currentLevel level e in
  let e2 := set_gameState PLAYING e1 in
  let e3 := set_passengers [] e2 in
  let e4 := set_bridges [] e3 in
  let e5 := set_passengersSpawned 0%Z e4 in
  let e6 := set_spawnTimer 0 e5 in
  let e7 := set_levelStartTime (inject_Z now_ms / 1000) e6 in
  let e8 := set_selectedPower None e7 in
  let e9 := set_selectedPassenger None e8 in
  let e10 := initializePowerCounts e9 in
  let e11 := set_levelConfig (Some config) e10 in
  loadLevel config e11.

(** [spawnPassenger()]; [rand] is the value of [Math.random()]. *)
Definition spawnPassenger (rand : Q) (e : t) : t :=
  match levelConfig e with
  | None => e
  | Some config =>
      let power :=
        if Qltb rand 0.15 then Some bridge
        else if Qltb rand 0.25 then Some doorBreaker
        else if Qltb rand 0.32 then Some securityBriber
        else None in
      let passenger :=
        Passenger.new (LevelConfig.spawnPoint config) power
          ("passenger_" +:+ pretty (passengersSpawned e)) in
      set_passengersSpawned (passengersSpawned e + 1)%Z
        (set_passengers (passengers e ++ [passenger]) e)
  end.

(** [this.bridges.some(b => b.x <= obstacle.x + obstacle.width &&
    b.x + b.width >= obstacle.x)] *)
Definition hasBridge (obstacle : Obstacle.t) (e : t) : bool :=
  existsb (fun b => Qleb (Bridge.x b) (Obstacle.x obstacle + Obstacle.width obstacle)
                    && Qgeb (Bridge.x b + Bridge.width b) (Obstacle.x obstacle))
          (bridges e).

(** [this.obstacles = this.obstacles.filter(o => o.id !== obstacle.id)] *)
Definition removeObstacle (obstacle : Obstacle.t) (e : t) : t :=
  set_obstacles
    (List.filter (fun o => negb (String.eqb (Obstacle.id o) (Obstacle.id obstacle)))
                 (obstacles e)) e.

(** [handleObstacleInteraction(passenger, obstacle)]: the engine and the
    passenger after the call. *)
Definition handleObstacleInteraction (e : t) (passenger : Passenger.t)
    (obstacle : Obstacle.t) : t * Passenger.t :=
  match Obstacle.type obstacle with
  | wall => (e, Passenger.reverseDirection passenger)
  | door =>
      if bool_decide (Passenger.superPower passenger = Some doorBreaker) then
        let '(ok, p1) := Passenger.activateSuperPower passenger in
        if ok then (removeObstacle obstacle e, p1)      (* Remove door obstacle *)
        else (e, Passenger.reverseDirection p1)
      else (e, Passenger.reverseDirection passenger)
  | gap =>
      if hasBridge obstacle e then (e, passenger)
      else if bool_decide (Passenger.superPower passenger = Some bridge) then
        let '(ok, p1) := Passenger.activateSuperPower passenger in
        if ok then
          (* Create bridge, remove gap obstacle *)
          let b := Bridge.mk (Obstacle.x obstacle)
                     (Obstacle.y obstacle + Obstacle.height obstacle - 10)
                     (Obstacle.width obstacle) in
          (removeObstacle obstacle (set_bridges (bridges e ++ [b]) e), p1)
        else (e, Passenger.set_isFalling true (Passenger.reverseDirection p1))
      else (e, Passenger.set_isFalling true (Passenger.reverseDirection passenger))
  | security =>
      if bool_decide (Passenger.superPower passenger = Some securityBriber) then
        let '(ok, p1) := Passenger.activateSuperPower passenger in
        if ok then (removeObstacle obstacle e, p1)
        else (e, Passenger.reverseDirection p1)
      else (e, Passenger.reverseDirection passenger)
  | securityGuard =>
      let slow p :=
        Passenger.set_velocity
          (Vector2.mk (Vector2.x (Passenger.velocity p) * 0.3)
                      (Vector2.y (Passenger.velocity p))) p in
      if bool_decide (Passenger.superPower passenger = Some securityBriber) then
        let '(ok, p1) := Passenger.activateSuperPower passenger in
        if ok then (removeObstacle obstacle e, p1)
        else (e, slow (Passenger.reverseDirection p1))
      else (e, slow (Passenger.reverseDirection passenger))
  end.

(** The body of the obstacle loop of [handleObstacleCollisions].
    [passengerBounds] is read once before the loop; the direction of the
    passenger, the bridges and the obstacle list of the engine are read
    and written as the loop goes. *)
Definition collideWith (passengerBounds : BoundingBox.t)
    (st : t * Passenger.t) (obstacle : Obstacle.t) : t * Passenger.t :=
  let '(e, passenger) := st in
  match Obstacle.type obstacle with
  | gap =>
      let gapLeft := Obstacle.x obstacle in
      let gapRight := Obstacle.x obstacle + Obstacle.width obstacle in
      let passengerFeetX :=
        Vector2.x (Passenger.position passenger)
        + (if decide (Passenger.direction passenger = 1%Z)
           then Passenger.width else 0) in
      let passengerFeetY :=
        Vector2.y (Passenger.position passenger) + Passenger.height in
      if Qgeb passengerFeetX gapLeft
         && Qleb passengerFeetX gapRight
         && Qgeb passengerFeetY (Obstacle.y obstacle)
         && Qleb passengerFeetY (Obstacle.y obstacle + Obstacle.height obstacle)
      then
        if negb (hasBridge obstacle e)
        then handleObstacleInteraction e passenger obstacle
        else (e, passenger)
      else (e, passenger)
  | _ =>
      if CollisionSystem.checkAABB passengerBounds (Obstacle.bounds obstacle)
      then handleObstacleInteraction e passenger obstacle
      else (e, passenger)
  end.

(** [handleObstacleCollisions(passenger)]: [for (const obstacle of
    this.obstacles)] walks the array that [this.obstacles] names when the
    loop starts, also after an interaction has replaced it. *)
Definition handleObstacleCollisions (e : t) (passenger : Passenger.t)
    : t * Passenger.t :=
  fold_left (collideWith (Passenger.getBounds passenger)) (obstacles e)
            (e, passenger).

(** The body of [this.passengers.forEach(...)] in [update], for the
    passenger at index [i]. *)
Definition stepPassenger (deltaTime : Q) (e : t) (i : nat) : t :=
  match passengers e !! i with
  | None => e
  | Some passenger =>
      let p1 :=
        Passenger.update deltaTime (platforms e) (walls e)
          (Some (checkInGate e)) passenger in
      let '(e1, p2) := handleObstacleCollisions e p1 in
      let '(justReached, p3) :=
        Passenger.checkReachedGate (checkInGate e1) gateWidth p2 in
      set_passengers (<[i := p3]> (passengers e1)) e1
  end.

Definition forEachPassenger (deltaTime : Q) (e : t) : t :=
  fold_left (stepPassenger deltaTime) (seq 0 (length (passengers e))) e.

(** The counts of the win condition. *)
Definition activePassengers (e : t) : list Passenger.t :=
  List.filter (fun p => Passenger.isActive p && negb (Passenger.hasReachedGate p))
              (passengers e).

Definition reachedGate (e : t) : nat :=
  length (List.filter Passenger.hasReachedGate (passengers e)).

Definition allResolved (e : t) : bool :=
  bool_decide (totalPassengers ≤ passengersSpawned e)%Z
  && bool_decide (length (activePassengers e) = 0%nat).

(** The last statement of [update]: check win condition. *)
Definition checkWinCondition (e : t) : t :=
  if allResolved e then
    if bool_decide (50 ≤ reachedGate e)%nat then   (* Need at least 50% to pass *)
      if bool_decide (10 ≤ currentLevel e)%Z
      then set_gameState VICTORY e
      else set_gameState LEVEL_COMPLETE e
    else set_gameState GAME_OVER e
  else e.

(** [(Date.now() / 1000) - this.levelStartTime] *)
Definition elapsed (now_ms : Z) (e : t) : Q :=
  inject_Z now_ms / 1000 - levelStartTime e.

(** The spawn step of [update]. *)
Definition spawnStep (deltaTime rand : Q) (e : t) : t :=
  if bool_decide (passengersSpawned e < totalPassengers)%Z then
    let e1 := set_spawnTimer (spawnTimer e + deltaTime) e in
    if Qgeb (spawnTimer e1) spawnInterval
    then set_spawnTimer 0 (spawnPassenger rand e1)
    else e1
  else e.

(** [elapsed >= this.levelTimeLimit] *)
Definition timeLimitReached (now_ms : Z) (e : t) : bool :=
  Qgeb (elapsed now_ms e) levelTimeLimit.

(** [update(deltaTime)].  [now_ms] is the value of [Date.now()] and [rand]
    the value of [Math.random()] that a spawn would draw. *)
Definition update (now_ms : Z) (deltaTime rand : Q) (e : t) : t :=
  if negb (bool_decide (gameState e = PLAYING)) then e
  else if timeLimitReached now_ms e
  then set_gameState GAME_OVER e               (* Check time limit *)
  else
    let e1 := spawnStep deltaTime rand e in
    let e2 := buildPlatformsAndWalls e1 in     (* in case bridges were added *)
    let e3 := forEachPassenger deltaTime e2 in
    checkWinCondition e3.

Definition nextLevel (now_ms : Z) (config : LevelConfig.t) (e : t) : t :=
  if bool_decide (currentLevel e < 10)%Z
  then startLevel (currentLevel e + 1) now_ms config e
  else e.

Definition pause (e : t) : t :=
  match gameState e with
  | PLAYING => set_gameState PAUSED e
  | PAUSED => set_gameState PLAYING e
  | _ => e
  end.

(** [Array.prototype.find] and the [for ... of] loops that stop at the
    first match: the first element that satisfies [f], with its index. *)
Fixpoint findFrom {A} (f : A → bool) (i : nat) (l : list A) : option (nat * A) :=
  match l with
  | [] => None
  | a :: rest => if f a then Some (i, a) else findFrom f (S i) rest
  end.

Definition find {A} (f : A → bool) (l : list A) : option (nat * A) :=
  findFrom f 0 l.

Definition sq (a : Q) : Q := a * a.              (* Math.pow(a, 2) *)

(** The [switch] of [tryActivatePowerAtPosition]. *)
Definition shouldActivate (power : option SuperPower) (ty : ObstacleType) : bool :=
  match power, ty with
  | Some bridge, gap => true
  | Some doorBreaker, door => true
  | Some securityBriber, security => true
  | _, _ => false
  end.

(** The obstacle loop of [tryActivatePowerAtPosition]: [None] when the
    loop ends without an activation, otherwise the engine and the passenger
    at the [return]. *)
Fixpoint tryActivateLoop (e : t) (passenger : Passenger.t) (x y : Q)
    (obs : list Obstacle.t) : option (t * Passenger.t) :=
  match obs with
  | [] => None
  | obstacle :: rest =>
      let distance2 :=
        sq (x - (Obstacle.x obstacle + Obstacle.width obstacle / 2))
        + sq (y - (Obstacle.y obstacle + Obstacle.height obstacle / 2)) in
      if Qltb distance2 (sq 100)                  (* Within 100 pixels *)
         && shouldActivate (Passenger.superPower passenger) (Obstacle.type obstacle)
      then
        let '(ok, p1) := Passenger.activateSuperPower passenger in
        if ok then
          let '(e1, p2) := handleObstacleInteraction e p1 obstacle in
          let e2 := set_selectedPassenger None e1 in   (* Deselect after use *)
          (* Power is consumed, remove it from passenger *)
          Some (e2, Passenger.set_color "#2196F3"
                      (Passenger.set_superPower None p2))
        else tryActivateLoop e p1 x y rest
      else tryActivateLoop e passenger x y rest
  end.

(** [tryActivatePowerAtPosition(passenger, x, y)] for the passenger at
    index [i]. *)
Definition tryActivatePowerAtPosition (i : nat) (x y : Q) (e : t) : t :=
  match passengers e !! i with
  | None => e
  | Some passenger =>
      if negb (bool_decide (is_Some (Passenger.superPower passenger)))
         || Qgtb (Passenger.powerCooldown passenger) 0
      then e
      else
        match tryActivateLoop e passenger x y (obstacles e) with
        | None => e
        | Some (e1, p1) => set_passengers (<[i := p1]> (passengers e1)) e1
        end
  end.

(** [handleUIClick(x, y, uiY)] *)
Definition handleUIClick (x y uiY : Q) (e : t) : t :=
  let iconSize : Q := 32 in
  let iconSpacing : Q := 40 in
  let iconY := uiY + 40 in
  let select power :=
    if bool_decide (0 < getCount power e)%Z
    then set_selectedPower (Some power) e else e in
  if Qgeb y iconY && Qleb y (iconY + iconSize) then
    if Qgeb x 10 && Qleb x (10 + iconSize) then select bridge
    else if Qgeb x (10 + iconSpacing) && Qleb x (10 + iconSpacing + iconSize)
    then select doorBreaker
    else if Qgeb x (10 + iconSpacing * 2) && Qleb x (10 + iconSpacing * 2 + iconSize)
    then select securityBriber
    else if Qgeb x (canvasWidth e - 60) && Qleb x (canvasWidth e - 60 + iconSize)
    then set_selectedPower None e                 (* Nuke button *)
    else set_selectedPower None e
  else set_selectedPower None e.                  (* Clicking elsewhere deselects *)

(** The test of the first loop of [handleClick]: an active passenger with
    a superpower whose body or star is under the click. *)
Definition clickedOn (x y : Q) (passenger : Passenger.t) : bool :=
  if negb (Passenger.isActive passenger)
     || Passenger.hasReachedGate passenger
     || negb (bool_decide (is_Some (Passenger.superPower passenger)))
  then false
  else
    let bounds := Passenger.getBounds passenger in
    let centerX := BoundingBox.x bounds + BoundingBox.width bounds / 2 in
    let starY := BoundingBox.y bounds - 15 in
    let starSize : Q := 14 in
    let clickedBody :=
      Qgeb x (BoundingBox.x bounds)
      && Qleb x (BoundingBox.x bounds + BoundingBox.width bounds)
      && Qgeb y (BoundingBox.y bounds)
      && Qleb y (BoundingBox.y bounds + BoundingBox.height bounds) in
    let clickedStar := Qleb (sq (x - centerX) + sq (y - starY)) (sq starSize) in
    clickedBody || clickedStar.

(** The test of [this.passengers.find(...)] in [handleClick]. *)
Definition eligibleNear (x y : Q) (p : Passenger.t) : bool :=
  Passenger.isActive p
  && negb (Passenger.hasReachedGate p)
  && negb (bool_decide (is_Some (Passenger.superPower p)))
  && Qltb (sq (Vector2.x (Passenger.position p) - x)
           + sq (Vector2.y (Passenger.position p) - y)) (sq 50).

(** The end of [handleClick]: activate the power of the selected
    passenger, if there is one. *)
Definition clickElsewhere (x y : Q) (e : t) : t :=
  match selectedPassenger e with
  | Some i => tryActivatePowerAtPosition i x y e
  | None => set_selectedPassenger None e
  end.

(** The part of [handleClick] that runs while PLAYING. *)
Definition handleClickPlaying (x y : Q) (e : t) : t :=
  let uiY := canvasHeight e - uiHeight in
  if Qgeb y uiY then handleUIClick x y uiY e
  else
    match find (clickedOn x y) (passengers e) with
    | Some (i, _) =>
        tryActivatePowerAtPosition i x y (set_selectedPassenger (Some i) e)
    | None =>
        match selectedPower e with
        | Some power =>
            if bool_decide (0 < getCount power e)%Z then
              match find (eligibleNear x y) (passengers e) with
              | Some (i, nearestPassenger) =>
                  let p1 :=
                    Passenger.set_color (Passenger.getColorForPower (Some power))
                      (Passenger.set_superPower (Some power) nearestPassenger) in
                  let currentCount := getCount power e in
                  let e1 := set_passengers (<[i := p1]> (passengers e)) e in
                  let e2 :=
                    set_powerCounts
                      (<[power := Z.max 0 (currentCount - 1)]> (powerCounts e1)) e1 in
                  set_selectedPower None e2           (* Deselect after use *)
              | None => clickElsewhere x y e
              end
            else clickElsewhere x y e
        | None => clickElsewhere x y e
        end
    end.

(** [handleClick(x, y)].  [now_ms] and [config] are what a [startLevel]
    triggered by the click reads. *)
Definition handleClick (x y : Q) (now_ms : Z) (config : LevelConfig.t)
    (e : t) : t :=
  match gameState e with
  | MENU => startLevel 1 now_ms config e
  | LEVEL_COMPLETE => nextLevel now_ms config e
  | GAME_OVER | VICTORY => set_gameState MENU e
  | PAUSED => e
  | PLAYING => handleClickPlaying x y e
  end.

(** [getBridgeLevel(x)]: the height of the first bridge that spans [x];
    [None] stands for [null]. *)
Definition getBridgeLevel (x : Q) (e : t) : option Q :=
  match find (fun b => Qgeb x (Bridge.x b)
                       && Qleb x (Bridge.x b + Bridge.width b))
             (bridges e) with
  | Some (_, b) => Some (Bridge.y b)
  | None => None
  end.

End GameEngine.

(** ** The compiled engine (dist/GameEngine.js)

    The build under dist/ comes from another revision of the engine, in
    which the only power is wall smashing.  Its obstacle interaction is
    embedded here, over the same engine state, next to the one of
    src/GameEngine.ts. *)

Module DistGameEngine.

Definition getColorForPower (power : option SuperPower) : string :=
  match power with
  | Some doorBreaker => "#ff6b00"
  | _ => "#00aaff"
  end.

(** [this.walls = this.walls.filter(w => !(w.x === obstacle.x && w.y ===
    obstacle.y && w.width === obstacle.width && w.height ===
    obstacle.height))] *)
Definition removeWall (obstacle : Obstacle.t) (e : GameEngine.t) : GameEngine.t :=
  GameEngine.set_walls
    (List.filter
       (fun w => negb (Qeqb (BoundingBox.x w) (Obstacle.x obstacle)
                       && Qeqb (BoundingBox.y w) (Obstacle.y obstacle)
                       && Qeqb (BoundingBox.width w) (Obstacle.width obstacle)
                       && Qeqb (BoundingBox.height w) (Obstacle.height obstacle)))
       (GameEngine.walls e)) e.

(** Remove power after use - can only use once! *)
Definition stripPower (p : Passenger.t) : Passenger.t :=
  Passenger.stopUsingPower
    (Passenger.set_color (getColorForPower None)
       (Passenger.set_superPower None p)).

Definition handleObstacleInteraction (e : GameEngine.t)
    (passenger : Passenger.t) (obstacle : Obstacle.t)
    : GameEngine.t * Passenger.t :=
  match Obstacle.type obstacle with
  | wall =>
      (* Horizontal = platform *)
      let isPlatform := Qgtb (Obstacle.width obstacle) (Obstacle.height obstacle) in
      let '(ok, p1) :=
        if bool_decide (Passenger.superPower passenger = Some doorBreaker)
        then Passenger.activateSuperPower passenger
        else (false, passenger) in
      if ok && negb isPlatform then
        (* Only break vertical walls, not horizontal platforms *)
        (removeWall obstacle (GameEngine.removeObstacle obstacle e), stripPower p1)
      else if isPlatform then (e, p1)
      else (e, Passenger.reverseDirection p1)
  | door =>
      let '(ok, p1) :=
        if bool_decide (Passenger.superPower passenger = Some doorBreaker)
        then Passenger.activateSuperPower passenger
        else (false, passenger) in
      if ok then (GameEngine.removeObstacle obstacle e, stripPower p1)
      else (e, Passenger.reverseDirection p1)
  | gap =>
      (e, Passenger.set_isFalling true (Passenger.reverseDirection passenger))
  | security => (e, Passenger.reverseDirection passenger)
  | securityGuard =>
      let p1 := Passenger.reverseDirection passenger in
      (e, Passenger.set_velocity
            (Vector2.mk (Vector2.x (Passenger.velocity p1) * 0.3)
                        (Vector2.y (Passenger.velocity p1))) p1)
  end.

End DistGameEngine.

(** ** GameEngine.generateLevelConfig (src/GameEngine.ts)

    [Math.random()] is a stream of numbers that is read in order.  A
    computation that draws from it takes the stream and the index of the
    next draw, and returns its result with the index after its last
    draw. *)

Module Random.

Definition t (A : Type) : Type := (nat → Q) → nat → A * nat.

Definition ret {A} (a : A) : t A := fun _ n => (a, n).

Definition bind {A B} (m : t A) (k : A → t B) : t B :=
  fun rs n => let '(a, n') := m rs n in k a rs n'.

(** [Math.random()] *)
Definition random : t Q := fun rs n => (rs n, S n).

End Random.

Notation "'draw' x <- m 'in' k" := (Random.bind m (fun x => k))
  (at level 10, x name, m at level 100, k at level 200).

Module LevelGenerator.
Import Random.

(** An element of the local array [platforms]. *)
Record PathPlatform := mkPathPlatform { x : Q; y : Q; width : Q }.

(** The main path: [while (currentX < targetX - 100) { ... }].  The loop
    is cut after [fuel] iterations; [None] says that it was cut. *)
Fixpoint pathLoop (fuel : nat) (targetX groundLevel : Q) (currentX currentY : Q)
    (platforms : list PathPlatform) (obstacles : list ConfigObstacle.t)
    : Random.t (option (list PathPlatform * list ConfigObstacle.t)) :=
  if Qltb currentX (targetX - 100) then
    match fuel with
    | O => ret None
    | S fuel' =>
        draw r1 <- random in
        let platformWidth := 80 + r1 * 120 in
        draw r2 <- random in
        draw r3 <- random in
        let nextY :=
          currentY + (if Qltb r2 0.3 then -80 else 0)
          + (if Qltb r3 0.2 then 100 else 0) in
        let clampedY := Qmax 50 (Qmin nextY (groundLevel - 100)) in
        let platforms' :=
          platforms ++ [mkPathPlatform currentX clampedY platformWidth] in
        let obstacles' :=
          obstacles
          ++ [ConfigObstacle.mk wall (Vector2.mk currentX clampedY)
                platformWidth 20
                ("path_platform_" +:+ pretty (length platforms'))] in
        draw r4 <- random in
        (* Gap between platforms *)
        pathLoop fuel' targetX groundLevel
          (currentX + (platformWidth + (30 + r4 * 50))) clampedY
          platforms' obstacles'
    end
  else ret (Some (platforms, obstacles)).

(** [for (let i = 0; i < count; i++) { ...; obstacles.push(o) }]: [body i]
    draws the obstacle that iteration [i] pushes. *)
Fixpoint forLoop (body : nat → Random.t ConfigObstacle.t) (indices : list nat)
    (obstacles : list ConfigObstacle.t) : Random.t (list ConfigObstacle.t) :=
  match indices with
  | [] => ret obstacles
  | i :: rest =>
      draw o <- body i in
      forLoop body rest (obstacles ++ [o])
  end.

(** The values of [i] in [for (let i = 0; i < count; i++)]. *)
Definition upTo (count : Z) : list nat := seq 0 (Z.to_nat count).

Definition number (i : nat) : Q := inject_Z (Z.of_nat i).

(** Add many additional platforms throughout the level. *)
Definition extraPlatform (canvasWidth groundLevel : Q) (i : nat)
    : Random.t ConfigObstacle.t :=
  draw r1 <- random in
  let x := 100 + r1 * (canvasWidth - 200) in
  draw r2 <- random in
  let y := 80 + r2 * (groundLevel - 150) in
  draw r3 <- random in
  let width := 60 + r3 * 100 in
  ret (ConfigObstacle.mk wall (Vector2.mk x y) width 20
         ("platform_" +:+ pretty i)).

(** Create vertical walls (barriers). *)
Definition verticalWall (canvasWidth groundLevel : Q) (i : nat)
    : Random.t ConfigObstacle.t :=
  draw r1 <- random in
  let x := 150 + r1 * (canvasWidth - 300) in
  draw r2 <- random in
  let y := 100 + r2 * (groundLevel - 200) in
  draw r3 <- random in
  let height := 60 + r3 * 120 in
  ret (ConfigObstacle.mk wall (Vector2.mk x y) 20 height
         ("wall_" +:+ pretty i)).

(** Create gaps between platforms (for bridge builders to use). *)
Definition gapObstacle (groundLevel : Q) (i : nat) : Random.t ConfigObstacle.t :=
  draw r1 <- random in
  let x := 200 + (number i * 200) + r1 * 150 in
  let y := groundLevel - 30 in
  draw r2 <- random in
  ret (ConfigObstacle.mk gap (Vector2.mk x y) (50 + r2 * 60) 20
         ("gap_" +:+ pretty i)).

(** Add doors and security checkpoints. *)
Definition special (groundLevel : Q) (i : nat) : Random.t ConfigObstacle.t :=
  draw r1 <- random in
  let x := 300 + (number i * 250) + r1 * 100 in
  draw r2 <- random in
  let y := 120 + r2 * (groundLevel - 200) in
  ret (ConfigObstacle.mk (if Nat.even i then door else security)
         (Vector2.mk x y) 20 60 ("special_" +:+ pretty i)).

(** [platforms[index]] for a number [index]: [None] stands for
    [undefined]. *)
Definition at_index (platforms : list PathPlatform) (index : Z)
    : option PathPlatform :=
  if bool_decide (0 ≤ index)%Z then platforms !! Z.to_nat index else None.

(** Add security guards on platforms. *)
Definition guard (groundLevel : Q) (platforms : list PathPlatform) (i : nat)
    : Random.t ConfigObstacle.t :=
  draw r <- random in
  let platform :=
    at_index platforms
      (Qfloor (r * inject_Z (Z.min (Z.of_nat (length platforms)) 5))) in
  let x :=
    match platform with
    | Some platform => x platform + 20
    | None => 400 + (number i * 200)
    end in
  let y :=
    match platform with
    | Some platform => y platform - 50
    | None => groundLevel - 30
    end in
  ret (ConfigObstacle.mk securityGuard (Vector2.mk x y) 20 50
         ("guard_" +:+ pretty i)).

(** Spawn platform - passengers MUST start on this! *)
Definition spawnPlatformY : Q := 50.
Definition spawnPlatformWidth : Q := 150.

Definition spawnPlatform : ConfigObstacle.t :=
  ConfigObstacle.mk wall (Vector2.mk 0 spawnPlatformY) spawnPlatformWidth 20
    "spawn_platform".

(** [generateLevelConfig(level)], with the main path cut after [fuel]
    platforms. *)
Definition generateLevelConfig (fuel : nat) (level : Z) (e : GameEngine.t)
    : Random.t (option LevelConfig.t) :=
  let difficulty := level in
  let obstacles := [spawnPlatform] in
  let platformCount := (15 + level * 5)%Z in
  let currentX := spawnPlatformWidth + 50 in
  let currentY := spawnPlatformY in
  let targetX := GameEngine.canvasWidth e - 200 in
  draw path <- pathLoop fuel targetX (GameEngine.groundLevel e) currentX currentY
            [] obstacles in
  match path with
  | None => ret None
  | Some (platforms, obstacles) =>
      draw obstacles <-
        forLoop (extraPlatform (GameEngine.canvasWidth e) (GameEngine.groundLevel e))
          (upTo (platformCount - Z.of_nat (length platforms))) obstacles in
      let wallCount := (8 + level * 3)%Z in
      draw obstacles <-
        forLoop (verticalWall (GameEngine.canvasWidth e) (GameEngine.groundLevel e))
          (upTo wallCount) obstacles in
      let gapCount := (5 + level * 2)%Z in
      draw obstacles <-
        forLoop (gapObstacle (GameEngine.groundLevel e)) (upTo gapCount) obstacles in
      draw obstacles <-
        forLoop (special (GameEngine.groundLevel e)) (upTo (3 + level)) obstacles in
      draw obstacles <-
        forLoop (guard (GameEngine.groundLevel e) platforms) (upTo (2 + level))
          obstacles in
      (* Spawn point is on the spawn platform *)
      let spawnPoint := Vector2.mk 50 (spawnPlatformY - 32) in
      ret (Some
             {| LevelConfig.levelNumber := level;
                LevelConfig.obstacles := obstacles;
                LevelConfig.spawnPoint := spawnPoint;
                LevelConfig.checkInGate :=
                  Vector2.mk (GameEngine.canvasWidth e - 150)
                             (GameEngine.groundLevel e - 30);
                LevelConfig.difficulty := difficulty |})
  end.

(** [startLevel(level)] with the layout that it draws itself. *)
Definition startLevel (fuel : nat) (level : Z) (now_ms : Z) (e : GameEngine.t)
    : Random.t (option GameEngine.t) :=
  draw config <- generateLevelConfig fuel level e in
  ret (option_map (fun config => GameEngine.startLevel level now_ms config e)
                  config).

End LevelGenerator.

(** ** Game (dist/index.js)

    The shell around the engine.  [requestAnimationFrame] calls
    [gameLoop] with the time stamp of the frame; the calls are the
    elements of a run.  Rendering is left out. *)

Module Game.

Record t := mk {
  lastTime : Q;
  gameEngine : GameEngine.t }.

(** [gameLoop(currentTime)].  [now_ms] and [rand] are what the [update]
    of the engine reads from [Date.now()] and [Math.random()]. *)
Definition gameLoop (currentTime : Q) (now_ms : Z) (rand : Q) (g : t) : t :=
  let deltaTime := (currentTime - lastTime g) / 1000 in   (* Convert to seconds *)
  let g1 := mk currentTime (gameEngine g) in
  (* Cap deltaTime to prevent large jumps *)
  let clampedDelta := Qmin deltaTime 0.1 in
  mk (lastTime g1) (GameEngine.update now_ms clampedDelta rand (gameEngine g1)).

(** The constructor: a canvas of 1200 x 700, the engine, [gameLoop(0)]. *)
Definition new (now_ms : Z) (rand : Q) : t :=
  gameLoop 0 now_ms rand (mk 0 (GameEngine.new 1200 700)).

(** The click listener of the canvas. *)
Definition click (x y : Q) (now_ms : Z) (config : LevelConfig.t) (g : t) : t :=
  mk (lastTime g) (GameEngine.handleClick x y now_ms config (gameEngine g)).

(** The keyboard listener. *)
Definition keydown (key : string) (g : t) : t :=
  if bool_decide (key = " ") || bool_decide (key = "Escape")
  then mk (lastTime g) (GameEngine.pause (gameEngine g))
  else g.

(** What happens to the game: a frame, a click on the canvas, a key. *)
Inductive Event :=
  | Frame (currentTime : Q) (now_ms : Z) (rand : Q)
  | Click (x y : Q) (now_ms : Z) (config : LevelConfig.t)
  | Key (key : string).

Definition event (g : t) (ev : Event) : t :=
  match ev with
  | Frame currentTime now_ms rand => gameLoop currentTime now_ms rand g
  | Click x y now_ms config => click x y now_ms config g
  | Key key => keydown key g
  end.

Definition run (events : list Event) (g : t) : t := fold_left event events g.

End Game.

(** * Vocabulary of the properties *)

(** ** Passengers *)

(** When the three conditions of [activateSuperPower] hold. *)
Definition canActivate (p : Passenger.t) : Prop :=
  is_Some (Passenger.superPower p)
  ∧ Passenger.powerCooldown p <= 0
  ∧ Passenger.isUsingPower p = false.

(** What can happen to a passenger object: a call of one of its methods,
    or one of the field writes that the engine does on it ([superPower]
    and [color] when a power is assigned or consumed, [isFalling] at a
    gap, [velocity] at a guard). *)
Inductive PassengerCall :=
  | CheckReachedGate (gatePosition : Vector2.t) (gateWidth : Q)
  | Update (deltaTime : Q) (platforms walls : list BoundingBox.t)
           (target : option Vector2.t)
  | ActivateSuperPower
  | StopUsingPower
  | ReverseDirection
  | WriteSuperPower (power : option SuperPower)
  | WriteColor (color : string)
  | WriteIsFalling (b : bool)
  | WriteVelocity (v : Vector2.t).

(** What the call returned. *)
Inductive Returned := RetGate (b : bool) | RetPower (b : bool) | RetVoid.

Definition passengerCall (c : PassengerCall) (p : Passenger.t)
    : Returned * Passenger.t :=
  match c with
  | CheckReachedGate gate gateWidth =>
      let r := Passenger.checkReachedGate gate gateWidth p in
      (RetGate (fst r), snd r)
  | Update dt platforms walls target =>
      (RetVoid, Passenger.update dt platforms walls target p)
  | ActivateSuperPower =>
      let r := Passenger.activateSuperPower p in (RetPower (fst r), snd r)
  | StopUsingPower => (RetVoid, Passenger.stopUsingPower p)
  | ReverseDirection => (RetVoid, Passenger.reverseDirection p)
  | WriteSuperPower power => (RetVoid, Passenger.set_superPower power p)
  | WriteColor c => (RetVoid, Passenger.set_color c p)
  | WriteIsFalling b => (RetVoid, Passenger.set_isFalling b p)
  | WriteVelocity v => (RetVoid, Passenger.set_velocity v p)
  end.

(** A sequence of calls on one passenger: what each call returned and the
    passenger after it. *)
Fixpoint passengerCalls (calls : list PassengerCall) (p : Passenger.t)
    : list (Returned * Passenger.t) :=
  match calls with
  | [] => []
  | c :: rest =>
      let r := passengerCall c p in
      r :: passengerCalls rest (snd r)
  end.

(** A passenger that has reached the gate and is inactive. *)
Definition arrivedAtGate (p : Passenger.t) : Prop :=
  Passenger.hasReachedGate p = true ∧ Passenger.isActive p = false.

(** [sameBody p p']: the position, the two lifecycle flags, the power,
    the color and the id of [p'] are those of [p]. *)
Record sameBody (p p' : Passenger.t) : Prop := mkSameBody {
  sb_position : Passenger.position p' = Passenger.position p;
  sb_hasReachedGate : Passenger.hasReachedGate p' = Passenger.hasReachedGate p;
  sb_isActive : Passenger.isActive p' = Passenger.isActive p;
  sb_superPower : Passenger.superPower p' = Passenger.superPower p;
  sb_color : Passenger.color p' = Passenger.color p;
  sb_id : Passenger.id p' = Passenger.id p }.

(** ** What a step of the engine leaves alone *)

Section EngineVocabulary.
Import GameEngine.

(** [keepsControl e e']: from [e] to [e'] the game state, the level, the
    level clock, the spawn count, the inventory and the selections are the
    same, no passenger was added or dropped, and the bridges of [e] are
    still there, in the same order, before any new one. *)
Record keepsControl (e e' : t) : Prop := mkKeepsControl {
  kc_gameState : gameState e' = gameState e;
  kc_currentLevel : currentLevel e' = currentLevel e;
  kc_levelStartTime : levelStartTime e' = levelStartTime e;
  kc_levelConfig : levelConfig e' = levelConfig e;
  kc_passengersSpawned : passengersSpawned e' = passengersSpawned e;
  kc_powerCounts : powerCounts e' = powerCounts e;
  kc_selectedPower : selectedPower e' = selectedPower e;
  kc_checkInGate : checkInGate e' = checkInGate e;
  kc_length : length (passengers e') = length (passengers e);
  kc_bridges : bridges e `prefix_of` bridges e' }.

(** [keepsLevel e e']: the part of [keepsControl] that also survives a
    spawn. *)
Record keepsLevel (e e' : t) : Prop := mkKeepsLevel {
  kl_gameState : gameState e' = gameState e;
  kl_currentLevel : currentLevel e' = currentLevel e;
  kl_levelStartTime : levelStartTime e' = levelStartTime e;
  kl_powerCounts : powerCounts e' = powerCounts e;
  kl_selectedPower : selectedPower e' = selectedPower e;
  kl_bridges : bridges e `prefix_of` bridges e' }.

(** The part of [update] between the time check and the win condition:
    spawn, rebuild the platforms, step every passenger. *)
Definition simulate (deltaTime rand : Q) (e : t) : t :=
  forEachPassenger deltaTime (buildPlatformsAndWalls (spawnStep deltaTime rand e)).

(** All agents are resolved: the spawn count is the cap and no passenger
    is active without having reached the gate. *)
Definition allAgentsResolved (e : t) : Prop :=
  passengersSpawned e = totalPassengers
  ∧ length (activePassengers e) = 0%nat.

(** No inventory count is negative. *)
Definition nonNegative (e : t) : Prop := ∀ k, (0 ≤ getCount k e)%Z.

(** [noPowerGained ps ps']: every passenger of [ps'] was already in [ps],
    at the same index, and holds the power it held there or none. *)
Definition noPowerGained (ps ps' : list Passenger.t) : Prop :=
  ∀ j q', ps' !! j = Some q' →
    ∃ q, ps !! j = Some q
         ∧ (Passenger.superPower q' = Passenger.superPower q
            ∨ Passenger.superPower q' = None).

(** What a click while PLAYING does with respect to a power [k]: the
    bridges stay, the game state and the spawn count stay, no inventory
    count goes below 0,
    and, when the inventory of [k] is empty, [k] is not newly selected, no
    passenger newly holds [k], the count of [k] stays, and with [k]
    selected no passenger gains a power and no count changes. *)
Record clickOutcome (k : SuperPower) (e e' : t) : Prop := mkClickOutcome {
  co_bridges : bridges e `prefix_of` bridges e';
  co_gameState : gameState e' = gameState e;
  co_passengersSpawned : passengersSpawned e' = passengersSpawned e;
  co_nonneg : (∀ k', 0 ≤ getCount k' e)%Z → (∀ k', 0 ≤ getCount k' e')%Z;
  co_selected : (getCount k e ≤ 0)%Z →
    selectedPower e' = Some k → selectedPower e = Some k;
  co_holder : (getCount k e ≤ 0)%Z →
    ∀ j q', passengers e' !! j = Some q' → Passenger.superPower q' = Some k →
      ∃ q, passengers e !! j = Some q ∧ Passenger.superPower q = Some k;
  co_count : (getCount k e ≤ 0)%Z → getCount k e' = getCount k e;
  co_nothing : (getCount k e ≤ 0)%Z → selectedPower e = Some k →
    powerCounts e' = powerCounts e
    ∧ noPowerGained (passengers e) (passengers e') }.

End EngineVocabulary.

(** ** Runs of the engine *)

(** The calls that the shell makes during a level, each with the value of
    [Date.now()] at the call: a frame ([update]) or the pause key
    ([pause], which does not read the clock itself). *)
Inductive Call :=
  | CallUpdate (now_ms : Z) (deltaTime rand : Q)
  | CallPause (now_ms : Z).

Definition call (e : GameEngine.t) (c : Call) : GameEngine.t :=
  match c with
  | CallUpdate now_ms deltaTime rand => GameEngine.update now_ms deltaTime rand e
  | CallPause _ => GameEngine.pause e
  end.

Definition run (calls : list Call) (e : GameEngine.t) : GameEngine.t :=
  fold_left call calls e.

(** Everything the shell can do to the engine: a frame or the pause key
    ([Call]), or a click. *)
Inductive Input :=
  | InputCall (c : Call)
  | InputClick (x y : Q) (now_ms : Z) (config : LevelConfig.t).

Definition input (e : GameEngine.t) (i : Input) : GameEngine.t :=
  match i with
  | InputCall c => call e c
  | InputClick x y now_ms config => GameEngine.handleClick x y now_ms config e
  end.

Definition runInputs (inputs : list Input) (e : GameEngine.t) : GameEngine.t :=
  fold_left input inputs e.

(** [startsLevel e i]: the input is a click taken in the menu or on the
    level-complete screen, the two states in which [handleClick] calls
    [startLevel]. *)
Definition startsLevel (e : GameEngine.t) (i : Input) : bool :=
  match i with
  | InputCall _ => false
  | InputClick _ _ _ _ =>
      match GameEngine.gameState e with
      | MENU | LEVEL_COMPLETE => true
      | _ => false
      end
  end.

(** [sameAttempt inputs e]: no input of the run from [e] starts a level,
    so the run stays within the level attempt in which it begins. *)
Fixpoint sameAttempt (inputs : list Input) (e : GameEngine.t) : bool :=
  match inputs with
  | [] => true
  | i :: rest => negb (startsLevel e i) && sameAttempt rest (input e i)
  end.

(** ** The pause-aware clock of the specification *)

(** The pause-aware clock that the specification describes, kept next to
    the engine: the time at which the current pause began and the total of
    the pauses that have ended, in milliseconds.  The engine has no such
    fields. *)
Record PauseClock := mkPauseClock {
  pausedSince : option Z;
  pausedTotal : Z }.

Definition clockCall (e : GameEngine.t) (k : PauseClock) (c : Call) : PauseClock :=
  match c with
  | CallUpdate _ _ _ => k
  | CallPause now_ms =>
      match GameEngine.gameState e, pausedSince k with
      | PLAYING, _ => mkPauseClock (Some now_ms) (pausedTotal k)
      | PAUSED, Some since => mkPauseClock None (pausedTotal k + (now_ms - since))
      | _, _ => k
      end
  end.

Definition runClocked (calls : list Call) (st : GameEngine.t * PauseClock)
    : GameEngine.t * PauseClock :=
  fold_left (fun st c => (call (fst st) c, clockCall (fst st) (snd st) c)) calls st.

(** Elapsed time since the level started, without the pauses. *)
Definition pauseAdjustedElapsed (now_ms : Z) (e : GameEngine.t) (k : PauseClock) : Q :=
  GameEngine.elapsed now_ms e - inject_Z (pausedTotal k) / 1000.

(** * Example states

    The layout [demoLevel] has the shape of those that
    [generateLevelConfig] draws on the 1200 x 700 canvas of index.ts: the
    spawn platform, a path platform, a scattered platform, a vertical
    wall, a gap, a door, a security checkpoint and a guard. *)

Definition demoLevel : LevelConfig.t :=
  {| LevelConfig.levelNumber := 1;
     LevelConfig.obstacles :=
       [ ConfigObstacle.mk wall (Vector2.mk 0 50) 150 20 "spawn_platform";
         ConfigObstacle.mk wall (Vector2.mk 200 50) 120 20 "path_platform_1";
         ConfigObstacle.mk wall (Vector2.mk 1040 485) 100 20 "platform_0";
         ConfigObstacle.mk wall (Vector2.mk 400 300) 20 100 "wall_0";
         ConfigObstacle.mk gap (Vector2.mk 300 530) 80 20 "gap_0";
         ConfigObstacle.mk door (Vector2.mk 350 200) 20 60 "special_0";
         ConfigObstacle.mk security (Vector2.mk 600 200) 20 60 "special_1";
         ConfigObstacle.mk securityGuard (Vector2.mk 220 0) 20 50 "guard_0" ];
     LevelConfig.spawnPoint := Vector2.mk 50 18;
     LevelConfig.checkInGate := Vector2.mk 1050 530;
     LevelConfig.difficulty := 1 |}.

(** Level 1, just started at [Date.now() = 0]. *)
Definition demoEngine : GameEngine.t :=
  GameEngine.startLevel 1 0 demoLevel (GameEngine.new 1200 700).

(** A passenger that stands inside the gate rectangle; it is asked, then
    stepped by a frame and reversed by the engine, then asked twice more. *)
Definition passengerAtGate : Passenger.t :=
  Passenger.set_position (Vector2.mk 1060 528)
    (Passenger.new (Vector2.mk 50 18) None "passenger_0").

Definition askedThrice : list PassengerCall :=
  [ CheckReachedGate (Vector2.mk 1050 530) 100;
    Update (1 # 60) [] [] (Some (Vector2.mk 1050 530));
    ReverseDirection;
    CheckReachedGate (Vector2.mk 1050 530) 100;
    CheckReachedGate (Vector2.mk 1050 530) 100 ].

(** A passenger whose cooldown has run down to 1/32 s, and a frame of
    3/32 s (below the 0.1 s at which the game loop caps a frame). *)
Definition coolingPassenger : Passenger.t :=
  Passenger.set_powerCooldown (1 # 32)
    (Passenger.set_isUsingPower true
       (Passenger.new (Vector2.mk 50 18) (Some doorBreaker) "passenger_0")).

(** [n] frames of a passenger with no platform, no wall and no target. *)
Fixpoint ticks (n : nat) (dt : Q) (p : Passenger.t) : Passenger.t :=
  match n with
  | O => p
  | S n' => ticks n' dt (Passenger.update dt [] [] None p)
  end.

(** The level is started at 0 s, paused at 10 s and resumed at 400 s. *)
Definition longPause : list Call := [CallPause 10000; CallPause 400000].

(** The engine and the pause-aware clock after that pause. *)
Definition afterLongPause : GameEngine.t * PauseClock :=
  runClocked longPause (demoEngine, mkPauseClock None 0).

(** A frame, the same pause with a click and a frame in it, and after
    the pause a click in the UI panel and a click on the playfield. *)
Definition pauseAndClicks : list Input :=
  [ InputCall (CallUpdate 5000 (1 # 8) (1 # 2));
    InputCall (CallPause 10000);
    InputClick 300 100 200000 demoLevel;
    InputCall (CallUpdate 399000 (1 # 8) (1 # 2));
    InputCall (CallPause 400000);
    InputClick 20 630 400500 demoLevel;
    InputClick 300 100 400900 demoLevel ].

(** A wall smasher ready to use its power, in contact with the vertical
    wall [wall_0] of [demoLevel]. *)
Definition wallSmasher : Passenger.t :=
  Passenger.set_position (Vector2.mk 385 320)
    (Passenger.new (Vector2.mk 50 18) (Some doorBreaker) "passenger_0").

Definition wall_0 : Obstacle.t := Obstacle.mk wall 400 300 20 100 "wall_0".

(** [demoEngine] with that passenger as its only passenger. *)
Definition smasherEngine : GameEngine.t :=
  GameEngine.set_passengersSpawned 1
    (GameEngine.set_passengers [wallSmasher] demoEngine).

(** A passenger that fell into the gate rectangle through the scattered
    platform [platform_0] of [demoLevel], was reversed by the contact with
    it and was stopped there by [checkReachedGate]. *)
Definition reachedPassenger : Passenger.t :=
  Passenger.set_isActive false
    (Passenger.set_hasReachedGate true
       (Passenger.set_direction (-1)
          (Passenger.set_isFalling true
             (Passenger.set_velocity (Vector2.mk 50 350)
                (Passenger.set_position (Vector2.mk 1065 503)
                   (Passenger.new (Vector2.mk 50 18) None "passenger_0")))))).

Definition gateEngine : GameEngine.t :=
  GameEngine.set_passengersSpawned 1
    (GameEngine.set_passengers [reachedPassenger] demoEngine).

(** That state arises in play: it is the state one frame of 0.1 s after
    the passenger was falling at 300 px/s just above the platform. *)
Definition fallingPassenger : Passenger.t :=
  Passenger.set_isFalling true
    (Passenger.set_velocity (Vector2.mk 50 300)
       (Passenger.set_position (Vector2.mk 1060 468)
          (Passenger.new (Vector2.mk 50 18) None "passenger_0"))).

Definition fallingEngine : GameEngine.t :=
  GameEngine.set_passengersSpawned 1
    (GameEngine.set_passengers [fallingPassenger] demoEngine).

Definition arrived : Passenger.t :=
  default fallingPassenger
    (GameEngine.passengers (GameEngine.update 900 (1 # 10) (1 # 2) fallingEngine)
       !! 0%nat).

(** A level with a bridge already built further right and a bridge
    builder that steps onto [gap_0] in the next frame. *)
Definition oldBridge : Bridge.t := Bridge.mk 700 540 60.

Definition bridgeBuilder : Passenger.t :=
  Passenger.set_position (Vector2.mk 290 510)
    (Passenger.new (Vector2.mk 50 18) (Some bridge) "passenger_0").

Definition bridgeEngine : GameEngine.t :=
  GameEngine.set_bridges [oldBridge]
    (GameEngine.set_passengersSpawned 1
       (GameEngine.set_passengers [bridgeBuilder] demoEngine)).

(** A run that empties the inventory of the security briber: the click
    that leaves the menu, then six times five frames of 0.1 s (after which
    a passenger without power is spawned), a click on the third icon of
    the UI panel and a click next to the new passenger; then five more
    frames, which spawn a seventh passenger without power. *)
Definition aFrame : Input := InputCall (CallUpdate 1000 (1 # 10) (1 # 2)).

Definition fiveFrames : list Input := [aFrame; aFrame; aFrame; aFrame; aFrame].

Definition spendBribe : list Input :=
  fiveFrames ++ [InputClick 100 630 1000 demoLevel; InputClick 40 18 1000 demoLevel].

Definition spendAllBribes : list Input :=
  InputClick 0 0 0 demoLevel
  :: spendBribe ++ spendBribe ++ spendBribe ++ spendBribe ++ spendBribe
     ++ spendBribe ++ fiveFrames.

Definition emptyHanded : GameEngine.t :=
  runInputs spendAllBribes (GameEngine.new 1200 700).

(** A level whose gate stands at the spawn point, so that a passenger
    reaches the gate in the frame in which it is spawned.  The game is
    played from the menu in frames of 1/8 s, the [k]-th at 125 k ms: a
    passenger is spawned every fourth frame, the hundredth in frame 400. *)
Definition arrivalLevel : LevelConfig.t :=
  {| LevelConfig.levelNumber := 1;
     LevelConfig.obstacles :=
       [ ConfigObstacle.mk wall (Vector2.mk 0 50) 150 20 "spawn_platform" ];
     LevelConfig.spawnPoint := Vector2.mk 50 18;
     LevelConfig.checkInGate := Vector2.mk 40 0;
     LevelConfig.difficulty := 1 |}.

Definition frameAt (k : nat) : Input :=
  InputCall (CallUpdate (125 * Z.of_nat k) (1 # 8) (1 # 2)).

(** The game after the click that leaves the menu and 399 frames. *)
Definition lastArrival : GameEngine.t :=
  runInputs (InputClick 0 0 0 arrivalLevel :: map frameAt (seq 1 399))
    (GameEngine.new 1200 700).

(** ** Walls and the ids of the level *)



(** ** Two overlapping boxes *)

(** A passenger-sized box whose right edge is four pixels into a crate. *)
Definition entityBox : BoundingBox.t := BoundingBox.mk 0 0 24 32.

Definition crateBox : BoundingBox.t := BoundingBox.mk 20 10 50 50.

(** The same crate as an obstacle of a level. *)
Definition crate : Obstacle.t := Obstacle.mk wall 20 10 50 50 "crate".

(** ** Whole pixels *)

(** [wholePixel q]: [q] is a whole number of magnitude at most 2^50.  On
    such numbers the additions and subtractions that the collision
    functions make (of at most four of them) are exact in the double
    precision arithmetic of the source: every intermediate result is a
    whole number of magnitude at most 2^52. *)
Definition wholePixel (q : Q) : bool :=
  Pos.eqb (Qden (Qred q)) 1 && Z.leb (Z.abs (Qnum (Qred q))) (2 ^ 50).

Definition onPixels (b : BoundingBox.t) : bool :=
  wholePixel (BoundingBox.x b) && wholePixel (BoundingBox.y b)
  && wholePixel (BoundingBox.width b) && wholePixel (BoundingBox.height b).

(** ** The stages of [Passenger.update]

    The body of [update], cut at the comments of the source: steering and
    gravity, the horizontal move, the vertical move with the falling
    state, the cooldown. *)

Module UpdateStages.
Import Passenger.

(** Gravity, the direction chosen from the target and [velocity.x]. *)
Definition accelerate (deltaTime : Q) (target : option Vector2.t) (p : t) : t :=
  let vy := Vector2.y (velocity p) + 500 * deltaTime in
  let speed : Q := 50 in
  let dir :=
    match target with
    | Some tgt =>
        let dx := Vector2.x tgt - Vector2.x (position p) in
        if Qgtb (Qabs dx) 10
        then (if Qgtb dx 0 then 1%Z else (-1)%Z)
        else direction p
    | None => direction p
    end in
  set_velocity (Vector2.mk (inject_Z dir * speed) vy) (set_direction dir p).

(** Move horizontally first, check wall collisions. *)
Definition moveX (deltaTime : Q) (walls : list BoundingBox.t) (p1 : t) : t :=
  let speed : Q := 50 in
  let deltaX := Vector2.x (velocity p1) * deltaTime in
  let newX0 := Vector2.x (position p1) + deltaX in
  let testBoundsX :=
    BoundingBox.mk newX0 (Vector2.y (position p1)) width height in
  let '(p2, newX) :=
    if negb (bool_decide (superPower p1 = Some doorBreaker))
    then hitWallX speed testBoundsX walls p1 newX0
    else (p1, newX0) in
  set_position (Vector2.mk newX (Vector2.y (position p2))) p2.

(** Move vertically (gravity), then update the falling state. *)
Definition moveY (deltaTime : Q) (platforms walls : list BoundingBox.t)
    (p3 : t) : t :=
  let deltaY := Vector2.y (velocity p3) * deltaTime in
  let newY0 := Vector2.y (position p3) + deltaY in
  let feetY := Vector2.y (position p3) + height in
  let testBoundsY :=
    BoundingBox.mk (Vector2.x (position p3)) newY0 width height in
  let v0 := mkVertical newY0 (Vector2.y (velocity p3)) (isFalling p3) false in
  let v1 := platformLoop (Vector2.x (position p3)) feetY testBoundsY platforms v0 in
  let v2 := wallLoopY testBoundsY walls v1 in
  let p4 :=
    set_isFalling (falling v2)
      (set_velocity (Vector2.mk (Vector2.x (velocity p3)) (velocityY v2))
         (set_position (Vector2.mk (Vector2.x (position p3)) (newY v2)) p3)) in
  if negb (onPlatform v2) && Qgtb (Vector2.y (velocity p4)) 0
  then set_isFalling true p4 else p4.

(** Update power cooldown. *)
Definition coolDown (deltaTime : Q) (p5 : t) : t :=
  if Qgtb (powerCooldown p5) 0
  then set_powerCooldown (powerCooldown p5 - deltaTime) p5
  else p5.

End UpdateStages.

(** A passenger that comes down at 100 px/s, its feet one pixel above
    the top of a platform at y = 100. *)
Definition ledge : BoundingBox.t := BoundingBox.mk 200 100 120 20.

Definition lander : Passenger.t :=
  Passenger.set_isFalling true
    (Passenger.set_velocity (Vector2.mk 50 100)
       (Passenger.set_position (Vector2.mk 250 67)
          (Passenger.new (Vector2.mk 50 18) None "passenger_0"))).

(** ** What happens to a passenger over time *)

(** The passenger after a sequence of calls. *)
Definition afterCalls (calls : list PassengerCall) (p : Passenger.t) : Passenger.t :=
  fold_left (fun q c => snd (passengerCall c q)) calls p.

(** The number of calls of [activateSuperPower], in a sequence of calls
    with their results, that returned true. *)
Definition activated (r : Returned * Passenger.t) : bool :=
  match fst r with
  | RetPower true => true
  | _ => false
  end.

Definition activations (rs : list (Returned * Passenger.t)) : nat :=
  length (List.filter activated rs).

(** [evolves p p']: [p'] is [p] after some calls, none of which is
    [stopUsingPower]. *)
Definition evolves (p p' : Passenger.t) : Prop :=
  ∃ calls, (StopUsingPower ∉ calls) ∧ afterCalls calls p = p'.

(** A wall smasher that activates its power, waits three seconds and
    tries again. *)
Definition smashTwice : list PassengerCall :=
  [ ActivateSuperPower; Update 3 [] [] None; ActivateSuperPower ].

(** [numbered e]: the passenger list is as long as the spawn count says,
    and the passenger at index [j] has the id [passenger_j] and a
    direction of 1 or -1. *)
Definition numbered (e : GameEngine.t) : Prop :=
  Z.of_nat (length (GameEngine.passengers e)) = GameEngine.passengersSpawned e
  ∧ ∀ j q, GameEngine.passengers e !! j = Some q →
      Passenger.id q = "passenger_" +:+ pretty (Z.of_nat j)
      ∧ (Passenger.direction q = 1 ∨ Passenger.direction q = -1)%Z.

(** [demoEngine] with a passenger whose power is in use as its only
    passenger. *)
Definition coolingEngine : GameEngine.t :=
  GameEngine.set_passengersSpawned 1
    (GameEngine.set_passengers [coolingPassenger] demoEngine).

(** That passenger one frame of 3/32 s later. *)
Definition cooled : Passenger.t :=
  default coolingPassenger
    (GameEngine.passengers
       (input coolingEngine (InputCall (CallUpdate 1000 (3 # 32) (1 # 2))))
     !! 0%nat).

(** A passenger without power that stands in the door [special_0] of
    [demoLevel]. *)
Definition doorKnocker : Passenger.t :=
  Passenger.set_position (Vector2.mk 340 210)
    (Passenger.new (Vector2.mk 50 18) None "passenger_0").

(** [levelInvariant e]: the level is one of the ten, the end states agree
    with it, and outside the menu a level is loaded. *)
Definition levelInvariant (e : GameEngine.t) : Prop :=
  (1 ≤ GameEngine.currentLevel e ≤ 10)%Z
  ∧ (GameEngine.gameState e = VICTORY → GameEngine.currentLevel e = 10%Z)
  ∧ (GameEngine.gameState e = LEVEL_COMPLETE → (GameEngine.currentLevel e < 10)%Z)
  ∧ (GameEngine.gameState e ≠ MENU → is_Some (GameEngine.levelConfig e)).

(** [isPauseKey i]: the input is the pause key. *)
Definition isPauseKey (i : Input) : bool :=
  match i with
  | InputCall (CallPause _) => true
  | _ => false
  end.

(** While the game is paused: a frame, a click on a passenger, a click in
    the UI panel and another frame. *)
Definition whilePaused : list Input :=
  [ aFrame; InputClick 390 325 5000 demoLevel; InputClick 100 630 6000 demoLevel;
    InputCall (CallUpdate 400000 (1 # 10) (1 # 2)) ].

(** The gap [gap_0] of [demoLevel], as the engine stores it. *)
Definition gap_0 : Obstacle.t := Obstacle.mk gap 300 530 80 20 "gap_0".

(** ** Streams of draws *)

(** The draws 0, 0.1, ..., 0.9, 0, 0.1, ... *)
Definition saw : nat → Q := fun n => inject_Z (Z.of_nat (n mod 10)) / 10.

(** The layout of level 1 on the 1200 x 700 canvas that the draws of
    [saw] give. *)
Definition sawLevel : option LevelConfig.t :=
  fst (LevelGenerator.generateLevelConfig 7 1 (GameEngine.new 1200 700) saw 0%nat).

Definition sawConfig : LevelConfig.t := default demoLevel sawLevel.


(** The spawn platform of a generated level, as the engine stores it,
    and a wall smasher that is ready to use its power. *)
Definition spawn_platform : Obstacle.t :=
  Obstacle.mk wall 0 50 150 20 "spawn_platform".

Definition readySmasher : Passenger.t :=
  Passenger.new (Vector2.mk 50 18) (Some doorBreaker) "passenger_0".

(** [demoEngine] with a passenger without power near (40, 18) and the
    security briber selected. *)
Definition idlePassenger : Passenger.t :=
  Passenger.new (Vector2.mk 50 18) None "passenger_0".

Definition briberSelected : GameEngine.t :=
  GameEngine.set_selectedPower (Some securityBriber)
    (GameEngine.set_passengersSpawned 1
       (GameEngine.set_passengers [idlePassenger] demoEngine)).

(** [lifecycle p]: the passenger is active exactly as long as it has not
    reached the gate. *)
Definition lifecycle (p : Passenger.t) : Prop :=
  Passenger.isActive p = negb (Passenger.hasReachedGate p).

(** [coloured p]: the color of the passenger is the one of its power. *)
Definition coloured (p : Passenger.t) : Prop :=
  Passenger.color p = Passenger.getColorForPower (Passenger.superPower p).

(** * Properties *)

(** ** The boolean comparisons decide the order of [Q] *)

Lemma Qleb_le (a b : Q) : Qleb a b = true ↔ a <= b.
Proof. apply Qle_bool_iff. Qed.

Lemma Qltb_lt (a b : Q) : Qltb a b = true ↔ a < b.
Proof.
  unfold Qltb. rewrite negb_true_iff, <- not_true_iff_false, Qle_bool_iff.
  split; [apply Qnot_le_lt | apply Qlt_not_le].
Qed.

Lemma Qgtb_gt (a b : Q) : Qgtb a b = true ↔ b < a.
Proof. apply Qltb_lt. Qed.

Lemma Qgeb_ge (a b : Q) : Qgeb a b = true ↔ b <= a.
Proof. apply Qleb_le. Qed.

Lemma Qgtb_false (a b : Q) : Qgtb a b = false ↔ a <= b.
Proof.
  rewrite <- not_true_iff_false, Qgtb_gt.
  split; [apply Qnot_lt_le | apply Qle_not_lt].
Qed.

Lemma Qeqb_refl (a : Q) : Qeqb a a = true.
Proof. apply Qeq_bool_iff. reflexivity. Qed.

(** ** Passenger *)

Section PassengerFacts.
Import Passenger.

Lemma activateSuperPower_true (p : t) :
  canActivate p →
  activateSuperPower p = (true, set_powerCooldown 2 (set_isUsingPower true p)).
Proof.
  intros (Hs & Hc & Hu). unfold activateSuperPower.
  rewrite bool_decide_eq_true_2 by exact Hs.
  rewrite (proj2 (Qgtb_false _ _) Hc), Hu. reflexivity.
Qed.

Lemma activateSuperPower_false (p : t) :
  ¬ canActivate p → activateSuperPower p = (false, p).
Proof.
  intros Hn. unfold activateSuperPower.
  destruct (bool_decide (is_Some (superPower p))) eqn:Hs; [|reflexivity].
  destruct (Qgtb (powerCooldown p) 0) eqn:Hc; [reflexivity|].
  destruct (isUsingPower p) eqn:Hu; [reflexivity|].
  exfalso. apply Hn. repeat split.
  - by apply bool_decide_eq_true in Hs.
  - by apply Qgtb_false.
  - done.
Qed.

Lemma activateSuperPower_ok_inv (p p' : t) :
  activateSuperPower p = (true, p') →
  canActivate p ∧ p' = set_powerCooldown 2 (set_isUsingPower true p).
Proof.
  intros H. destruct (decide (is_Some (superPower p))) as [Hs|Hs].
  - destruct (Qlt_le_dec 0 (powerCooldown p)) as [Hc|Hc].
    + rewrite activateSuperPower_false in H; [congruence|].
      intros (_ & Hc' & _). by apply (Qlt_not_le _ _ Hc).
    + destruct (isUsingPower p) eqn:Hu.
      * rewrite activateSuperPower_false in H; [congruence|].
        intros (_ & _ & Hu'). congruence.
      * assert (Hcan : canActivate p) by done.
        rewrite (activateSuperPower_true _ Hcan) in H. split; congruence.
  - rewrite activateSuperPower_false in H; [congruence|].
    intros (Hs' & _). done.
Qed.

Lemma activateSuperPower_fail_inv (p p' : t) :
  activateSuperPower p = (false, p') → p' = p.
Proof.
  unfold activateSuperPower.
  destruct (_ || _ || _); congruence.
Qed.

End PassengerFacts.

(** C5.  [activateSuperPower] returns [true], sets [isUsingPower] and
    starts the cooldown of 2 seconds exactly when the passenger holds a
    power, its cooldown is exhausted ([<= 0]) and it is not already using
    the power; in every other case it returns [false] and the passenger is
    left as it was. *)
Theorem activateSuperPower_contract (p : Passenger.t) :
  (fst (Passenger.activateSuperPower p) = true ↔ canActivate p)
  ∧ (fst (Passenger.activateSuperPower p) = true ∧
     snd (Passenger.activateSuperPower p)
       = Passenger.set_powerCooldown 2 (Passenger.set_isUsingPower true p) ∧
     Passenger.isUsingPower (snd (Passenger.activateSuperPower p)) = true ∧
     Passenger.powerCooldown (snd (Passenger.activateSuperPower p)) = 2
     ∨
     fst (Passenger.activateSuperPower p) = false ∧
     snd (Passenger.activateSuperPower p) = p).
Proof.
  destruct (Passenger.activateSuperPower p) as [[|] p'] eqn:H; simpl.
  - apply activateSuperPower_ok_inv in H as [Hcan ->].
    split; [tauto|]. left. done.
  - apply activateSuperPower_fail_inv in H as Heq. subst p'.
    split; [|right; done].
    split; [done|]. intros Hcan.
    rewrite (activateSuperPower_true _ Hcan) in H. congruence.
Qed.

(** *** The gate is reached once *)

Section GateFacts.
Import Passenger.

Lemma checkReachedGate_reached (gate : Vector2.t) (gateWidth : Q) (p : t) :
  hasReachedGate p = true → checkReachedGate gate gateWidth p = (false, p).
Proof. intros H. unfold checkReachedGate. by rewrite H. Qed.

Lemma checkReachedGate_true_inv (gate : Vector2.t) (gateWidth : Q) (p q : t) :
  checkReachedGate gate gateWidth p = (true, q) →
  hasReachedGate p = false ∧ q = set_isActive false (set_hasReachedGate true p).
Proof.
  unfold checkReachedGate. destruct (hasReachedGate p); [congruence|].
  destruct (_ && _ && _ && _); [|congruence].
  intros [= <-]. done.
Qed.

Lemma update_frozen (dt : Q) (platforms walls : list BoundingBox.t)
    (target : option Vector2.t) (p : t) :
  isActive p = false ∨ hasReachedGate p = true →
  update dt platforms walls target p = p.
Proof.
  intros [H|H]; unfold update; rewrite H; [done|].
  by rewrite orb_true_r.
Qed.

(** No call undoes the arrival, and no later [checkReachedGate] returns
    [true]. *)
Lemma passengerCall_arrived (c : PassengerCall) (p : t) :
  arrivedAtGate p →
  fst (passengerCall c p) ≠ RetGate true ∧ arrivedAtGate (snd (passengerCall c p)).
Proof.
  intros [Hr Ha]. destruct c; simpl; try done.
  - by rewrite checkReachedGate_reached.
  - by rewrite update_frozen by auto.
  - split; [done|]. unfold activateSuperPower.
    by destruct (_ || _ || _).
Qed.

Lemma passengerCalls_arrived (calls : list PassengerCall) (p : t) :
  arrivedAtGate p →
  ∀ j r, passengerCalls calls p !! j = Some r →
         fst r ≠ RetGate true ∧ arrivedAtGate (snd r).
Proof.
  revert p. induction calls as [|c rest IH]; intros p Hp j r; simpl.
  - by rewrite lookup_nil.
  - destruct (passengerCall_arrived c p Hp) as [Hret Harr].
    destruct j as [|j]; simpl.
    + by intros [= <-].
    + by apply IH.
Qed.

End GateFacts.

(** C4.  In any sequence of calls on a passenger, if call [i] is a
    [checkReachedGate] that returns [true], then after it the passenger
    has [hasReachedGate] set and is inactive, no earlier call was a
    [checkReachedGate] that returned [true], and after every later call,
    whatever it is and whatever gate rectangle it is given, the passenger
    still has [hasReachedGate] set and is inactive and the call was not a
    [checkReachedGate] that returned [true]. *)
Theorem checkReachedGate_at_most_once
    (calls : list PassengerCall) (p q : Passenger.t) (i : nat) :
  passengerCalls calls p !! i = Some (RetGate true, q) →
  Passenger.hasReachedGate q = true
  ∧ Passenger.isActive q = false
  ∧ (∀ j r, (j < i)%nat → passengerCalls calls p !! j = Some r →
            fst r ≠ RetGate true)
  ∧ (∀ j r, (i < j)%nat → passengerCalls calls p !! j = Some r →
            fst r ≠ RetGate true
            ∧ Passenger.hasReachedGate (snd r) = true
            ∧ Passenger.isActive (snd r) = false).
Proof.
  revert p i. induction calls as [|c rest IH]; intros p i; simpl.
  - by rewrite lookup_nil.
  - destruct i as [|i]; simpl.
    + intros [= Hcall].
      destruct c; cbn [passengerCall] in *; try discriminate Hcall.
      destruct (Passenger.checkReachedGate gatePosition gateWidth p)
        as [b p1] eqn:Hc. cbn [fst snd] in *. injection Hcall as -> ->.
      destruct (checkReachedGate_true_inv _ _ _ _ Hc) as [Hp ->].
      split_and!; [done|done|lia|].
      intros [|j] r Hj; [lia|]. simpl. intros Hr.
      by apply passengerCalls_arrived in Hr.
    + intros H. destruct (IH _ _ H) as (H1 & H2 & H3 & H4).
      split_and!; [done|done| |].
      * intros [|j] r Hj; simpl.
        -- intros [= <-] Htrue.
           (* an earlier [true] would have frozen the passenger *)
           destruct c; cbn [passengerCall fst snd] in *; try discriminate Htrue.
           injection Htrue as Htrue.
           destruct (Passenger.checkReachedGate gatePosition gateWidth p)
             as [b p1] eqn:Hc. cbn [fst snd] in *. subst b.
           destruct (checkReachedGate_true_inv _ _ _ _ Hc) as [_ ->].
           apply passengerCalls_arrived in H; [|done].
           by destruct H.
        -- apply H3. lia.
      * intros [|j] r Hj; [lia|]. simpl. apply H4. lia.
Qed.

(** [passengerAtGate] is asked a first time, which returns [true]; the
    fifth call, which asks again, does not. *)
Lemma checkReachedGate_at_most_once_witness :
  passengerCalls askedThrice passengerAtGate !! 0%nat
    = Some (RetGate true,
            Passenger.set_isActive false
              (Passenger.set_hasReachedGate true passengerAtGate))
  ∧ fst (default (RetVoid, passengerAtGate)
           (passengerCalls askedThrice passengerAtGate !! 4%nat))
    ≠ RetGate true.
Proof.
  assert (H : passengerCalls askedThrice passengerAtGate !! 0%nat
              = Some (RetGate true,
                      Passenger.set_isActive false
                        (Passenger.set_hasReachedGate true passengerAtGate)))
    by (vm_compute; reflexivity).
  split; [exact H|].
  destruct (checkReachedGate_at_most_once _ _ _ _ H) as (_ & _ & _ & Hlater).
  destruct (passengerCalls askedThrice passengerAtGate !! 4%nat) as [r|] eqn:Hr.
  - simpl. apply (Hlater 4%nat r); [lia|exact Hr].
  - discriminate.
Defined.

(** *** The cooldown over a tick *)

Section CooldownFacts.
Import Passenger.

Lemma hitWallX_powerCooldown (speed : Q) (box : BoundingBox.t)
    (walls : list BoundingBox.t) (p : t) (newX : Q) :
  powerCooldown (fst (hitWallX speed box walls p newX)) = powerCooldown p.
Proof.
  induction walls as [|w rest IH]; simpl; [done|].
  destruct (CollisionSystem.checkAABB _ _); [done|apply IH].
Qed.

(** What the last statement of [update] leaves in [powerCooldown]. *)
Lemma update_powerCooldown (dt : Q) (platforms walls : list BoundingBox.t)
    (target : option Vector2.t) (p : t) :
  isActive p = true → hasReachedGate p = false →
  powerCooldown (update dt platforms walls target p)
  = if Qgtb (powerCooldown p) 0 then powerCooldown p - dt else powerCooldown p.
Proof.
  intros Ha Hr. unfold update. rewrite Ha, Hr. simpl.
  match goal with
  | |- context [if negb ?b then hitWallX ?s ?bx ?ws ?q ?n else _] =>
      pose proof (hitWallX_powerCooldown s bx ws q n) as Hw;
      destruct (negb b); [destruct (hitWallX s bx ws q n) as [p2 newX]|]
  end; simpl in *.
  - destruct (negb _ && _); simpl; rewrite Hw;
      destruct (Qgtb (powerCooldown p) 0); simpl; by rewrite ?Hw.
  - destruct (negb _ && _); simpl;
      destruct (Qgtb (powerCooldown p) 0); done.
Qed.

End CooldownFacts.

(** C3, as the code has it.  A tick of an active passenger that has not
    reached the gate subtracts [dt] from a cooldown that is above 0 and
    leaves any other cooldown as it is; so the cooldown after the tick is
    [max(0, cooldown - dt)] when the cooldown was 0 or at least [dt], and
    it stays above [-dt] when it was not negative.  A tick of an inactive
    passenger, or of one that has reached the gate, does not touch the
    cooldown. *)
Theorem update_cooldown (dt : Q) (platforms walls : list BoundingBox.t)
    (target : option Vector2.t) (p : Passenger.t) :
  0 <= dt →
  let p' := Passenger.update dt platforms walls target p in
  (Passenger.isActive p = true ∧ Passenger.hasReachedGate p = false →
     (0 < Passenger.powerCooldown p →
        Passenger.powerCooldown p' = Passenger.powerCooldown p - dt)
     ∧ (Passenger.powerCooldown p <= 0 →
        Passenger.powerCooldown p' = Passenger.powerCooldown p)
     ∧ (Passenger.powerCooldown p == 0 ∨ dt <= Passenger.powerCooldown p →
        Passenger.powerCooldown p' == Qmax 0 (Passenger.powerCooldown p - dt))
     ∧ (0 <= Passenger.powerCooldown p → - dt < Passenger.powerCooldown p' ∨ dt == 0))
  ∧ (Passenger.isActive p = false ∨ Passenger.hasReachedGate p = true →
     p' = p).
Proof.
  intros Hdt p'. split.
  - intros [Ha Hr].
    assert (Hc := update_powerCooldown dt platforms walls target p Ha Hr).
    fold p' in Hc.
    destruct (Qgtb (Passenger.powerCooldown p) 0) eqn:Hg.
    + apply Qgtb_gt in Hg. repeat split.
      * done.
      * intros Hle. exfalso. by apply (Qlt_not_le _ _ Hg).
      * intros [H0|Hge].
        -- rewrite H0 in Hg. by apply Qlt_irrefl in Hg.
        -- rewrite Hc. rewrite Q.max_r; [reflexivity|]. lra.
      * intros _. rewrite Hc.
        destruct (Qeq_dec dt 0) as [Hz|Hz]; [by right|left]. lra.
    + apply Qgtb_false in Hg. repeat split.
      * intros Hlt. exfalso. by apply (Qlt_not_le _ _ Hlt).
      * done.
      * intros [H0|Hge].
        -- rewrite Hc, H0. rewrite Q.max_l; [reflexivity|]. lra.
        -- rewrite Hc. assert (dt == 0) as Hd0 by lra.
           assert (Passenger.powerCooldown p == 0) as Hp0 by lra.
           rewrite Hp0, Hd0. reflexivity.
      * intros Hge. rewrite Hc.
        destruct (Qeq_dec dt 0) as [Hz|Hz]; [by right|left]. lra.
  - apply update_frozen.
Qed.

(** The tick of [coolingPassenger] by 3/32 s takes the cooldown from 1/32
    to 1/32 - 3/32. *)
Lemma update_cooldown_witness :
  0 <= 3 # 32
  ∧ Passenger.powerCooldown (Passenger.update (3 # 32) [] [] None coolingPassenger)
    = (1 # 32) - (3 # 32).
Proof.
  assert (Hdt : 0 <= 3 # 32) by (vm_compute; discriminate).
  split; [exact Hdt|].
  destruct (update_cooldown (3 # 32) [] [] None coolingPassenger Hdt)
    as [Hactive _].
  destruct (Hactive (conj eq_refl eq_refl)) as [Hdec _].
  apply Hdec. reflexivity.
Defined.

(** C3, as the specification states it, fails on that tick: the cooldown
    after the tick is below 0, not [max(0, cooldown - dt)] = 0. *)
Lemma cooldown_floor_counterexample :
  0 <= 3 # 32
  ∧ Passenger.powerCooldown (Passenger.update (3 # 32) [] [] None coolingPassenger) < 0
  ∧ ¬ (Passenger.powerCooldown (Passenger.update (3 # 32) [] [] None coolingPassenger)
       == Qmax 0 (Passenger.powerCooldown coolingPassenger - (3 # 32))).
Proof.
  split; [vm_compute; discriminate|].
  split; [reflexivity|].
  vm_compute. discriminate.
Qed.

(** The cooldown of [coolingPassenger] is the one that a passenger has 21
    frames of 3/32 s after a successful activation. *)
Lemma cooldown_after_21_frames :
  Passenger.powerCooldown
    (ticks 21 (3 # 32)
       (snd (Passenger.activateSuperPower
               (Passenger.new (Vector2.mk 50 18) (Some doorBreaker) "passenger_0"))))
  == Passenger.powerCooldown coolingPassenger.
Proof. vm_compute. reflexivity. Qed.

(** ** GameEngine: what a tick and a click leave alone *)

(** Closes a frame goal ([keepsControl], below) between an engine and a
    chain of field assignments on it. *)
Ltac frame :=
  constructor; simpl; rewrite ?length_insert;
  first [ done | by apply prefix_app_r | by eexists ].

(** Splits the branches of [handleObstacleInteraction]. *)
Ltac interaction_cases :=
  repeat match goal with
         | |- context [bool_decide ?P] => destruct (bool_decide P)
         | |- context [Passenger.activateSuperPower ?p] =>
             destruct (Passenger.activateSuperPower p) as [[|] ?]
         | |- context [GameEngine.hasBridge ?o ?e] =>
             destruct (GameEngine.hasBridge o e)
         end.

Section EngineFrame.
Import GameEngine.

Lemma keepsControl_refl (e : t) : keepsControl e e.
Proof. by constructor. Qed.

Lemma keepsControl_trans (e1 e2 e3 : t) :
  keepsControl e1 e2 → keepsControl e2 e3 → keepsControl e1 e3.
Proof.
  intros [] []. constructor; try congruence.
  by etrans.
Qed.

Lemma handleObstacleInteraction_keeps (e : t) (p : Passenger.t) (o : Obstacle.t) :
  keepsControl e (fst (handleObstacleInteraction e p o)).
Proof.
  unfold handleObstacleInteraction.
  destruct (Obstacle.type o);
    interaction_cases;
    simpl; frame.
Qed.

(** The passengers of the engine are not touched by an interaction: it
    works on the passenger it is given. *)
Lemma handleObstacleInteraction_passengers (e : t) (p : Passenger.t) (o : Obstacle.t) :
  passengers (fst (handleObstacleInteraction e p o)) = passengers e
  ∧ selectedPassenger (fst (handleObstacleInteraction e p o)) = selectedPassenger e.
Proof.
  unfold handleObstacleInteraction.
  destruct (Obstacle.type o);
    interaction_cases;
    done.
Qed.

Lemma collideWith_keeps (box : BoundingBox.t) (e : t) (p : Passenger.t)
    (o : Obstacle.t) :
  keepsControl e (fst (collideWith box (e, p) o)).
Proof.
  unfold collideWith.
  destruct (Obstacle.type o);
    repeat (match goal with |- context [if ?b then _ else _] => destruct b end);
    first [ apply handleObstacleInteraction_keeps | apply keepsControl_refl ].
Qed.

Lemma collideWith_passengers (box : BoundingBox.t) (e : t) (p : Passenger.t)
    (o : Obstacle.t) :
  passengers (fst (collideWith box (e, p) o)) = passengers e
  ∧ selectedPassenger (fst (collideWith box (e, p) o)) = selectedPassenger e.
Proof.
  unfold collideWith.
  destruct (Obstacle.type o);
    repeat (match goal with |- context [if ?b then _ else _] => destruct b end);
    first [ apply handleObstacleInteraction_passengers | done ].
Qed.

Lemma fold_collideWith_keeps (box : BoundingBox.t) (obs : list Obstacle.t)
    (e : t) (p : Passenger.t) :
  keepsControl e (fst (fold_left (collideWith box) obs (e, p)))
  ∧ passengers (fst (fold_left (collideWith box) obs (e, p))) = passengers e
  ∧ selectedPassenger (fst (fold_left (collideWith box) obs (e, p)))
    = selectedPassenger e.
Proof.
  revert e p. induction obs as [|o rest IH]; intros e p; cbn [fold_left].
  - split; [apply keepsControl_refl|done].
  - pose proof (collideWith_keeps box e p o) as Hk.
    pose proof (collideWith_passengers box e p o) as [Hp Hs].
    destruct (collideWith box (e, p) o) as [e1 p1]. simpl in *.
    destruct (IH e1 p1) as (Hk' & Hp' & Hs').
    split; [exact (keepsControl_trans _ _ _ Hk Hk')|]. split; congruence.
Qed.

Lemma handleObstacleCollisions_keeps (e : t) (p : Passenger.t) :
  keepsControl e (fst (handleObstacleCollisions e p))
  ∧ passengers (fst (handleObstacleCollisions e p)) = passengers e
  ∧ selectedPassenger (fst (handleObstacleCollisions e p)) = selectedPassenger e.
Proof. unfold handleObstacleCollisions. apply fold_collideWith_keeps. Qed.

Lemma stepPassenger_keeps (dt : Q) (e : t) (i : nat) :
  keepsControl e (stepPassenger dt e i).
Proof.
  unfold stepPassenger. destruct (passengers e !! i) as [p|];
    [|apply keepsControl_refl].
  destruct (handleObstacleCollisions_keeps e
              (Passenger.update dt (platforms e) (walls e) (Some (checkInGate e)) p))
    as (Hk & Hp & _).
  destruct (handleObstacleCollisions e _) as [e1 p2]. cbn [fst snd] in *.
  destruct (Passenger.checkReachedGate _ _ p2) as [r p3].
  eapply keepsControl_trans; [exact Hk|]. frame.
Qed.

Lemma fold_stepPassenger_keeps (dt : Q) (indices : list nat) (e : t) :
  keepsControl e (fold_left (stepPassenger dt) indices e).
Proof.
  revert e. induction indices as [|i rest IH]; intros e; cbn [fold_left].
  - apply keepsControl_refl.
  - eapply keepsControl_trans; [apply stepPassenger_keeps|apply IH].
Qed.

Lemma forEachPassenger_keeps (dt : Q) (e : t) :
  keepsControl e (forEachPassenger dt e).
Proof. unfold forEachPassenger. apply fold_stepPassenger_keeps. Qed.

Lemma buildPlatformsAndWalls_keeps (e : t) :
  keepsControl e (buildPlatformsAndWalls e).
Proof. unfold buildPlatformsAndWalls. frame. Qed.

Lemma keepsControl_keepsLevel (e e' : t) : keepsControl e e' → keepsLevel e e'.
Proof. intros []. by constructor. Qed.

Lemma keepsLevel_trans (e1 e2 e3 : t) :
  keepsLevel e1 e2 → keepsLevel e2 e3 → keepsLevel e1 e3.
Proof.
  intros [] []. constructor; try congruence.
  by etrans.
Qed.

Lemma spawnPassenger_keeps (rand : Q) (e : t) : keepsLevel e (spawnPassenger rand e).
Proof. unfold spawnPassenger. destruct (levelConfig e); by constructor. Qed.

Lemma spawnStep_keeps (dt rand : Q) (e : t) : keepsLevel e (spawnStep dt rand e).
Proof.
  unfold spawnStep. case_bool_decide; [|by constructor].
  destruct (Qgeb _ _); [|by constructor].
  pose proof (spawnPassenger_keeps rand (set_spawnTimer (spawnTimer e + dt) e)) as [].
  by constructor.
Qed.

(** The spawn count only grows, one at a time, and never past the cap. *)
Lemma spawnStep_passengersSpawned (dt rand : Q) (e : t) :
  (passengersSpawned e ≤ totalPassengers →
   passengersSpawned (spawnStep dt rand e) ≤ totalPassengers)%Z
  ∧ (passengersSpawned e ≤ passengersSpawned (spawnStep dt rand e))%Z.
Proof.
  unfold spawnStep, spawnPassenger, totalPassengers.
  case_bool_decide; [|lia].
  destruct (Qgeb _ _); simpl; [|lia].
  destruct (levelConfig e); simpl; lia.
Qed.

Lemma simulate_keeps (dt rand : Q) (e : t) : keepsLevel e (simulate dt rand e).
Proof.
  unfold simulate.
  eapply keepsLevel_trans; [apply spawnStep_keeps|].
  apply keepsControl_keepsLevel.
  eapply keepsControl_trans;
    [apply buildPlatformsAndWalls_keeps|apply forEachPassenger_keeps].
Qed.

Lemma simulate_passengersSpawned (dt rand : Q) (e : t) :
  (passengersSpawned e ≤ totalPassengers →
   passengersSpawned (simulate dt rand e) ≤ totalPassengers)%Z.
Proof.
  intros H. unfold simulate.
  rewrite (kc_passengersSpawned _ _ (forEachPassenger_keeps _ _)).
  rewrite (kc_passengersSpawned _ _ (buildPlatformsAndWalls_keeps _)).
  by apply spawnStep_passengersSpawned.
Qed.

(** The three ways through [update]. *)
Lemma update_not_playing (now_ms : Z) (dt rand : Q) (e : t) :
  gameState e ≠ PLAYING → update now_ms dt rand e = e.
Proof. intros H. unfold update. by rewrite bool_decide_eq_false_2. Qed.

Lemma update_timeout (now_ms : Z) (dt rand : Q) (e : t) :
  gameState e = PLAYING → levelTimeLimit <= elapsed now_ms e →
  update now_ms dt rand e = set_gameState GAME_OVER e.
Proof.
  intros H Ht. unfold update, timeLimitReached.
  rewrite bool_decide_eq_true_2 by done. simpl.
  by rewrite (proj2 (Qgeb_ge _ _) Ht).
Qed.

Lemma update_in_time (now_ms : Z) (dt rand : Q) (e : t) :
  gameState e = PLAYING → elapsed now_ms e < levelTimeLimit →
  update now_ms dt rand e = checkWinCondition (simulate dt rand e).
Proof.
  intros H Ht. unfold update, timeLimitReached.
  rewrite bool_decide_eq_true_2 by done. simpl.
  destruct (Qgeb _ _) eqn:Hg; [|done].
  apply Qgeb_ge in Hg. exfalso. by apply (Qlt_not_le _ _ Ht).
Qed.

Lemma checkWinCondition_keeps (e : t) :
  currentLevel (checkWinCondition e) = currentLevel e
  ∧ levelStartTime (checkWinCondition e) = levelStartTime e
  ∧ powerCounts (checkWinCondition e) = powerCounts e
  ∧ selectedPower (checkWinCondition e) = selectedPower e
  ∧ bridges (checkWinCondition e) = bridges e
  ∧ passengers (checkWinCondition e) = passengers e
  ∧ passengersSpawned (checkWinCondition e) = passengersSpawned e.
Proof.
  unfold checkWinCondition.
  destruct (allResolved e); [|done].
  repeat case_bool_decide; done.
Qed.

End EngineFrame.

(** ** The inventory after [startLevel] *)

Lemma startLevel_powerCounts (level now_ms : Z) (config : LevelConfig.t)
    (e : GameEngine.t) :
  GameEngine.powerCounts (GameEngine.startLevel level now_ms config e)
  = {[ bridge := 10%Z; doorBreaker := 8%Z; securityBriber := 6%Z ]}.
Proof. cbn. apply map_eq. intros []; by simplify_map_eq. Qed.

(** The two callers of [startLevel]: the click that leaves the menu and the
    click that advances to the next level. *)
Lemma handleClick_menu_inventory (x y : Q) (now_ms : Z) (config : LevelConfig.t)
    (e : GameEngine.t) :
  GameEngine.gameState e = MENU →
  GameEngine.powerCounts (GameEngine.handleClick x y now_ms config e)
  = {[ bridge := 10%Z; doorBreaker := 8%Z; securityBriber := 6%Z ]}.
Proof.
  intros H. unfold GameEngine.handleClick. rewrite H.
  apply startLevel_powerCounts.
Qed.

Lemma handleClick_nextLevel_inventory (x y : Q) (now_ms : Z)
    (config : LevelConfig.t) (e : GameEngine.t) :
  GameEngine.gameState e = LEVEL_COMPLETE → (GameEngine.currentLevel e < 10)%Z →
  GameEngine.powerCounts (GameEngine.handleClick x y now_ms config e)
  = {[ bridge := 10%Z; doorBreaker := 8%Z; securityBriber := 6%Z ]}.
Proof.
  intros H Hl. unfold GameEngine.handleClick, GameEngine.nextLevel. rewrite H.
  rewrite bool_decide_eq_true_2 by done.
  apply startLevel_powerCounts.
Qed.

(** C10.  After [startLevel], whatever the level number, the clock, the
    generated layout and the engine before the call (so whatever was spent
    before), the inventory holds exactly 10 bridge, 8 doorBreaker and 6
    securityBriber uses. *)
Theorem startLevel_resets_inventory (level now_ms : Z)
    (config : LevelConfig.t) (e : GameEngine.t) :
  GameEngine.powerCounts (GameEngine.startLevel level now_ms config e)
  = {[ bridge := 10%Z; doorBreaker := 8%Z; securityBriber := 6%Z ]}
  ∧ GameEngine.getCount bridge (GameEngine.startLevel level now_ms config e) = 10%Z
  ∧ GameEngine.getCount doorBreaker (GameEngine.startLevel level now_ms config e) = 8%Z
  ∧ GameEngine.getCount securityBriber (GameEngine.startLevel level now_ms config e) = 6%Z.
Proof.
  unfold GameEngine.getCount. rewrite startLevel_powerCounts. done.
Qed.

(** ** The outcome of a tick *)

Section Outcome.
Import GameEngine.

Lemma checkWinCondition_gameState (e : t) :
  gameState (checkWinCondition e)
  = if allResolved e then
      if bool_decide (50 ≤ reachedGate e)%nat then
        if bool_decide (10 ≤ currentLevel e)%Z then VICTORY else LEVEL_COMPLETE
      else GAME_OVER
    else gameState e.
Proof.
  unfold checkWinCondition. destruct (allResolved e); [|done].
  repeat case_bool_decide; done.
Qed.

Lemma allResolved_spec (e : t) :
  (passengersSpawned e ≤ totalPassengers)%Z →
  allResolved e = true ↔ allAgentsResolved e.
Proof.
  intros Hle. unfold allResolved, allAgentsResolved.
  rewrite andb_true_iff, !bool_decide_eq_true. intuition lia.
Qed.

Lemma allAgentsResolved_checkWinCondition (e : t) :
  allAgentsResolved (checkWinCondition e) ↔ allAgentsResolved e.
Proof.
  destruct (checkWinCondition_keeps e) as (_ & _ & _ & _ & _ & Hp & Hs).
  unfold allAgentsResolved, activePassengers. by rewrite Hp, Hs.
Qed.

Lemma reachedGate_checkWinCondition (e : t) :
  reachedGate (checkWinCondition e) = reachedGate e.
Proof.
  destruct (checkWinCondition_keeps e) as (_ & _ & _ & _ & _ & Hp & _).
  unfold reachedGate. by rewrite Hp.
Qed.

End Outcome.

(** C6, as the code has it.  A tick taken while PLAYING ends the level by
    time-out, in GAME_OVER, when the 300 seconds have passed.  Before that
    the state after the tick is GAME_OVER exactly when all agents are
    resolved and fewer than 50 have reached the gate, LEVEL_COMPLETE
    (level below 10) or VICTORY (level 10) exactly when all agents are
    resolved and at least 50 have reached the gate, and PLAYING exactly
    when some agent is not resolved.  The counts are those of the state
    after the tick. *)
Theorem update_outcome (now_ms : Z) (dt rand : Q) (e : GameEngine.t) :
  GameEngine.gameState e = PLAYING →
  (GameEngine.passengersSpawned e ≤ GameEngine.totalPassengers)%Z →
  let e' := GameEngine.update now_ms dt rand e in
  (GameEngine.levelTimeLimit <= GameEngine.elapsed now_ms e →
     GameEngine.gameState e' = GAME_OVER)
  ∧ (GameEngine.elapsed now_ms e < GameEngine.levelTimeLimit →
       (GameEngine.gameState e' = GAME_OVER ↔
          allAgentsResolved e' ∧ (GameEngine.reachedGate e' < 50)%nat)
     ∧ (GameEngine.gameState e' = LEVEL_COMPLETE ↔
          allAgentsResolved e' ∧ (50 ≤ GameEngine.reachedGate e')%nat
          ∧ (GameEngine.currentLevel e < 10)%Z)
     ∧ (GameEngine.gameState e' = VICTORY ↔
          allAgentsResolved e' ∧ (50 ≤ GameEngine.reachedGate e')%nat
          ∧ (10 ≤ GameEngine.currentLevel e)%Z)
     ∧ (GameEngine.gameState e' = PLAYING ↔ ¬ allAgentsResolved e')).
Proof.
  intros Hplay Hcap e'. split.
  - intros Ht. unfold e'. by rewrite update_timeout.
  - intros Ht. unfold e'. rewrite (update_in_time _ _ _ _ Hplay Ht).
    set (s := simulate dt rand e).
    pose proof (simulate_keeps dt rand e) as Hk. fold s in Hk.
    pose proof (simulate_passengersSpawned dt rand e Hcap) as Hs. fold s in Hs.
    rewrite allAgentsResolved_checkWinCondition, reachedGate_checkWinCondition.
    rewrite checkWinCondition_gameState, (kl_gameState _ _ Hk), Hplay.
    rewrite (kl_currentLevel _ _ Hk).
    rewrite <- (allResolved_spec s Hs).
    destruct (GameEngine.allResolved s);
      repeat case_bool_decide; intuition (first [congruence | lia]).
Qed.

(** A transition decided by the counts, in play from the menu.  In
    [lastArrival] 99 passengers have been spawned and have reached the
    gate.  Frame 400, at 50 s, spawns the hundredth, which reaches the
    gate in that frame: all agents are resolved, 100 of them have reached
    the gate, and the level is complete. *)
Lemma update_outcome_witness :
  GameEngine.gameState lastArrival = PLAYING
  ∧ GameEngine.passengersSpawned lastArrival = 99%Z
  ∧ GameEngine.elapsed 50000 lastArrival < GameEngine.levelTimeLimit
  ∧ allAgentsResolved (GameEngine.update 50000 (1 # 8) (1 # 2) lastArrival)
  ∧ GameEngine.reachedGate (GameEngine.update 50000 (1 # 8) (1 # 2) lastArrival)
    = 100%nat
  ∧ GameEngine.gameState (GameEngine.update 50000 (1 # 8) (1 # 2) lastArrival)
    = LEVEL_COMPLETE.
Proof.
  assert (Hplay : GameEngine.gameState lastArrival = PLAYING)
    by (vm_compute; reflexivity).
  assert (Hcap : (GameEngine.passengersSpawned lastArrival
                  ≤ GameEngine.totalPassengers)%Z) by (vm_compute; discriminate).
  assert (Ht : GameEngine.elapsed 50000 lastArrival < GameEngine.levelTimeLimit)
    by (vm_compute; reflexivity).
  assert (Hres : allAgentsResolved
                   (GameEngine.update 50000 (1 # 8) (1 # 2) lastArrival))
    by (split; vm_compute; reflexivity).
  assert (Hreached : GameEngine.reachedGate
                       (GameEngine.update 50000 (1 # 8) (1 # 2) lastArrival)
                     = 100%nat) by (vm_compute; reflexivity).
  split; [exact Hplay|]. split; [vm_compute; reflexivity|].
  split; [exact Ht|]. split; [exact Hres|]. split; [exact Hreached|].
  destruct (update_outcome 50000 (1 # 8) (1 # 2) lastArrival Hplay Hcap)
    as [_ Hin].
  apply (proj1 (proj2 (Hin Ht))).
  split_and!; [exact Hres|rewrite Hreached; lia|vm_compute; reflexivity].
Defined.

(** C6, as the specification states it, fails on a tick that times out:
    the level just started is GAME_OVER after a tick at 300 s although no
    agent was spawned, so not all agents are resolved, neither before nor
    after the tick. *)
Lemma gameOver_iff_counterexample :
  GameEngine.gameState demoEngine = PLAYING
  ∧ ¬ (GameEngine.gameState (GameEngine.update 300000 (1 # 60) (1 # 2) demoEngine)
       = GAME_OVER
       ↔ allAgentsResolved (GameEngine.update 300000 (1 # 60) (1 # 2) demoEngine)
         ∧ (GameEngine.reachedGate
              (GameEngine.update 300000 (1 # 60) (1 # 2) demoEngine) < 50)%nat)
  ∧ ¬ allAgentsResolved demoEngine.
Proof.
  split; [reflexivity|]. split.
  - intros [H _]. destruct (H eq_refl) as [[Hs _] _].
    vm_compute in Hs. discriminate Hs.
  - intros [Hs _]. vm_compute in Hs. discriminate Hs.
Qed.

(** ** The level clock and pausing *)

Section Clock.
Import GameEngine.

Lemma pause_levelStartTime (e : t) : levelStartTime (pause e) = levelStartTime e.
Proof. unfold pause. by destruct (gameState e). Qed.

Lemma update_levelStartTime (now_ms : Z) (dt rand : Q) (e : t) :
  levelStartTime (update now_ms dt rand e) = levelStartTime e.
Proof.
  destruct (decide (gameState e = PLAYING)) as [Hp|Hp];
    [|by rewrite update_not_playing].
  destruct (Qlt_le_dec (elapsed now_ms e) levelTimeLimit) as [Ht|Ht].
  - rewrite (update_in_time _ _ _ _ Hp Ht).
    destruct (checkWinCondition_keeps (simulate dt rand e)) as (_ & -> & _).
    apply (kl_levelStartTime _ _ (simulate_keeps dt rand e)).
  - by rewrite (update_timeout _ _ _ _ Hp Ht).
Qed.

Lemma run_levelStartTime (calls : list Call) (e : t) :
  levelStartTime (run calls e) = levelStartTime e.
Proof.
  unfold run. revert e. induction calls as [|c rest IH]; intros e; cbn [fold_left].
  - done.
  - rewrite IH. destruct c; simpl.
    + apply update_levelStartTime.
    + apply pause_levelStartTime.
Qed.

Lemma startLevel_levelStartTime (level now_ms : Z) (config : LevelConfig.t) (e : t) :
  levelStartTime (startLevel level now_ms config e) = inject_Z now_ms / 1000.
Proof. reflexivity. Qed.

End Clock.

(** ** A passenger that has reached the gate *)

(** [reachedPassenger] is the passenger of [fallingEngine] one frame of
    0.1 s later (the coordinates are equal as rationals). *)
Lemma reachedPassenger_arises :
  Vector2.x (Passenger.position arrived) == Vector2.x (Passenger.position reachedPassenger)
  ∧ Vector2.y (Passenger.position arrived) == Vector2.y (Passenger.position reachedPassenger)
  ∧ Vector2.x (Passenger.velocity arrived) == Vector2.x (Passenger.velocity reachedPassenger)
  ∧ Vector2.y (Passenger.velocity arrived) == Vector2.y (Passenger.velocity reachedPassenger)
  ∧ Passenger.set_velocity (Passenger.velocity reachedPassenger)
      (Passenger.set_position (Passenger.position reachedPassenger) arrived)
    = reachedPassenger.
Proof. split_and!; vm_compute; reflexivity. Qed.

(** What the code does keep for a passenger that has reached the gate. *)

Section Arrived.
Import GameEngine.

Lemma sameBody_refl (p : Passenger.t) : sameBody p p.
Proof. by constructor. Qed.

Lemma sameBody_trans (p1 p2 p3 : Passenger.t) :
  sameBody p1 p2 → sameBody p2 p3 → sameBody p1 p3.
Proof. intros [] []. constructor; congruence. Qed.

Lemma activateSuperPower_sameBody (p : Passenger.t) :
  sameBody p (snd (Passenger.activateSuperPower p)).
Proof.
  unfold Passenger.activateSuperPower. by destruct (_ || _ || _).
Qed.

(** The obstacle interaction of src/GameEngine.ts writes the direction,
    the velocity, [isFalling] and, through [activateSuperPower],
    [isUsingPower] and the cooldown; nothing else. *)
Lemma handleObstacleInteraction_sameBody (e : t) (p : Passenger.t) (o : Obstacle.t) :
  sameBody p (snd (handleObstacleInteraction e p o)).
Proof.
  unfold handleObstacleInteraction.
  destruct (Obstacle.type o);
    repeat match goal with
           | |- context [bool_decide ?P] => destruct (bool_decide P)
           | |- context [hasBridge ?o ?e] => destruct (hasBridge o e)
           end;
    try (by constructor);
    pose proof (activateSuperPower_sameBody p) as [];
    destruct (Passenger.activateSuperPower p) as [[|] p1];
    by constructor.
Qed.

Lemma fold_collideWith_sameBody (box : BoundingBox.t) (obs : list Obstacle.t)
    (e : t) (p : Passenger.t) :
  sameBody p (snd (fold_left (collideWith box) obs (e, p))).
Proof.
  revert e p. induction obs as [|o rest IH]; intros e p; cbn [fold_left].
  - apply sameBody_refl.
  - assert (Hstep : sameBody p (snd (collideWith box (e, p) o))).
    { unfold collideWith.
      destruct (Obstacle.type o);
        repeat (match goal with |- context [if ?b then _ else _] => destruct b end);
        first [ apply handleObstacleInteraction_sameBody | apply sameBody_refl ]. }
    destruct (collideWith box (e, p) o) as [e1 p1].
    eapply sameBody_trans; [exact Hstep|apply IH].
Qed.

(** One step of the [forEach] of [update] on the passengers array. *)
Lemma stepPassenger_passengers (dt : Q) (e : t) (j : nat) :
  ∀ i p, passengers e !! i = Some p → Passenger.hasReachedGate p = true →
    ∃ p', passengers (stepPassenger dt e j) !! i = Some p' ∧ sameBody p p'.
Proof.
  intros i p Hi Hr. unfold stepPassenger.
  destruct (passengers e !! j) as [pj|] eqn:Hj;
    [|exists p; split; [done|apply sameBody_refl]].
  pose proof (handleObstacleCollisions_keeps e
                (Passenger.update dt (platforms e) (walls e)
                   (Some (checkInGate e)) pj)) as (_ & Hp & _).
  pose proof (fold_collideWith_sameBody
                (Passenger.getBounds
                   (Passenger.update dt (platforms e) (walls e)
                      (Some (checkInGate e)) pj))
                (obstacles e) e
                (Passenger.update dt (platforms e) (walls e)
                   (Some (checkInGate e)) pj)) as Hsb.
  fold (handleObstacleCollisions e
          (Passenger.update dt (platforms e) (walls e) (Some (checkInGate e)) pj))
    in Hsb.
  destruct (handleObstacleCollisions e _) as [e1 p2]. cbn [fst snd] in *.
  destruct (Passenger.checkReachedGate (checkInGate e1) gateWidth p2)
    as [r p3] eqn:Hc.
  simpl. rewrite Hp.
  destruct (decide (j = i)) as [->|Hne].
  - rewrite Hi in Hj. injection Hj as <-.
    rewrite list_lookup_insert_eq by (by eapply lookup_lt_Some).
    exists p3. split; [done|].
    rewrite update_frozen in Hsb by auto.
    rewrite checkReachedGate_reached in Hc
      by (by rewrite (sb_hasReachedGate _ _ Hsb)).
    by injection Hc as _ <-.
  - rewrite list_lookup_insert_ne by done.
    exists p. split; [done|apply sameBody_refl].
Qed.

Lemma fold_stepPassenger_passengers (dt : Q) (indices : list nat) (e : t) :
  ∀ i p, passengers e !! i = Some p → Passenger.hasReachedGate p = true →
    ∃ p', passengers (fold_left (stepPassenger dt) indices e) !! i = Some p'
          ∧ sameBody p p'.
Proof.
  revert e. induction indices as [|j rest IH]; intros e i p Hi Hr; cbn [fold_left].
  - exists p. split; [done|apply sameBody_refl].
  - destruct (stepPassenger_passengers dt e j i p Hi Hr) as (p1 & Hi1 & Hsb1).
    destruct (IH _ i p1 Hi1) as (p2 & Hi2 & Hsb2).
    { by rewrite (sb_hasReachedGate _ _ Hsb1). }
    exists p2. split; [done|by eapply sameBody_trans].
Qed.

Lemma spawnStep_passengers (dt rand : Q) (e : t) :
  ∀ i p, passengers e !! i = Some p → passengers (spawnStep dt rand e) !! i = Some p.
Proof.
  intros i p Hi. unfold spawnStep, spawnPassenger.
  case_bool_decide; [|done].
  destruct (Qgeb _ _); [|done]. simpl.
  destruct (levelConfig e); simpl; [|done].
  by apply lookup_app_l_Some.
Qed.

(** A frame keeps the position, the lifecycle flags, the power, the color
    and the id of every passenger that has reached the gate. *)
Lemma update_arrived_sameBody (now_ms : Z) (dt rand : Q) (e : t) :
  ∀ i p, passengers e !! i = Some p → Passenger.hasReachedGate p = true →
    ∃ p', passengers (update now_ms dt rand e) !! i = Some p' ∧ sameBody p p'.
Proof.
  intros i p Hi Hr.
  destruct (decide (gameState e = PLAYING)) as [Hp|Hp];
    [|rewrite update_not_playing by done; exists p; split;
      [done|apply sameBody_refl]].
  destruct (Qlt_le_dec (elapsed now_ms e) levelTimeLimit) as [Ht|Ht].
  - rewrite (update_in_time _ _ _ _ Hp Ht).
    destruct (checkWinCondition_keeps (simulate dt rand e))
      as (_ & _ & _ & _ & _ & -> & _).
    unfold simulate, forEachPassenger.
    apply fold_stepPassenger_passengers; [|done].
    by apply spawnStep_passengers.
  - rewrite (update_timeout _ _ _ _ Hp Ht). exists p.
    split; [done|apply sameBody_refl].
Qed.

End Arrived.

(** C8 on the code, at that state: the next frame leaves the passenger
    where it is but reverses its direction, because [update] of the engine
    runs [handleObstacleCollisions] on every passenger, frozen or not. *)
Theorem reached_passenger_still_collides :
  Passenger.hasReachedGate reachedPassenger = true
  ∧ GameEngine.gameState gateEngine = PLAYING
  ∧ GameEngine.passengers (GameEngine.update 1000 (1 # 60) (1 # 2) gateEngine)
    = [Passenger.reverseDirection reachedPassenger]
  ∧ Passenger.direction reachedPassenger = (-1)%Z
  ∧ Passenger.direction (Passenger.reverseDirection reachedPassenger) = 1%Z
  ∧ Passenger.update (1 # 60) (GameEngine.platforms gateEngine)
      (GameEngine.walls gateEngine) (Some (GameEngine.checkInGate gateEngine))
      reachedPassenger = reachedPassenger.
Proof. split_and!; vm_compute; reflexivity. Qed.

(** ** Clicks *)

Section ClickFacts.
Import GameEngine.

Lemma noPowerGained_refl (ps : list Passenger.t) : noPowerGained ps ps.
Proof. intros j q Hq. exists q. auto. Qed.

Lemma noPowerGained_insert (ps : list Passenger.t) (i : nat) (p p' : Passenger.t) :
  ps !! i = Some p →
  Passenger.superPower p' = Passenger.superPower p ∨ Passenger.superPower p' = None →
  noPowerGained ps (<[i := p']> ps).
Proof.
  intros Hi Hp j q' Hq'. destruct (decide (i = j)) as [<-|Hne].
  - rewrite list_lookup_insert_eq in Hq' by (by eapply lookup_lt_Some).
    injection Hq' as <-. exists p. auto.
  - rewrite list_lookup_insert_ne in Hq' by done. exists q'. auto.
Qed.

(** The loop of [tryActivatePowerAtPosition] returns a passenger without
    power and an engine that differs from the one it was given by what
    [handleObstacleInteraction] did and by the selection. *)
Lemma tryActivateLoop_spec (e e1 : t) (p p1 : Passenger.t) (x y : Q)
    (obs : list Obstacle.t) :
  tryActivateLoop e p x y obs = Some (e1, p1) →
  keepsControl e e1 ∧ passengers e1 = passengers e
  ∧ Passenger.superPower p1 = None.
Proof.
  revert p. induction obs as [|o rest IH]; intros p; simpl; [done|].
  destruct (_ && _); [|apply IH].
  destruct (Passenger.activateSuperPower p) as [[|] p2]; [|apply IH].
  pose proof (handleObstacleInteraction_keeps e p2 o) as Hk.
  pose proof (handleObstacleInteraction_passengers e p2 o) as [Hp _].
  destruct (handleObstacleInteraction e p2 o) as [e2 p3]. simpl in *.
  intros [= <- <-]. split; [|done].
  destruct Hk. by constructor.
Qed.

Lemma tryActivatePowerAtPosition_spec (i : nat) (x y : Q) (e : t) :
  keepsControl e (tryActivatePowerAtPosition i x y e)
  ∧ noPowerGained (passengers e) (passengers (tryActivatePowerAtPosition i x y e)).
Proof.
  unfold tryActivatePowerAtPosition.
  destruct (passengers e !! i) as [p|] eqn:Hi;
    [|split; [apply keepsControl_refl|apply noPowerGained_refl]].
  destruct (_ || _); [split; [apply keepsControl_refl|apply noPowerGained_refl]|].
  destruct (tryActivateLoop e p x y (obstacles e)) as [[e1 p1]|] eqn:Hl;
    [|split; [apply keepsControl_refl|apply noPowerGained_refl]].
  apply tryActivateLoop_spec in Hl as (Hk & Hp & Hnone).
  split.
  - eapply keepsControl_trans; [exact Hk|]. frame.
  - simpl. rewrite Hp. eapply noPowerGained_insert; [exact Hi|by right].
Qed.

Lemma handleUIClick_spec (x y uiY : Q) (e : t) :
  passengers (handleUIClick x y uiY e) = passengers e
  ∧ powerCounts (handleUIClick x y uiY e) = powerCounts e
  ∧ bridges (handleUIClick x y uiY e) = bridges e
  ∧ gameState (handleUIClick x y uiY e) = gameState e
  ∧ passengersSpawned (handleUIClick x y uiY e) = passengersSpawned e
  ∧ ∀ k, selectedPower (handleUIClick x y uiY e) = Some k →
         selectedPower e = Some k ∨ (0 < getCount k e)%Z.
Proof.
  unfold handleUIClick.
  repeat match goal with
         | |- context [if ?b then _ else _] => destruct b eqn:?
         end;
    simpl; split_and!; try done; intros k Hk; simpl in Hk;
    first [ discriminate Hk
          | by left
          | injection Hk as <-; right;
            match goal with H : bool_decide _ = true |- _ =>
              by apply bool_decide_eq_true in H end ].
Qed.

Lemma clickElsewhere_spec (x y : Q) (e : t) :
  keepsControl e (clickElsewhere x y e)
  ∧ noPowerGained (passengers e) (passengers (clickElsewhere x y e)).
Proof.
  unfold clickElsewhere. destruct (selectedPassenger e).
  - apply tryActivatePowerAtPosition_spec.
  - split; [frame|apply noPowerGained_refl].
Qed.

Lemma findFrom_lookup {A} (f : A → bool) (l : list A) (n i : nat) (a : A) :
  findFrom f n l = Some (i, a) →
  (n ≤ i)%nat ∧ l !! (i - n)%nat = Some a ∧ f a = true.
Proof.
  revert n. induction l as [|b rest IH]; intros n; simpl; [done|].
  destruct (f b) eqn:Hb.
  - intros [= <- <-]. rewrite Nat.sub_diag. done.
  - intros H. apply IH in H as (Hle & Hl & Hf).
    split; [lia|]. split; [|done].
    replace (i - n)%nat with (S (i - S n)) by lia. done.
Qed.

Lemma find_lookup {A} (f : A → bool) (l : list A) (i : nat) (a : A) :
  find f l = Some (i, a) → l !! i = Some a ∧ f a = true.
Proof.
  intros H. apply findFrom_lookup in H as (_ & Hl & Hf).
  by rewrite Nat.sub_0_r in Hl.
Qed.

(** A step that keeps the inventory and the selected power and gives no
    passenger a power has that outcome. *)
Lemma quiet_clickOutcome (k : SuperPower) (e e' : t) :
  bridges e `prefix_of` bridges e' →
  gameState e' = gameState e →
  passengersSpawned e' = passengersSpawned e →
  powerCounts e' = powerCounts e →
  (∀ k', selectedPower e' = Some k' → selectedPower e = Some k') →
  noPowerGained (passengers e) (passengers e') →
  clickOutcome k e e'.
Proof.
  intros Hb Hg Hsp Hc Hs Hn. constructor; try done.
  - unfold getCount. by rewrite Hc.
  - intros _. apply Hs.
  - intros _ j q' Hq' Hk. destruct (Hn j q' Hq') as (q & Hq & [Heq|Hnone]).
    + exists q. split; [done|congruence].
    + congruence.
  - intros _. unfold getCount. by rewrite Hc.
Qed.

Lemma handleClickPlaying_outcome (k : SuperPower) (x y : Q) (e : t) :
  clickOutcome k e (handleClickPlaying x y e).
Proof.
  unfold handleClickPlaying.
  destruct (Qgeb y (canvasHeight e - uiHeight)).
  { (* the UI panel *)
    destruct (handleUIClick_spec x y (canvasHeight e - uiHeight) e)
      as (Hp & Hc & Hb & Hg & Hsp & Hs).
    constructor; try done.
    - by rewrite Hb.
    - unfold getCount. by rewrite Hc.
    - intros Hz Hk. destruct (Hs k Hk) as [|]; [done|lia].
    - intros _ j q' Hq' Hk. rewrite Hp in Hq'. eauto.
    - intros _. unfold getCount. by rewrite Hc.
    - intros _ _. rewrite Hp. split; [done|apply noPowerGained_refl]. }
  destruct (find (clickedOn x y) (passengers e)) as [[i p]|].
  { (* a passenger with a power is under the click *)
    destruct (tryActivatePowerAtPosition_spec i x y
                (set_selectedPassenger (Some i) e)) as [Hk Hn].
    destruct Hk. simpl in *. apply quiet_clickOutcome; try done. congruence. }
  assert (Helse : clickOutcome k e (clickElsewhere x y e)).
  { destruct (clickElsewhere_spec x y e) as [Hk Hn].
    destruct Hk. apply quiet_clickOutcome; try done. congruence. }
  destruct (selectedPower e) as [power|] eqn:Hsel; [|exact Helse].
  case_bool_decide as Hpos; [|exact Helse].
  destruct (find (eligibleNear x y) (passengers e)) as [[i np]|] eqn:Hfind;
    [|exact Helse].
  (* the selected power is assigned to the passenger at index [i] *)
  apply find_lookup in Hfind as [Hi _].
  constructor; simpl; try done.
  - intros Hnn k'. unfold getCount. simpl.
    destruct (decide (power = k')) as [<-|Hne].
    + rewrite lookup_insert_eq. simpl. lia.
    + rewrite lookup_insert_ne by done. apply Hnn.
  - intros Hz j q' Hq' Hk'.
    destruct (decide (i = j)) as [<-|Hne].
    + rewrite list_lookup_insert_eq in Hq' by (by eapply lookup_lt_Some).
      injection Hq' as <-. simpl in Hk'. injection Hk' as ->. lia.
    + rewrite list_lookup_insert_ne in Hq' by done. eauto.
  - intros Hz. unfold getCount. simpl.
    rewrite lookup_insert_ne; [done|]. intros ->. lia.
  - intros Hz Hk. rewrite Hsel in Hk. injection Hk as ->. lia.
Qed.

End ClickFacts.

(** ** Bridges within a level attempt *)

Section Bridges.
Import GameEngine.

Lemma update_bridges_powerCounts (now_ms : Z) (dt rand : Q) (e : t) :
  bridges e `prefix_of` bridges (update now_ms dt rand e)
  ∧ powerCounts (update now_ms dt rand e) = powerCounts e.
Proof.
  destruct (decide (gameState e = PLAYING)) as [Hp|Hp];
    [|by rewrite update_not_playing].
  destruct (Qlt_le_dec (elapsed now_ms e) levelTimeLimit) as [Ht|Ht].
  - rewrite (update_in_time _ _ _ _ Hp Ht).
    destruct (checkWinCondition_keeps (simulate dt rand e))
      as (_ & _ & -> & _ & -> & _).
    destruct (simulate_keeps dt rand e). done.
  - by rewrite (update_timeout _ _ _ _ Hp Ht).
Qed.

Lemma handleClick_playing (x y : Q) (now_ms : Z) (config : LevelConfig.t) (e : t) :
  gameState e = PLAYING →
  handleClick x y now_ms config e = handleClickPlaying x y e.
Proof. intros H. unfold handleClick. by rewrite H. Qed.

End Bridges.

(** C7.  While PLAYING, a frame and a click keep every bridge: the bridges
    before the step are the first bridges after it, in the same order, so
    each of them is still present. *)
Theorem bridges_only_grow (now_ms : Z) (dt rand x y : Q)
    (config : LevelConfig.t) (e : GameEngine.t) :
  GameEngine.gameState e = PLAYING →
  GameEngine.bridges e `prefix_of`
    GameEngine.bridges (GameEngine.update now_ms dt rand e)
  ∧ GameEngine.bridges e `prefix_of`
    GameEngine.bridges (GameEngine.handleClick x y now_ms config e)
  ∧ (∀ b, b ∈ GameEngine.bridges e →
       b ∈ GameEngine.bridges (GameEngine.update now_ms dt rand e)
       ∧ b ∈ GameEngine.bridges (GameEngine.handleClick x y now_ms config e)).
Proof.
  intros Hplay.
  assert (Hu := proj1 (update_bridges_powerCounts now_ms dt rand e)).
  assert (Hc : GameEngine.bridges e `prefix_of`
               GameEngine.bridges (GameEngine.handleClick x y now_ms config e)).
  { rewrite handleClick_playing by done.
    apply (co_bridges bridge), handleClickPlaying_outcome. }
  split_and!; [done|done|].
  intros b Hb. split.
  - destruct Hu as [l ->]. apply elem_of_app. by left.
  - destruct Hc as [l ->]. apply elem_of_app. by left.
Qed.

(** A frame of [bridgeEngine]: the builder bridges [gap_0], and the old
    bridge is still the first one. *)
Lemma bridges_only_grow_witness :
  GameEngine.bridges (GameEngine.update 1000 (1 # 60) (1 # 2) bridgeEngine)
  = [oldBridge; Bridge.mk 300 (530 + 20 - 10) 80]
  ∧ (oldBridge ∈ GameEngine.bridges (GameEngine.update 1000 (1 # 60) (1 # 2) bridgeEngine)).
Proof.
  split; [vm_compute; reflexivity|].
  assert (Hplay : GameEngine.gameState bridgeEngine = PLAYING) by reflexivity.
  assert (Hold : oldBridge ∈ GameEngine.bridges bridgeEngine) by apply list_elem_of_here.
  destruct (bridges_only_grow 1000 (1 # 60) (1 # 2) 0 0 demoLevel bridgeEngine Hplay)
    as (_ & _ & Hin).
  exact (proj1 (Hin oldBridge Hold)).
Defined.

(** ** The level clock through clicks *)

Section ClockClicks.
Import GameEngine.

Lemma handleUIClick_levelStartTime (x y uiY : Q) (e : t) :
  levelStartTime (handleUIClick x y uiY e) = levelStartTime e.
Proof.
  unfold handleUIClick. cbv zeta.
  repeat match goal with
         | |- context [if ?b then _ else _] => destruct b
         end; done.
Qed.

Lemma handleClickPlaying_levelStartTime (x y : Q) (e : t) :
  levelStartTime (handleClickPlaying x y e) = levelStartTime e.
Proof.
  unfold handleClickPlaying. cbv zeta.
  assert (Helse : levelStartTime (clickElsewhere x y e) = levelStartTime e).
  { destruct (clickElsewhere_spec x y e) as [Hk _]. by destruct Hk. }
  destruct (Qgeb y _); [apply handleUIClick_levelStartTime|].
  destruct (find (clickedOn x y) (passengers e)) as [[i pi]|].
  { destruct (tryActivatePowerAtPosition_spec i x y
                (set_selectedPassenger (Some i) e)) as [Hk _].
    by destruct Hk. }
  destruct (selectedPower e) as [power|]; [|done].
  case_bool_decide; [|done].
  by destruct (find (eligibleNear x y) (passengers e)) as [[i near]|].
Qed.

(** Only an input that starts a level writes the level clock. *)
Lemma input_levelStartTime (e : t) (i : Input) :
  startsLevel e i = false → levelStartTime (input e i) = levelStartTime e.
Proof.
  destruct i as [[now_ms dt rand|now_ms]|x y now_ms config];
    cbn [input call startsLevel].
  - intros _. apply update_levelStartTime.
  - intros _. apply pause_levelStartTime.
  - unfold handleClick. destruct (gameState e); try done.
    intros _. apply handleClickPlaying_levelStartTime.
Qed.

Lemma runInputs_levelStartTime (inputs : list Input) (e : t) :
  sameAttempt inputs e = true →
  levelStartTime (runInputs inputs e) = levelStartTime e.
Proof.
  unfold runInputs. revert e.
  induction inputs as [|i rest IH]; intros e; cbn [fold_left sameAttempt]; [done|].
  intros [Hi Hrest]%andb_true_iff. apply negb_true_iff in Hi.
  rewrite IH by done. by apply input_levelStartTime.
Qed.

(** [pause()] writes the game state and nothing else. *)
Lemma pause_toggles (e : t) :
  pause e
  = set_gameState
      (match gameState e with
       | PLAYING => PAUSED
       | PAUSED => PLAYING
       | s => s
       end) e.
Proof. unfold pause. by destruct e as [[] ? ? ? ? ? ? ? ? ? ? ? ? ? ? ? ? ?]. Qed.

Lemma sameAttempt_snoc (inputs : list Input) (i : Input) (e : t) :
  sameAttempt (inputs ++ [i]) e
  = sameAttempt inputs e && negb (startsLevel (runInputs inputs e) i).
Proof.
  unfold runInputs. revert e.
  induction inputs as [|i0 rest IH]; intros e; cbn [app sameAttempt fold_left].
  - by rewrite andb_true_r.
  - by rewrite IH, andb_assoc.
Qed.

Lemma handleClickPlaying_gameState (x y : Q) (e : t) :
  gameState (handleClickPlaying x y e) = gameState e.
Proof. exact (co_gameState _ _ _ (handleClickPlaying_outcome bridge x y e)). Qed.

(** A level is being played or is paused only in an attempt that some
    [startLevel] began: the state is that call's, followed by inputs none
    of which starts a level. *)
Lemma playing_within_attempt (inputs : list Input) (width height : Q) :
  let e := runInputs inputs (new width height) in
  gameState e = PLAYING ∨ gameState e = PAUSED →
  ∃ level start_ms config e0 rest,
    e = runInputs rest (startLevel level start_ms config e0)
    ∧ sameAttempt rest (startLevel level start_ms config e0) = true.
Proof.
  cbv zeta. induction inputs as [|i inputs IH] using rev_ind.
  - intros [H|H]; discriminate H.
  - unfold runInputs in *. rewrite fold_left_app. cbn [fold_left].
    set (e := fold_left input inputs (new width height)) in *.
    intros Hin.
    destruct (startsLevel e i) eqn:Hs.
    + destruct i as [c|x y now_ms config]; [done|].
      cbn [startsLevel] in Hs. cbn [input] in *. unfold handleClick in *.
      destruct (gameState e) eqn:Hg; try done.
      * exists 1%Z, now_ms, config, e, []. done.
      * unfold nextLevel in *. case_bool_decide.
        -- exists (currentLevel e + 1)%Z, now_ms, config, e, []. done.
        -- rewrite Hg in Hin. by destruct Hin.
    + assert (He : gameState e = PLAYING ∨ gameState e = PAUSED).
      { destruct i as [[now_ms dt rand|now_ms]|x y now_ms config];
          cbn [input call startsLevel] in *.
        - destruct (decide (gameState e = PLAYING)) as [|Hn]; [by left|].
          by rewrite (update_not_playing _ _ _ _ Hn) in Hin.
        - unfold pause in Hin. destruct (gameState e) eqn:Hg; auto;
            rewrite ?Hg in Hin; by destruct Hin.
        - unfold handleClick in Hin. destruct (gameState e) eqn:Hg; auto;
            try done; cbn in Hin; by destruct Hin. }
      destruct (IH He) as (level & start_ms & config & e0 & rest & Heq & Hsame).
      exists level, start_ms, config, e0, (rest ++ [i]).
      unfold runInputs in *. rewrite fold_left_app. cbn [fold_left].
      rewrite <- Heq. split; [done|].
      rewrite sameAttempt_snoc. unfold runInputs. rewrite <- Heq, Hs, Hsame. done.
Qed.

End ClockClicks.

(** C2, as the code has it.  The clock of the time limit is the wall
    clock.  [startLevel] stores [Date.now()]; no frame, no pause or resume
    and no click of the level attempt changes what is stored; [pause()]
    only switches between PLAYING and PAUSED.  So a frame taken while
    PLAYING, after any frames, pauses and clicks of the attempt, leaves
    by the time-out exit, in GAME_OVER, exactly when the wall-clock time
    since [startLevel] is at least 300 seconds, the time spent paused
    included.  A click in the menu or on the level-complete screen calls
    [startLevel] again and begins the next attempt; every state in which
    the game is PLAYING, from the constructor on, lies in such an
    attempt. *)
Theorem timeout_on_wall_clock (level start_ms now_ms : Z)
    (config : LevelConfig.t) (inputs : list Input) (dt rand : Q)
    (e0 : GameEngine.t) :
  let e := runInputs inputs (GameEngine.startLevel level start_ms config e0) in
  sameAttempt inputs (GameEngine.startLevel level start_ms config e0) = true →
  GameEngine.gameState e = PLAYING →
  GameEngine.levelStartTime e = inject_Z start_ms / 1000
  ∧ (GameEngine.timeLimitReached now_ms e = true
     ↔ 300 <= inject_Z now_ms / 1000 - inject_Z start_ms / 1000)
  ∧ (GameEngine.timeLimitReached now_ms e = true →
     GameEngine.update now_ms dt rand e = GameEngine.set_gameState GAME_OVER e)
  ∧ (GameEngine.timeLimitReached now_ms e = false →
     GameEngine.update now_ms dt rand e
     = GameEngine.checkWinCondition (simulate dt rand e))
  ∧ (∀ s, GameEngine.pause s
          = GameEngine.set_gameState
              (match GameEngine.gameState s with
               | PLAYING => PAUSED
               | PAUSED => PLAYING
               | g => g
               end) s)
  ∧ (∀ s t, GameEngine.gameState s = PAUSED → GameEngine.update t dt rand s = s)
  ∧ (∀ played width height,
       GameEngine.gameState (runInputs played (GameEngine.new width height))
       = PLAYING →
       ∃ level' start_ms' config' e0' rest,
         runInputs played (GameEngine.new width height)
         = runInputs rest (GameEngine.startLevel level' start_ms' config' e0')
         ∧ sameAttempt rest (GameEngine.startLevel level' start_ms' config' e0')
           = true).
Proof.
  intros e Hsame Hplay.
  assert (Hstart : GameEngine.levelStartTime e = inject_Z start_ms / 1000).
  { unfold e. rewrite runInputs_levelStartTime by done.
    apply startLevel_levelStartTime. }
  split; [exact Hstart|].
  unfold GameEngine.timeLimitReached. split_and!.
  - split.
    + intros Ht. apply Qgeb_ge in Ht. unfold GameEngine.elapsed in Ht.
      by rewrite Hstart in Ht.
    + intros Ht. apply Qgeb_ge. unfold GameEngine.elapsed. by rewrite Hstart.
  - intros Ht. apply update_timeout; [done|by apply Qgeb_ge].
  - intros Ht. apply update_in_time; [done|].
    apply Qnot_le_lt. intros Hle. apply Qgeb_ge in Hle. congruence.
  - apply pause_toggles.
  - intros s t Hs. apply update_not_playing. by rewrite Hs.
  - intros played width height Hp.
    apply (playing_within_attempt played width height). by left.
Qed.

(** The level is started at 0 s and run through [pauseAndClicks], which
    ends at 400.9 s with the game PLAYING: the frame at 401 s reaches the
    time limit, as 401 s of wall-clock time have passed since
    [startLevel], and ends the level. *)
Lemma timeout_on_wall_clock_witness :
  GameEngine.gameState
    (runInputs pauseAndClicks
       (GameEngine.startLevel 1 0 demoLevel (GameEngine.new 1200 700)))
  = PLAYING
  ∧ GameEngine.timeLimitReached 401000
      (runInputs pauseAndClicks
         (GameEngine.startLevel 1 0 demoLevel (GameEngine.new 1200 700)))
    = true
  ∧ GameEngine.gameState
      (GameEngine.update 401000 (1 # 8) (1 # 2)
         (runInputs pauseAndClicks
            (GameEngine.startLevel 1 0 demoLevel (GameEngine.new 1200 700))))
    = GAME_OVER.
Proof.
  assert (Hsame : sameAttempt pauseAndClicks
                    (GameEngine.startLevel 1 0 demoLevel (GameEngine.new 1200 700))
                  = true) by (vm_compute; reflexivity).
  assert (Hplay : GameEngine.gameState
            (runInputs pauseAndClicks
               (GameEngine.startLevel 1 0 demoLevel (GameEngine.new 1200 700)))
          = PLAYING) by (vm_compute; reflexivity).
  destruct (timeout_on_wall_clock 1 0 401000 demoLevel pauseAndClicks
              (1 # 8) (1 # 2) (GameEngine.new 1200 700) Hsame Hplay)
    as (_ & Hiff & Hout & _).
  assert (Hlimit : GameEngine.timeLimitReached 401000
            (runInputs pauseAndClicks
               (GameEngine.startLevel 1 0 demoLevel (GameEngine.new 1200 700)))
          = true).
  { apply Hiff. vm_compute. discriminate. }
  split; [exact Hplay|]. split; [exact Hlimit|].
  rewrite (Hout Hlimit). reflexivity.
Defined.

(** C2, as the specification states it, fails after that pause: the frame
    at 401 s is taken while PLAYING, 11 seconds of play have elapsed on the
    pause-aware clock, and the frame leaves by the time-out exit, in
    GAME_OVER. *)
Lemma paused_clock_counterexample :
  GameEngine.gameState (fst afterLongPause) = PLAYING
  ∧ pauseAdjustedElapsed 401000 (fst afterLongPause) (snd afterLongPause) == 11
  ∧ GameEngine.gameState
      (GameEngine.update 401000 (1 # 60) (1 # 2) (fst afterLongPause)) = GAME_OVER
  ∧ ¬ (GameEngine.timeLimitReached 401000 (fst afterLongPause) = true
       ↔ 300 <= pauseAdjustedElapsed 401000 (fst afterLongPause) (snd afterLongPause)).
Proof.
  split_and!; try (vm_compute; reflexivity).
  intros [H _]. specialize (H eq_refl). vm_compute in H. by apply H.
Qed.

(** ** The inventory is never overdrawn *)

Section Inventory.
Import GameEngine.

Lemma new_nonNegative (width height : Q) : nonNegative (new width height).
Proof. intros []; vm_compute; discriminate. Qed.

Lemma startLevel_nonNegative (level now_ms : Z) (config : LevelConfig.t) (e : t) :
  nonNegative (startLevel level now_ms config e).
Proof.
  intros k. unfold getCount. rewrite startLevel_powerCounts.
  destruct k; vm_compute; discriminate.
Qed.

Lemma handleClick_nonNegative (x y : Q) (now_ms : Z) (config : LevelConfig.t) (e : t) :
  nonNegative e → nonNegative (handleClick x y now_ms config e).
Proof.
  intros Hnn. unfold handleClick, nextLevel.
  destruct (gameState e); try done.
  - apply startLevel_nonNegative.
  - exact (co_nonneg bridge _ _ (handleClickPlaying_outcome bridge x y e) Hnn).
  - case_bool_decide; [apply startLevel_nonNegative|done].
Qed.

Lemma input_nonNegative (e : t) (i : Input) : nonNegative e → nonNegative (input e i).
Proof.
  intros Hnn. destruct i as [[now_ms dt rand|now_ms]|x y now_ms config]; simpl.
  - intros k. unfold getCount.
    rewrite (proj2 (update_bridges_powerCounts now_ms dt rand e)). apply Hnn.
  - unfold pause. by destruct (gameState e).
  - by apply handleClick_nonNegative.
Qed.

(** Whatever the shell does, from the construction of the engine on, no
    inventory count is negative. *)
Lemma inventory_never_negative (inputs : list Input) (width height : Q) :
  nonNegative (runInputs inputs (new width height)).
Proof.
  unfold runInputs.
  generalize (new_nonNegative width height). generalize (new width height).
  induction inputs as [|i rest IH]; intros e Hnn; cbn [fold_left]; [done|].
  apply IH. by apply input_nonNegative.
Qed.

(** Whatever the shell does, no more passengers are spawned than the cap:
    the invariant that the outcome of a tick relies on. *)
Lemma input_passengersSpawned (e : t) (i : Input) :
  (passengersSpawned e ≤ totalPassengers)%Z →
  (passengersSpawned (input e i) ≤ totalPassengers)%Z.
Proof.
  intros Hle. destruct i as [[now_ms dt rand|now_ms]|x y now_ms config]; simpl.
  - destruct (decide (gameState e = PLAYING)) as [Hp|Hp];
      [|by rewrite update_not_playing].
    destruct (Qlt_le_dec (elapsed now_ms e) levelTimeLimit) as [Ht|Ht].
    + rewrite (update_in_time _ _ _ _ Hp Ht).
      destruct (checkWinCondition_keeps (simulate dt rand e))
        as (_ & _ & _ & _ & _ & _ & ->).
      by apply simulate_passengersSpawned.
    + by rewrite (update_timeout _ _ _ _ Hp Ht).
  - unfold pause. by destruct (gameState e).
  - unfold handleClick, nextLevel. destruct (gameState e); try done.
    + by rewrite (co_passengersSpawned bridge _ _
                    (handleClickPlaying_outcome bridge x y e)).
    + by case_bool_decide.
Qed.

Lemma spawned_never_past_cap (inputs : list Input) (width height : Q) :
  (passengersSpawned (runInputs inputs (new width height)) ≤ totalPassengers)%Z.
Proof.
  unfold runInputs.
  assert (H0 : (passengersSpawned (new width height) ≤ totalPassengers)%Z) by done.
  revert H0. generalize (new width height).
  induction inputs as [|i rest IH]; intros e Hle; cbn [fold_left]; [done|].
  apply IH. by apply input_passengersSpawned.
Qed.

End Inventory.

(** C9.  While PLAYING with no use of power [k] left, a click does not
    select [k] (in the UI panel or elsewhere), gives [k] to no passenger
    and leaves the count of [k] at 0; when [k] is the selected power, the
    click gives no power to any passenger and changes no count.  No
    click makes a count negative, and in every state that the engine
    reaches from its construction all counts are at least 0. *)
Theorem empty_inventory_not_assigned (k : SuperPower) (x y : Q) (now_ms : Z)
    (config : LevelConfig.t) (e : GameEngine.t) :
  GameEngine.gameState e = PLAYING →
  GameEngine.getCount k e = 0%Z →
  let e' := GameEngine.handleClick x y now_ms config e in
  (GameEngine.selectedPower e' = Some k → GameEngine.selectedPower e = Some k)
  ∧ (∀ j q', GameEngine.passengers e' !! j = Some q' →
       Passenger.superPower q' = Some k →
       ∃ q, GameEngine.passengers e !! j = Some q ∧ Passenger.superPower q = Some k)
  ∧ GameEngine.getCount k e' = 0%Z
  ∧ (GameEngine.selectedPower e = Some k →
       GameEngine.powerCounts e' = GameEngine.powerCounts e
       ∧ noPowerGained (GameEngine.passengers e) (GameEngine.passengers e'))
  ∧ (nonNegative e → nonNegative e')
  ∧ (∀ inputs width height,
       nonNegative (runInputs inputs (GameEngine.new width height))).
Proof.
  intros Hplay Hz e'. unfold e'. rewrite handleClick_playing by done.
  destruct (handleClickPlaying_outcome k x y e)
    as [_ _ _ Hnn Hsel Hhold Hcount Hnothing].
  assert (Hle : (GameEngine.getCount k e ≤ 0)%Z) by lia.
  split_and!.
  - by apply Hsel.
  - by apply Hhold.
  - by rewrite Hcount.
  - by apply Hnothing.
  - exact Hnn.
  - intros. apply inventory_never_negative.
Qed.

(** After that run the game is PLAYING and the briber count is 0; a click
    on the briber icon selects nothing, and a click next to the seventh
    passenger, who is eligible, leaves the count at 0. *)
Lemma empty_inventory_not_assigned_witness :
  GameEngine.gameState emptyHanded = PLAYING
  ∧ GameEngine.getCount securityBriber emptyHanded = 0%Z
  ∧ GameEngine.selectedPower (GameEngine.handleClick 100 630 1000 demoLevel emptyHanded)
    ≠ Some securityBriber
  ∧ GameEngine.getCount securityBriber
      (GameEngine.handleClick 40 18 1000 demoLevel emptyHanded) = 0%Z.
Proof.
  assert (Hplay : GameEngine.gameState emptyHanded = PLAYING)
    by (vm_compute; reflexivity).
  assert (Hzero : GameEngine.getCount securityBriber emptyHanded = 0%Z)
    by (vm_compute; reflexivity).
  assert (Hnone : GameEngine.selectedPower emptyHanded = None)
    by (vm_compute; reflexivity).
  split_and!; [exact Hplay|exact Hzero| |].
  - intros Hsel.
    apply (proj1 (empty_inventory_not_assigned securityBriber 100 630 1000
                    demoLevel emptyHanded Hplay Hzero)) in Hsel.
    rewrite Hnone in Hsel. discriminate Hsel.
  - exact (proj1 (proj2 (proj2
             (empty_inventory_not_assigned securityBriber 40 18 1000
                demoLevel emptyHanded Hplay Hzero)))).
Defined.

(** * Further properties of the code *)

(** ** CollisionSystem *)

Section CollisionFacts.
Import CollisionSystem.

Lemma Qltb_false (a b : Q) : Qltb a b = false ↔ b <= a.
Proof. apply Qgtb_false. Qed.

Lemma checkAABB_true (a b : BoundingBox.t) :
  checkAABB a b = true ↔
  BoundingBox.x a < BoundingBox.x b + BoundingBox.width b
  ∧ BoundingBox.x b < BoundingBox.x a + BoundingBox.width a
  ∧ BoundingBox.y a < BoundingBox.y b + BoundingBox.height b
  ∧ BoundingBox.y b < BoundingBox.y a + BoundingBox.height a.
Proof.
  unfold checkAABB. rewrite !andb_true_iff, !Qltb_lt, !Qgtb_gt. tauto.
Qed.

Lemma checkAABB_false (a b : BoundingBox.t) :
  checkAABB a b = false ↔
  BoundingBox.x b + BoundingBox.width b <= BoundingBox.x a
  ∨ BoundingBox.x a + BoundingBox.width a <= BoundingBox.x b
  ∨ BoundingBox.y b + BoundingBox.height b <= BoundingBox.y a
  ∨ BoundingBox.y a + BoundingBox.height a <= BoundingBox.y b.
Proof.
  unfold checkAABB. rewrite !andb_false_iff, !Qltb_false, !Qgtb_false. tauto.
Qed.

End CollisionFacts.

(** X1.  [checkAABB] is symmetric, and boxes that only touch along an edge
    do not overlap: the test is false when the right edge of one box is
    the left edge of the other, or the bottom edge of one the top edge of
    the other. *)
Theorem checkAABB_symmetric_open (a b : BoundingBox.t) :
  CollisionSystem.checkAABB a b = CollisionSystem.checkAABB b a
  ∧ (BoundingBox.x a + BoundingBox.width a == BoundingBox.x b →
     CollisionSystem.checkAABB a b = false)
  ∧ (BoundingBox.y a + BoundingBox.height a == BoundingBox.y b →
     CollisionSystem.checkAABB a b = false).
Proof.
  split_and!.
  - destruct (CollisionSystem.checkAABB b a) eqn:H.
    + apply checkAABB_true. apply checkAABB_true in H. tauto.
    + apply checkAABB_false. apply checkAABB_false in H. tauto.
  - intros H. apply checkAABB_false. right. left. rewrite H. apply Qle_refl.
  - intros H. apply checkAABB_false. do 3 right. rewrite H. apply Qle_refl.
Qed.

(** X2.  Whatever the two boxes, [resolveCollision] reports a collision on
    exactly one axis, leaves the coordinate of the other axis as it was
    and puts the entity flush against an edge of the obstacle on the axis
    it resolves.  On boxes in whole pixels, where the sums and
    differences of the source are exact, the entity placed at the
    returned position does not overlap the obstacle.  (With fractions the
    source does not guarantee that: in double precision
    [(obstacle.x - width) + width] can exceed [obstacle.x].) *)
Theorem resolveCollision_separates (entityBounds obstacleBounds : BoundingBox.t) :
  let r := CollisionSystem.resolveCollision entityBounds obstacleBounds in
  CollisionSystem.collisionX r = negb (CollisionSystem.collisionY r)
  ∧ (CollisionSystem.collisionX r = true →
     CollisionSystem.y r = BoundingBox.y entityBounds
     ∧ (CollisionSystem.x r
        = BoundingBox.x obstacleBounds - BoundingBox.width entityBounds
        ∨ CollisionSystem.x r
          = BoundingBox.x obstacleBounds + BoundingBox.width obstacleBounds))
  ∧ (CollisionSystem.collisionY r = true →
     CollisionSystem.x r = BoundingBox.x entityBounds
     ∧ (CollisionSystem.y r
        = BoundingBox.y obstacleBounds - BoundingBox.height entityBounds
        ∨ CollisionSystem.y r
          = BoundingBox.y obstacleBounds + BoundingBox.height obstacleBounds))
  ∧ (onPixels entityBounds = true → onPixels obstacleBounds = true →
     CollisionSystem.checkAABB
       (BoundingBox.mk (CollisionSystem.x r) (CollisionSystem.y r)
          (BoundingBox.width entityBounds) (BoundingBox.height entityBounds))
       obstacleBounds = false).
Proof.
  cbv zeta. unfold CollisionSystem.resolveCollision.
  destruct (Qltb (Qmin _ _) (Qmin _ _));
    cbn [CollisionSystem.x CollisionSystem.y CollisionSystem.collisionX
         CollisionSystem.collisionY negb].
  - split_and!; try done.
    + intros _. split; [done|]. destruct (Qltb _ _); auto.
    + intros _ _. apply checkAABB_false.
      cbn [BoundingBox.x BoundingBox.y BoundingBox.width BoundingBox.height].
      destruct (Qltb _ _).
      * right. left. lra.
      * left. lra.
  - split_and!; try done.
    + intros _. split; [done|]. destruct (Qltb _ _); auto.
    + intros _ _. apply checkAABB_false.
      cbn [BoundingBox.x BoundingBox.y BoundingBox.width BoundingBox.height].
      destruct (Qltb _ _).
      * do 3 right. lra.
      * right. right. left. lra.
Qed.

(** [entityBox], four pixels into [crateBox] from the left, is put at
    x = -4, flush against the left edge of the crate. *)
Lemma resolveCollision_separates_witness :
  CollisionSystem.checkAABB entityBox crateBox = true
  ∧ CollisionSystem.x (CollisionSystem.resolveCollision entityBox crateBox) == -4
  ∧ CollisionSystem.checkAABB
      (BoundingBox.mk
         (CollisionSystem.x (CollisionSystem.resolveCollision entityBox crateBox))
         (CollisionSystem.y (CollisionSystem.resolveCollision entityBox crateBox))
         (BoundingBox.width entityBox) (BoundingBox.height entityBox))
      crateBox = false.
Proof.
  split; [reflexivity|]. split; [reflexivity|].
  exact (proj2 (proj2 (proj2 (resolveCollision_separates entityBox crateBox)))
           eq_refl eq_refl).
Defined.



Section CollisionMoves.
Import CollisionSystemMoves.

(** The loop finds nothing exactly when no obstacle is both of a type
    that counts and overlapped by the box; what it finds is the first such
    obstacle. *)
Lemma firstHit_None (testBounds : BoundingBox.t) (obstacles : list Obstacle.t)
    (ignoreTypes : list ObstacleType) :
  firstHit testBounds obstacles ignoreTypes = None ↔
  ∀ o, o ∈ obstacles →
    ¬ (ignored ignoreTypes o = false
       ∧ CollisionSystem.checkAABB testBounds (Obstacle.bounds o) = true).
Proof.
  induction obstacles as [|o rest IH]; cbn [firstHit].
  - split; [intros _ o Ho; inversion Ho | done].
  - destruct (ignored ignoreTypes o) eqn:Hi;
      [|destruct (CollisionSystem.checkAABB testBounds (Obstacle.bounds o)) eqn:Hc].
    + rewrite IH. split.
      * intros H o' [->|Ho']%elem_of_cons; [intros [? _]; congruence | by apply H].
      * intros H o' Ho'. apply H. by right.
    + split; [done|]. intros H. exfalso. apply (H o); [by left | done].
    + rewrite IH. split.
      * intros H o' [->|Ho']%elem_of_cons; [intros [_ ?]; congruence | by apply H].
      * intros H o' Ho'. apply H. by right.
Qed.

Lemma firstHit_Some (testBounds : BoundingBox.t) (obstacles : list Obstacle.t)
    (ignoreTypes : list ObstacleType) (o : Obstacle.t) :
  firstHit testBounds obstacles ignoreTypes = Some o →
  ∃ before after,
    obstacles = before ++ o :: after
    ∧ ignored ignoreTypes o = false
    ∧ CollisionSystem.checkAABB testBounds (Obstacle.bounds o) = true
    ∧ ∀ o', o' ∈ before →
        ¬ (ignored ignoreTypes o' = false
           ∧ CollisionSystem.checkAABB testBounds (Obstacle.bounds o') = true).
Proof.
  induction obstacles as [|o0 rest IH]; cbn [firstHit]; [done|].
  destruct (ignored ignoreTypes o0) eqn:Hi;
    [|destruct (CollisionSystem.checkAABB testBounds (Obstacle.bounds o0)) eqn:Hc].
  - intros (before & after & -> & ? & ? & Hb)%IH.
    exists (o0 :: before), after. split_and!; try done.
    intros o' [->|Ho']%elem_of_cons; [intros [? _]; congruence | by apply Hb].
  - intros [= ->]. exists [], rest. split_and!; try done.
    intros o' Ho'. inversion Ho'.
  - intros (before & after & -> & ? & ? & Hb)%IH.
    exists (o0 :: before), after. split_and!; try done.
    intros o' [->|Ho']%elem_of_cons; [intros [_ ?]; congruence | by apply Hb].
Qed.

End CollisionMoves.

(** X4.  [checkCollisionAtPosition] reports the first obstacle, in list
    order, that is not of an ignored type and that the entity's box, moved
    to the new position, overlaps; it reports no collision exactly when no
    obstacle of the list is such.  Of [entityBounds] only the width and the
    height are read. *)
Theorem checkCollisionAtPosition_first (entityBounds : BoundingBox.t)
    (newX newY : Q) (obstacles : list Obstacle.t)
    (ignoreTypes : list ObstacleType) :
  let testBounds :=
    BoundingBox.mk newX newY (BoundingBox.width entityBounds)
                   (BoundingBox.height entityBounds) in
  let blocks o :=
    CollisionSystemMoves.ignored ignoreTypes o = false
    ∧ CollisionSystem.checkAABB testBounds (Obstacle.bounds o) = true in
  let r := CollisionSystemMoves.checkCollisionAtPosition
             entityBounds newX newY obstacles ignoreTypes in
  match CollisionSystemMoves.obstacle r with
  | None =>
      CollisionSystemMoves.collided r = false
      ∧ ∀ o, o ∈ obstacles → ¬ blocks o
  | Some o =>
      CollisionSystemMoves.collided r = true
      ∧ ∃ before after,
          obstacles = before ++ o :: after
          ∧ blocks o
          ∧ ∀ o', o' ∈ before → ¬ blocks o'
  end.
Proof.
  cbv zeta. unfold CollisionSystemMoves.checkCollisionAtPosition.
  destruct (CollisionSystemMoves.firstHit _ obstacles ignoreTypes) as [o|] eqn:Hf;
    cbn [CollisionSystemMoves.obstacle CollisionSystemMoves.collided].
  - split; [done|]. apply firstHit_Some in Hf.
    destruct Hf as (before & after & -> & Hi & Hc & Hb).
    by exists before, after.
  - split; [done|]. by apply firstHit_None.
Qed.

(** X5.  [moveWithCollision] is [checkCollisionAtPosition] applied twice:
    the horizontal hit flag says that the horizontal displacement is not 0
    and that the box displaced horizontally collides; the vertical flag
    says the same of the box at the resulting x, displaced vertically.
    Without a hit the displacement is applied in full; with a hit the
    entity is placed flush against an edge of the obstacle that was hit.
    With the position, the displacement, the size and the obstacles in
    whole pixels, where the sums and differences of the source are
    exact, the entity so placed no longer overlaps that obstacle. *)
Theorem moveWithCollision_composes
    (currentX currentY deltaX deltaY width height : Q)
    (obstacles : list Obstacle.t) (ignoreTypes : list ObstacleType) :
  let r := CollisionSystemMoves.moveWithCollision
             currentX currentY deltaX deltaY width height obstacles ignoreTypes in
  let entityBounds := BoundingBox.mk currentX currentY width height in
  let atX := CollisionSystemMoves.checkCollisionAtPosition
               entityBounds (currentX + deltaX) currentY obstacles ignoreTypes in
  let atY := CollisionSystemMoves.checkCollisionAtPosition
               entityBounds (CollisionSystemMoves.x r) (currentY + deltaY)
               obstacles ignoreTypes in
  let exact :=
    onPixels entityBounds = true
    ∧ wholePixel deltaX = true ∧ wholePixel deltaY = true
    ∧ Forall (fun o => onPixels (Obstacle.bounds o) = true) obstacles in
  CollisionSystemMoves.hitX r
    = negb (Qeqb deltaX 0) && CollisionSystemMoves.collided atX
  ∧ CollisionSystemMoves.hitY r
    = negb (Qeqb deltaY 0) && CollisionSystemMoves.collided atY
  ∧ (CollisionSystemMoves.hitX r = false →
     CollisionSystemMoves.x r = currentX + deltaX)
  ∧ (CollisionSystemMoves.hitY r = false →
     CollisionSystemMoves.y r = currentY + deltaY)
  ∧ (CollisionSystemMoves.hitX r = true →
     ∃ o, CollisionSystemMoves.obstacle atX = Some o
          ∧ (CollisionSystemMoves.x r = Obstacle.x o - width
             ∨ CollisionSystemMoves.x r = Obstacle.x o + Obstacle.width o)
          ∧ (exact →
             CollisionSystem.checkAABB
               (BoundingBox.mk (CollisionSystemMoves.x r) currentY width height)
               (Obstacle.bounds o) = false))
  ∧ (CollisionSystemMoves.hitY r = true →
     ∃ o, CollisionSystemMoves.obstacle atY = Some o
          ∧ (CollisionSystemMoves.y r = Obstacle.y o - height
             ∨ CollisionSystemMoves.y r = Obstacle.y o + Obstacle.height o)
          ∧ (exact →
             CollisionSystem.checkAABB
               (BoundingBox.mk (CollisionSystemMoves.x r)
                               (CollisionSystemMoves.y r) width height)
               (Obstacle.bounds o) = false)).
Proof.
  cbv zeta.
  unfold CollisionSystemMoves.moveWithCollision,
         CollisionSystemMoves.checkCollisionAtPosition.
  cbn [BoundingBox.x BoundingBox.y BoundingBox.width BoundingBox.height].
  destruct (Qeqb deltaX 0); cbn [negb andb];
    [|destruct (CollisionSystemMoves.firstHit
                  (BoundingBox.mk (currentX + deltaX) currentY width height)
                  obstacles ignoreTypes) as [ox|] eqn:Hx];
  (destruct (Qeqb deltaY 0); cbn [negb andb];
    [|match goal with
      | |- context [CollisionSystemMoves.firstHit ?b obstacles ignoreTypes] =>
          match b with
          | context [currentY + deltaY] =>
              destruct (CollisionSystemMoves.firstHit b obstacles ignoreTypes)
                as [oy|] eqn:Hy
          end
      end]);
  cbn [CollisionSystemMoves.x CollisionSystemMoves.y CollisionSystemMoves.hitX
       CollisionSystemMoves.hitY CollisionSystemMoves.collided
       CollisionSystemMoves.obstacle];
  rewrite ?Hy; cbn [CollisionSystemMoves.collided CollisionSystemMoves.obstacle];
  split_and!; try done.
  all: intros _; eexists; split; [reflexivity|]; unfold Obstacle.bounds;
    cbn [BoundingBox.x BoundingBox.y BoundingBox.width BoundingBox.height];
    (split;
     [ repeat match goal with
              | |- context [if Qltb ?a ?b then _ else _] => destruct (Qltb a b)
              end; auto
     | intros _;
       repeat match goal with
              | |- context [if Qltb ?a ?b then _ else _] => destruct (Qltb a b)
              end;
       apply checkAABB_false;
       cbn [BoundingBox.x BoundingBox.y BoundingBox.width BoundingBox.height];
       first [left; lra | right; left; lra | right; right; left; lra
             | do 3 right; lra] ]).
Qed.

(** [entityBox] moved 10 pixels right and 5 down next to [crate]: the
    horizontal move hits the crate and ends flush against its left edge,
    at x = -4, where the box does not overlap it; the vertical move is
    then free. *)
Lemma moveWithCollision_composes_witness :
  CollisionSystemMoves.hitX
    (CollisionSystemMoves.moveWithCollision 0 0 10 5 24 32 [crate]
       CollisionSystemMoves.defaultIgnoreTypes) = true
  ∧ CollisionSystemMoves.x
      (CollisionSystemMoves.moveWithCollision 0 0 10 5 24 32 [crate]
         CollisionSystemMoves.defaultIgnoreTypes) == -4
  ∧ CollisionSystemMoves.y
      (CollisionSystemMoves.moveWithCollision 0 0 10 5 24 32 [crate]
         CollisionSystemMoves.defaultIgnoreTypes) = 0 + 5
  ∧ CollisionSystem.checkAABB
      (BoundingBox.mk
         (CollisionSystemMoves.x
            (CollisionSystemMoves.moveWithCollision 0 0 10 5 24 32 [crate]
               CollisionSystemMoves.defaultIgnoreTypes))
         0 24 32)
      (Obstacle.bounds crate) = false.
Proof.
  destruct (moveWithCollision_composes 0 0 10 5 24 32 [crate]
              CollisionSystemMoves.defaultIgnoreTypes)
    as (_ & _ & _ & HfreeY & HhitX & _).
  split; [reflexivity|]. split; [reflexivity|].
  split; [by apply HfreeY|].
  destruct (HhitX eq_refl) as (o & Ho & _ & Hclear).
  injection Ho as <-. apply Hclear.
  split_and!; try reflexivity.
  by repeat constructor.
Defined.

(** ** Passenger.update *)

Section UpdateFacts.
Import Passenger UpdateStages.

(** The horizontal wall loop either leaves the passenger and [newX] as
    they are (no wall is hit), or reverses the passenger, recomputes
    [velocity.x] and cancels the displacement. *)
Lemma hitWallX_cases (speed : Q) (box : BoundingBox.t)
    (walls : list BoundingBox.t) (p : t) (newX : Q) :
  (hitWallX speed box walls p newX = (p, newX)
   ∧ ∀ w, w ∈ walls → CollisionSystem.checkAABB box w = false)
  ∨ (hitWallX speed box walls p newX
     = (set_velocity
          (Vector2.mk (inject_Z (direction (reverseDirection p)) * speed)
                      (Vector2.y (velocity p)))
          (reverseDirection p),
        Vector2.x (position p))
     ∧ ∃ w, w ∈ walls ∧ CollisionSystem.checkAABB box w = true).
Proof.
  induction walls as [|w rest IH]; cbn [hitWallX].
  - left. split; [done|]. intros w Hw. inversion Hw.
  - destruct w as [wx wy ww wh].
    cbn [BoundingBox.x BoundingBox.y BoundingBox.width BoundingBox.height].
    destruct (CollisionSystem.checkAABB box (BoundingBox.mk wx wy ww wh)) eqn:Hc.
    + right. split; [done|]. eexists. split; [by left|done].
    + destruct IH as [[-> Hn]|[-> (w & Hw & Hc')]].
      * left. split; [done|]. intros w [->|Hw]%elem_of_cons; [done|by apply Hn].
      * right. split; [done|]. exists w. split; [by right|done].
Qed.

(** [update] on a passenger that is active and has not reached the gate
    is the four stages in a row. *)
Lemma update_stages (deltaTime : Q) (platforms walls : list BoundingBox.t)
    (target : option Vector2.t) (p : t) :
  isActive p = true → hasReachedGate p = false →
  update deltaTime platforms walls target p
  = coolDown deltaTime
      (moveY deltaTime platforms walls
         (moveX deltaTime walls (accelerate deltaTime target p))).
Proof.
  intros Ha Hr. unfold update. rewrite Ha, Hr. cbn [negb orb].
  unfold coolDown, moveY, moveX, accelerate. cbv zeta.
  set (dir := match target with Some tgt => _ | None => _ end).
  cbn [set_velocity set_direction position velocity superPower Vector2.x Vector2.y].
  destruct (negb (bool_decide (superPower p = Some doorBreaker))); [|reflexivity].
  match goal with
  | |- context [hitWallX ?s ?b walls ?q ?n] =>
      destruct (hitWallX_cases s b walls q n) as [[-> _]|[-> _]]
  end; reflexivity.
Qed.

(** The fields that each stage leaves alone. *)
Lemma moveX_cases (deltaTime : Q) (walls : list BoundingBox.t) (p1 : t) :
  moveX deltaTime walls p1
  = set_position
      (Vector2.mk (Vector2.x (position p1) + Vector2.x (velocity p1) * deltaTime)
                  (Vector2.y (position p1))) p1
  ∨ moveX deltaTime walls p1
    = set_velocity
        (Vector2.mk (inject_Z (direction (reverseDirection p1)) * 50)
                    (Vector2.y (velocity p1)))
        (reverseDirection p1).
Proof.
  unfold moveX. cbv zeta.
  destruct (negb (bool_decide (superPower p1 = Some doorBreaker))); [|by left].
  match goal with
  | |- context [hitWallX ?s ?b walls ?q ?n] =>
      destruct (hitWallX_cases s b walls q n) as [[-> _]|[-> _]]
  end; [by left|right]. by destruct p1 as [[] ? ? ? ? ? ? ? ? ? ?].
Qed.

Lemma moveY_frame (deltaTime : Q) (platforms walls : list BoundingBox.t) (p3 : t) :
  let p5 := moveY deltaTime platforms walls p3 in
  Vector2.x (position p5) = Vector2.x (position p3)
  ∧ Vector2.x (velocity p5) = Vector2.x (velocity p3)
  ∧ direction p5 = direction p3
  ∧ powerCooldown p5 = powerCooldown p3
  ∧ superPower p5 = superPower p3
  ∧ isActive p5 = isActive p3
  ∧ hasReachedGate p5 = hasReachedGate p3
  ∧ isUsingPower p5 = isUsingPower p3
  ∧ color p5 = color p3
  ∧ id p5 = id p3.
Proof. cbv zeta. unfold moveY. cbv zeta. by destruct (_ && _). Qed.

Lemma coolDown_frame (deltaTime : Q) (p5 : t) :
  let p6 := coolDown deltaTime p5 in
  position p6 = position p5
  ∧ velocity p6 = velocity p5
  ∧ direction p6 = direction p5
  ∧ isFalling p6 = isFalling p5
  ∧ superPower p6 = superPower p5
  ∧ isActive p6 = isActive p5
  ∧ hasReachedGate p6 = hasReachedGate p5
  ∧ isUsingPower p6 = isUsingPower p5
  ∧ color p6 = color p5
  ∧ id p6 = id p5.
Proof. cbv zeta. unfold coolDown. by destruct (Qgtb _ _). Qed.

Lemma moveX_frame (deltaTime : Q) (walls : list BoundingBox.t) (p1 : t) :
  let p3 := moveX deltaTime walls p1 in
  Vector2.y (position p3) = Vector2.y (position p1)
  ∧ Vector2.y (velocity p3) = Vector2.y (velocity p1)
  ∧ isFalling p3 = isFalling p1
  ∧ powerCooldown p3 = powerCooldown p1
  ∧ superPower p3 = superPower p1
  ∧ isActive p3 = isActive p1
  ∧ hasReachedGate p3 = hasReachedGate p1
  ∧ isUsingPower p3 = isUsingPower p1
  ∧ color p3 = color p1
  ∧ id p3 = id p1.
Proof. cbv zeta. by destruct (moveX_cases deltaTime walls p1) as [->| ->]. Qed.

(** [update] never writes the power, the two lifecycle flags,
    [isUsingPower], the color or the id. *)
Lemma update_identity (deltaTime : Q) (platforms walls : list BoundingBox.t)
    (target : option Vector2.t) (p : t) :
  let p' := update deltaTime platforms walls target p in
  superPower p' = superPower p
  ∧ isActive p' = isActive p
  ∧ hasReachedGate p' = hasReachedGate p
  ∧ isUsingPower p' = isUsingPower p
  ∧ color p' = color p
  ∧ id p' = id p.
Proof.
  cbv zeta.
  destruct (isActive p) eqn:Ha; [destruct (hasReachedGate p) eqn:Hr|];
    [rewrite update_frozen by auto; by rewrite Ha, Hr
    | |rewrite update_frozen by auto; by rewrite Ha].
  rewrite update_stages by done.
  destruct (coolDown_frame deltaTime
              (moveY deltaTime platforms walls
                 (moveX deltaTime walls (accelerate deltaTime target p))))
    as (_ & _ & _ & _ & -> & -> & -> & -> & -> & ->).
  destruct (moveY_frame deltaTime platforms walls
              (moveX deltaTime walls (accelerate deltaTime target p)))
    as (_ & _ & _ & _ & -> & -> & -> & -> & -> & ->).
  destruct (moveX_frame deltaTime walls (accelerate deltaTime target p))
    as (_ & _ & _ & _ & -> & -> & -> & -> & -> & ->).
  by rewrite <- Ha, <- Hr.
Qed.

End UpdateFacts.


Section Landing.
Import Passenger UpdateStages.

(** With a vertical speed that is not negative, the platform loop stops at
    the first platform that is under the feet, if there is one. *)
Lemma platformLoop_lands (posX feetY : Q) (testBoundsY : BoundingBox.t)
    (platforms : list BoundingBox.t) (v : vertical) (platform : BoundingBox.t) :
  0 <= velocityY v →
  platform ∈ platforms →
  BoundingBox.x platform < posX + width →
  posX < BoundingBox.x platform + BoundingBox.width platform →
  BoundingBox.y platform - 2 <= feetY →
  feetY <= BoundingBox.y platform + 5 →
  ∃ platform',
    platform' ∈ platforms
    ∧ BoundingBox.y platform' - 2 <= feetY
    ∧ feetY <= BoundingBox.y platform' + 5
    ∧ platformLoop posX feetY testBoundsY platforms v
      = mkVertical (BoundingBox.y platform' - height) 0 false true.
Proof.
  intros Hv Hin Hx1 Hx2 Hy1 Hy2.
  induction platforms as [|pl rest IH]; [inversion Hin|].
  cbn [platformLoop].
  destruct (Qgtb (posX + width) (BoundingBox.x pl)
            && Qltb posX (BoundingBox.x pl + BoundingBox.width pl)
            && Qgeb feetY (BoundingBox.y pl - 2)
            && Qleb feetY (BoundingBox.y pl + 5)
            && Qgeb (velocityY v) 0) eqn:Hs.
  - rewrite !andb_true_iff, Qgeb_ge, Qleb_le in Hs.
    exists pl. split_and!; [by left|tauto|tauto|done].
  - assert (Hne : platform ≠ pl).
    { intros ->. rewrite !andb_false_iff, Qgtb_false, Qltb_false in Hs.
      rewrite <- !not_true_iff_false, !Qgeb_ge, Qleb_le in Hs.
      destruct Hs as [[[[Hs|Hs]|Hs]|Hs]|Hs]; try (by apply Hs); lra. }
    apply elem_of_cons in Hin as [Heq|Hin]; [done|].
    assert (Hlt : Qltb (velocityY v) 0 = false) by (by apply Qltb_false).
    rewrite Hlt, andb_false_r.
    destruct (IH Hin) as (pl' & Hin' & ? & ? & Heq).
    exists pl'. split_and!; try done; [by right|].
    by destruct (CollisionSystem.checkAABB _ _).
Qed.

(** The vertical wall loop does nothing when no wall overlaps the box. *)
Lemma wallLoopY_clear (testBoundsY : BoundingBox.t)
    (walls : list BoundingBox.t) (v : vertical) :
  (∀ w, w ∈ walls → CollisionSystem.checkAABB testBoundsY w = false) →
  wallLoopY testBoundsY walls v = v.
Proof.
  revert v. induction walls as [|w rest IH]; intros v Hclear; [done|].
  cbn [wallLoopY].
  assert (Hw : CollisionSystem.checkAABB testBoundsY
                 (BoundingBox.mk (BoundingBox.x w) (BoundingBox.y w)
                    (BoundingBox.width w) (BoundingBox.height w)) = false).
  { destruct w. apply Hclear. by left. }
  rewrite Hw. apply IH. intros w' Hw'. apply Hclear. by right.
Qed.

End Landing.

(** X7.  Landing.  Let an active passenger that has not reached the gate
    have, after gravity, a vertical speed that is not negative.  If after
    the horizontal move some platform is under it, with the feet between
    2 pixels above and 5 pixels below the platform's top, and no wall
    overlaps the passenger's box displaced vertically, then [update] puts
    the passenger on top of a platform: the vertical speed is 0,
    [isFalling] is false, and the passenger is snapped at most 5 pixels
    up or 2 pixels down. *)
Theorem update_lands (deltaTime : Q) (platforms walls : list BoundingBox.t)
    (target : option Vector2.t) (p : Passenger.t) (platform : BoundingBox.t) :
  let p' := Passenger.update deltaTime platforms walls target p in
  let x' := Vector2.x (Passenger.position p') in
  let y := Vector2.y (Passenger.position p) in
  let vy := Vector2.y (Passenger.velocity p) + 500 * deltaTime in
  Passenger.isActive p = true →
  Passenger.hasReachedGate p = false →
  0 <= vy →
  platform ∈ platforms →
  BoundingBox.x platform < x' + Passenger.width →
  x' < BoundingBox.x platform + BoundingBox.width platform →
  BoundingBox.y platform - 2 <= y + Passenger.height →
  y + Passenger.height <= BoundingBox.y platform + 5 →
  (∀ w, w ∈ walls →
     CollisionSystem.checkAABB
       (BoundingBox.mk x' (y + vy * deltaTime) Passenger.width Passenger.height)
       w = false) →
  Vector2.y (Passenger.velocity p') = 0
  ∧ Passenger.isFalling p' = false
  ∧ (∃ platform', platform' ∈ platforms
       ∧ Vector2.y (Passenger.position p')
         = BoundingBox.y platform' - Passenger.height)
  ∧ y - 5 <= Vector2.y (Passenger.position p')
  ∧ Vector2.y (Passenger.position p') <= y + 2.
Proof.
  cbv zeta. intros Ha Hr. rewrite update_stages by done.
  destruct (coolDown_frame deltaTime
              (UpdateStages.moveY deltaTime platforms walls
                 (UpdateStages.moveX deltaTime walls
                    (UpdateStages.accelerate deltaTime target p))))
    as (-> & -> & _ & -> & _).
  pose proof (moveY_frame deltaTime platforms walls
                (UpdateStages.moveX deltaTime walls
                   (UpdateStages.accelerate deltaTime target p))) as (-> & _).
  pose proof (moveX_frame deltaTime walls
                (UpdateStages.accelerate deltaTime target p))
    as (Hy & Hvy & _).
  set (p3 := UpdateStages.moveX deltaTime walls
               (UpdateStages.accelerate deltaTime target p)) in *.
  assert (Hy3 : Vector2.y (Passenger.position p3) = Vector2.y (Passenger.position p)).
  { rewrite Hy. unfold UpdateStages.accelerate. cbv zeta.
    by destruct target. }
  assert (Hvy3 : Vector2.y (Passenger.velocity p3)
                 = Vector2.y (Passenger.velocity p) + 500 * deltaTime).
  { rewrite Hvy. unfold UpdateStages.accelerate. cbv zeta.
    by destruct target. }
  clearbody p3. clear Hy Hvy.
  intros Hv Hin Hx1 Hx2 Hy1 Hy2 Hclear.
  unfold UpdateStages.moveY. cbv zeta. rewrite Hy3, Hvy3.
  destruct (platformLoop_lands
              (Vector2.x (Passenger.position p3))
              (Vector2.y (Passenger.position p) + Passenger.height)
              (BoundingBox.mk (Vector2.x (Passenger.position p3))
                 (Vector2.y (Passenger.position p)
                  + (Vector2.y (Passenger.velocity p) + 500 * deltaTime) * deltaTime)
                 Passenger.width Passenger.height)
              platforms
              (Passenger.mkVertical
                 (Vector2.y (Passenger.position p)
                  + (Vector2.y (Passenger.velocity p) + 500 * deltaTime) * deltaTime)
                 (Vector2.y (Passenger.velocity p) + 500 * deltaTime)
                 (Passenger.isFalling p3) false)
              platform Hv Hin Hx1 Hx2 Hy1 Hy2)
    as (pl' & Hin' & Hy1' & Hy2' & ->).
  rewrite wallLoopY_clear by exact Hclear.
  cbn [Passenger.onPlatform Passenger.velocityY Passenger.falling Passenger.newY
       negb andb
       Passenger.set_isFalling Passenger.set_velocity Passenger.set_position
       Passenger.position Passenger.velocity Passenger.isFalling
       Vector2.x Vector2.y].
  split_and!; try done.
  - by exists pl'.
  - unfold Passenger.height in *. lra.
  - unfold Passenger.height in *. lra.
Qed.

Lemma update_lands_witness :
  Vector2.y (Passenger.position
               (Passenger.update (1 # 10) [ledge] [] None lander)) = 100 - 32
  ∧ Passenger.isFalling (Passenger.update (1 # 10) [ledge] [] None lander) = false.
Proof.
  split; [reflexivity|].
  assert (Hv : 0 <= Vector2.y (Passenger.velocity lander) + 500 * (1 # 10))
    by (vm_compute; discriminate).
  assert (Hin : ledge ∈ [ledge]) by apply list_elem_of_here.
  refine (proj1 (proj2
    (update_lands (1 # 10) [ledge] [] None lander ledge
       eq_refl eq_refl Hv Hin _ _ _ _ _))).
  - reflexivity.
  - reflexivity.
  - vm_compute; discriminate.
  - vm_compute; discriminate.
  - intros w Hw. inversion Hw.
Defined.

(** ** A power is used once *)

Section OneShot.
Import Passenger.

(** The direction after [update] is 1 or -1 if it was. *)
Lemma update_direction (deltaTime : Q) (platforms walls : list BoundingBox.t)
    (target : option Vector2.t) (p : t) :
  (direction p = 1 ∨ direction p = -1)%Z →
  (direction (update deltaTime platforms walls target p) = 1
   ∨ direction (update deltaTime platforms walls target p) = -1)%Z.
Proof.
  intros Hd.
  destruct (isActive p) eqn:Ha; [destruct (hasReachedGate p) eqn:Hr|];
    [by rewrite update_frozen by auto| |by rewrite update_frozen by auto].
  rewrite update_stages by done.
  destruct (coolDown_frame deltaTime
              (UpdateStages.moveY deltaTime platforms walls
                 (UpdateStages.moveX deltaTime walls
                    (UpdateStages.accelerate deltaTime target p))))
    as (_ & _ & -> & _).
  destruct (moveY_frame deltaTime platforms walls
              (UpdateStages.moveX deltaTime walls
                 (UpdateStages.accelerate deltaTime target p)))
    as (_ & _ & -> & _).
  unfold UpdateStages.accelerate. cbv zeta.
  set (dir := match target with Some tgt => _ | None => _ end).
  assert (Hdir : (dir = 1 ∨ dir = -1)%Z).
  { subst dir. destruct target as [tgt|]; [|done].
    destruct (Qgtb _ 10); [|done]. destruct (Qgtb _ 0); auto. }
  clearbody dir.
  match goal with
  | |- context [UpdateStages.moveX deltaTime walls ?q] =>
      destruct (moveX_cases deltaTime walls q) as [-> | ->]
  end; cbn; [done|].
  destruct (decide (dir = 1%Z)); auto.
Qed.

(** What every call other than [stopUsingPower] keeps: the id, a direction
    of 1 or -1, a power in use, an arrival at the gate. *)
Lemma passengerCall_keeps (c : PassengerCall) (p : t) :
  c ≠ StopUsingPower →
  let p' := snd (passengerCall c p) in
  id p' = id p
  ∧ ((direction p = 1 ∨ direction p = -1)%Z →
     (direction p' = 1 ∨ direction p' = -1)%Z)
  ∧ (isUsingPower p = true → isUsingPower p' = true)
  ∧ (hasReachedGate p = true → hasReachedGate p' = true).
Proof.
  intros Hc. cbv zeta. destruct c; cbn [passengerCall snd fst]; try done.
  - unfold checkReachedGate. destruct (hasReachedGate p) eqn:Hr; [done|].
    by destruct (_ && _).
  - destruct (update_identity deltaTime platforms walls target p)
      as (_ & _ & -> & -> & _ & ->).
    split_and!; try done. apply update_direction.
  - unfold activateSuperPower. by destruct (_ || _ || _).
  - split_and!; try done. intros _. cbn.
    destruct (decide (direction p = 1%Z)); auto.
Qed.

Lemma afterCalls_keeps (calls : list PassengerCall) (p : t) :
  StopUsingPower ∉ calls →
  let p' := afterCalls calls p in
  id p' = id p
  ∧ ((direction p = 1 ∨ direction p = -1)%Z →
     (direction p' = 1 ∨ direction p' = -1)%Z)
  ∧ (isUsingPower p = true → isUsingPower p' = true)
  ∧ (hasReachedGate p = true → hasReachedGate p' = true).
Proof.
  cbv zeta. revert p. induction calls as [|c rest IH]; intros p Hn; [done|].
  apply not_elem_of_cons in Hn as [Hc Hn].
  unfold afterCalls. cbn [fold_left]. fold (afterCalls rest (snd (passengerCall c p))).
  destruct (passengerCall_keeps c p) as (Hi & Hd & Hu & Hg); [done|].
  destruct (IH (snd (passengerCall c p)) Hn) as (Hi' & Hd' & Hu' & Hg').
  split_and!; [congruence|auto..].
Qed.

Lemma evolves_keeps (p p' : t) :
  evolves p p' →
  id p' = id p
  ∧ ((direction p = 1 ∨ direction p = -1)%Z →
     (direction p' = 1 ∨ direction p' = -1)%Z)
  ∧ (isUsingPower p = true → isUsingPower p' = true)
  ∧ (hasReachedGate p = true → hasReachedGate p' = true).
Proof. intros (calls & Hn & <-). by apply afterCalls_keeps. Qed.

(** While a power is in use no activation succeeds. *)
Lemma activations_in_use (calls : list PassengerCall) (p : t) :
  StopUsingPower ∉ calls → isUsingPower p = true →
  activations (passengerCalls calls p) = 0%nat.
Proof.
  revert p. induction calls as [|c rest IH]; intros p Hn Hu; [done|].
  apply not_elem_of_cons in Hn as [Hc Hn].
  cbn [passengerCalls]. unfold activations. cbn [List.filter].
  destruct (passengerCall_keeps c p (not_eq_sym Hc)) as (_ & _ & Hu' & _).
  assert (Hno : activated (passengerCall c p) = false).
  { destruct c; try done. unfold activated. cbn [passengerCall fst].
    rewrite activateSuperPower_false; [done|].
    intros (_ & _ & Hu''). congruence. }
  rewrite Hno. apply IH; auto.
Qed.

End OneShot.

(** X8.  A power is used once: in a sequence of calls on a passenger that
    does not contain [stopUsingPower], at most one call of
    [activateSuperPower] returns true, whatever the frames in between do
    to the cooldown; none does when the passenger starts with a power in
    use. *)
Theorem activateSuperPower_once (calls : list PassengerCall) (p : Passenger.t) :
  StopUsingPower ∉ calls →
  (activations (passengerCalls calls p) ≤ 1)%nat
  ∧ (Passenger.isUsingPower p = true →
     activations (passengerCalls calls p) = 0%nat).
Proof.
  intros Hn. split; [|by apply activations_in_use].
  revert p. induction calls as [|c rest IH]; intros p; [cbn; lia|].
  apply not_elem_of_cons in Hn as [Hc Hn].
  cbn [passengerCalls]. unfold activations. cbn [List.filter].
  destruct (activated (passengerCall c p)) eqn:Hact; [|by apply IH].
  cbn [length].
  fold (activations (passengerCalls rest (snd (passengerCall c p)))).
  rewrite activations_in_use; [lia|done|].
  destruct c; try done. unfold activated in Hact. cbn [passengerCall fst snd] in *.
  destruct (Passenger.activateSuperPower p) as [[|] p1] eqn:Ha; [|done].
  by destruct (activateSuperPower_ok_inv _ _ Ha) as (_ & ->).
Qed.

Lemma activateSuperPower_once_witness :
  map fst (passengerCalls smashTwice wallSmasher)
  = [RetPower true; RetVoid; RetPower false]
  ∧ (activations (passengerCalls smashTwice wallSmasher) ≤ 1)%nat.
Proof.
  split; [reflexivity|].
  assert (Hn : StopUsingPower ∉ smashTwice).
  { unfold smashTwice. rewrite !not_elem_of_cons. split_and!; try done.
    apply not_elem_of_nil. }
  exact (proj1 (activateSuperPower_once smashTwice wallSmasher Hn)).
Defined.

(** ** What the engine does to its passengers *)

Section EngineOnPassengers.
Import GameEngine.

Lemma evolves_refl (p : Passenger.t) : evolves p p.
Proof. exists []. split; [apply not_elem_of_nil|done]. Qed.

Lemma evolves_trans (p1 p2 p3 : Passenger.t) :
  evolves p1 p2 → evolves p2 p3 → evolves p1 p3.
Proof.
  intros (c1 & H1 & <-) (c2 & H2 & <-). exists (c1 ++ c2). split.
  - rewrite not_elem_of_app. done.
  - unfold afterCalls. by rewrite fold_left_app.
Qed.

Lemma evolves_call (c : PassengerCall) (p : Passenger.t) :
  c ≠ StopUsingPower → evolves p (snd (passengerCall c p)).
Proof.
  intros Hc. exists [c]. split; [|done].
  rewrite not_elem_of_cons. split; [done|apply not_elem_of_nil].
Qed.

Lemma activateSuperPower_evolves (p : Passenger.t) :
  evolves p (snd (Passenger.activateSuperPower p)).
Proof. by apply (evolves_call ActivateSuperPower). Qed.

Lemma reverseDirection_evolves (p : Passenger.t) :
  evolves p (Passenger.reverseDirection p).
Proof. by apply (evolves_call ReverseDirection). Qed.

Lemma set_isFalling_evolves (b : bool) (p : Passenger.t) :
  evolves p (Passenger.set_isFalling b p).
Proof. by apply (evolves_call (WriteIsFalling b)). Qed.

Lemma set_velocity_evolves (v : Vector2.t) (p : Passenger.t) :
  evolves p (Passenger.set_velocity v p).
Proof. by apply (evolves_call (WriteVelocity v)). Qed.

Lemma set_superPower_evolves (s : option SuperPower) (p : Passenger.t) :
  evolves p (Passenger.set_superPower s p).
Proof. by apply (evolves_call (WriteSuperPower s)). Qed.

Lemma set_color_evolves (c : string) (p : Passenger.t) :
  evolves p (Passenger.set_color c p).
Proof. by apply (evolves_call (WriteColor c)). Qed.

Lemma handleObstacleInteraction_evolves (e : t) (p : Passenger.t) (o : Obstacle.t) :
  evolves p (snd (handleObstacleInteraction e p o)).
Proof.
  unfold handleObstacleInteraction.
  pose proof (activateSuperPower_evolves p) as Hact.
  destruct (Obstacle.type o);
    repeat match goal with
           | |- context [bool_decide ?P] => destruct (bool_decide P)
           | |- context [hasBridge ?o ?e] => destruct (hasBridge o e)
           end;
    try destruct (Passenger.activateSuperPower p) as [[|] p1];
    cbn [fst snd] in *;
    repeat first
      [ assumption
      | apply evolves_refl
      | (eapply evolves_trans; [|apply set_velocity_evolves])
      | (eapply evolves_trans; [|apply set_isFalling_evolves])
      | (eapply evolves_trans; [|apply reverseDirection_evolves]) ].
Qed.

Lemma fold_collideWith_evolves (box : BoundingBox.t) (obs : list Obstacle.t)
    (e : t) (p : Passenger.t) :
  evolves p (snd (fold_left (collideWith box) obs (e, p))).
Proof.
  revert e p. induction obs as [|o rest IH]; intros e p; cbn [fold_left].
  - apply evolves_refl.
  - assert (Hstep : evolves p (snd (collideWith box (e, p) o))).
    { unfold collideWith.
      destruct (Obstacle.type o);
        repeat (match goal with |- context [if ?b then _ else _] => destruct b end);
        first [ apply handleObstacleInteraction_evolves | apply evolves_refl ]. }
    destruct (collideWith box (e, p) o) as [e1 p1].
    eapply evolves_trans; [exact Hstep|apply IH].
Qed.

(** One step of the [forEach] of [update]: the passenger at every index
    is the one that was there, after some calls. *)
Lemma stepPassenger_evolves (dt : Q) (e : t) (i : nat) :
  ∀ j q, passengers e !! j = Some q →
    ∃ q', passengers (stepPassenger dt e i) !! j = Some q' ∧ evolves q q'.
Proof.
  intros j q Hj. unfold stepPassenger.
  destruct (passengers e !! i) as [pi|] eqn:Hi;
    [|exists q; split; [done|apply evolves_refl]].
  pose proof (handleObstacleCollisions_keeps e
                (Passenger.update dt (platforms e) (walls e)
                   (Some (checkInGate e)) pi)) as (_ & Hp & _).
  pose proof (fold_collideWith_evolves
                (Passenger.getBounds
                   (Passenger.update dt (platforms e) (walls e)
                      (Some (checkInGate e)) pi))
                (obstacles e) e
                (Passenger.update dt (platforms e) (walls e)
                   (Some (checkInGate e)) pi)) as Hev.
  fold (handleObstacleCollisions e
          (Passenger.update dt (platforms e) (walls e) (Some (checkInGate e)) pi))
    in Hev.
  destruct (handleObstacleCollisions e _) as [e1 p2]. cbn [fst snd] in *.
  pose proof (evolves_call (CheckReachedGate (checkInGate e1) gateWidth) p2) as Hg.
  cbn [passengerCall snd] in Hg.
  destruct (Passenger.checkReachedGate (checkInGate e1) gateWidth p2)
    as [r p3] eqn:Hc.
  cbn [snd] in Hg. simpl. rewrite Hp.
  destruct (decide (i = j)) as [->|Hne].
  - rewrite Hj in Hi. injection Hi as <-.
    rewrite list_lookup_insert_eq by (by eapply lookup_lt_Some).
    exists p3. split; [done|].
    eapply evolves_trans;
      [exact (evolves_call (Update dt (platforms e) (walls e)
                              (Some (checkInGate e))) q ltac:(done))|].
    eapply evolves_trans; [exact Hev|by apply Hg].
  - rewrite list_lookup_insert_ne by done.
    exists q. split; [done|apply evolves_refl].
Qed.

Lemma fold_stepPassenger_evolves (dt : Q) (indices : list nat) (e : t) :
  ∀ j q, passengers e !! j = Some q →
    ∃ q', passengers (fold_left (stepPassenger dt) indices e) !! j = Some q'
          ∧ evolves q q'.
Proof.
  revert e. induction indices as [|i rest IH]; intros e j q Hj; cbn [fold_left].
  - exists q. split; [done|apply evolves_refl].
  - destruct (stepPassenger_evolves dt e i j q Hj) as (q1 & Hj1 & Hev1).
    destruct (IH _ j q1 Hj1) as (q2 & Hj2 & Hev2).
    exists q2. split; [done|by eapply evolves_trans].
Qed.

Lemma forEachPassenger_evolves (dt : Q) (e : t) :
  ∀ j q, passengers e !! j = Some q →
    ∃ q', passengers (forEachPassenger dt e) !! j = Some q' ∧ evolves q q'.
Proof. unfold forEachPassenger. apply fold_stepPassenger_evolves. Qed.

Lemma update_evolves (now_ms : Z) (dt rand : Q) (e : t) :
  ∀ j q, passengers e !! j = Some q →
    ∃ q', passengers (update now_ms dt rand e) !! j = Some q' ∧ evolves q q'.
Proof.
  intros j q Hj.
  destruct (decide (gameState e = PLAYING)) as [Hp|Hp];
    [|rewrite update_not_playing by done; exists q; split;
      [done|apply evolves_refl]].
  destruct (Qlt_le_dec (elapsed now_ms e) levelTimeLimit) as [Ht|Ht].
  - rewrite (update_in_time _ _ _ _ Hp Ht).
    destruct (checkWinCondition_keeps (simulate dt rand e))
      as (_ & _ & _ & _ & _ & -> & _).
    unfold simulate. apply forEachPassenger_evolves.
    by apply spawnStep_passengers.
  - rewrite (update_timeout _ _ _ _ Hp Ht). exists q.
    split; [done|apply evolves_refl].
Qed.

Lemma tryActivateLoop_evolves (e e1 : t) (p p1 : Passenger.t) (x y : Q)
    (obs : list Obstacle.t) :
  tryActivateLoop e p x y obs = Some (e1, p1) → evolves p p1.
Proof.
  revert p. induction obs as [|o rest IH]; intros p; cbn [tryActivateLoop]; [done|].
  cbv zeta.
  destruct (_ && _); [|apply IH].
  pose proof (activateSuperPower_evolves p) as Hact.
  destruct (Passenger.activateSuperPower p) as [[|] p2]; cbn [snd] in Hact.
  - pose proof (handleObstacleInteraction_evolves e p2 o) as Hint.
    destruct (handleObstacleInteraction e p2 o) as [e2 p3]. cbn [snd] in Hint.
    intros [= <- <-].
    eapply evolves_trans; [exact Hact|].
    eapply evolves_trans; [exact Hint|].
    eapply evolves_trans; [apply set_superPower_evolves|apply set_color_evolves].
  - intros H. eapply evolves_trans; [exact Hact|by apply IH].
Qed.

Lemma insert_evolves (ps : list Passenger.t) (i : nat) (p p' : Passenger.t) :
  ps !! i = Some p → evolves p p' →
  ∀ j q, ps !! j = Some q →
    ∃ q', <[i := p']> ps !! j = Some q' ∧ evolves q q'.
Proof.
  intros Hi Hev j q Hj. destruct (decide (i = j)) as [->|Hne].
  - rewrite list_lookup_insert_eq by (by eapply lookup_lt_Some).
    exists p'. split; [done|]. congruence.
  - rewrite list_lookup_insert_ne by done. exists q.
    split; [done|apply evolves_refl].
Qed.

Lemma tryActivatePowerAtPosition_evolves (i : nat) (x y : Q) (e : t) :
  ∀ j q, passengers e !! j = Some q →
    ∃ q', passengers (tryActivatePowerAtPosition i x y e) !! j = Some q'
          ∧ evolves q q'.
Proof.
  intros j q Hj. unfold tryActivatePowerAtPosition.
  destruct (passengers e !! i) as [p|] eqn:Hi;
    [|exists q; split; [done|apply evolves_refl]].
  destruct (_ || _); [exists q; split; [done|apply evolves_refl]|].
  destruct (tryActivateLoop e p x y (obstacles e)) as [[e1 p1]|] eqn:Hl;
    [|exists q; split; [done|apply evolves_refl]].
  pose proof (tryActivateLoop_evolves _ _ _ _ _ _ _ Hl) as Hev.
  apply tryActivateLoop_spec in Hl as (_ & Hp & _).
  cbn [passengers set_passengers]. rewrite Hp.
  by eapply insert_evolves.
Qed.

Lemma handleClickPlaying_evolves (x y : Q) (e : t) :
  ∀ j q, passengers e !! j = Some q →
    ∃ q', passengers (handleClickPlaying x y e) !! j = Some q' ∧ evolves q q'.
Proof.
  intros j q Hj. unfold handleClickPlaying. cbv zeta.
  assert (Helse : ∃ q', passengers (clickElsewhere x y e) !! j = Some q'
                        ∧ evolves q q').
  { unfold clickElsewhere. destruct (selectedPassenger e) as [i|].
    - by apply tryActivatePowerAtPosition_evolves.
    - exists q. split; [done|apply evolves_refl]. }
  destruct (Qgeb y _).
  { destruct (handleUIClick_spec x y (canvasHeight e - uiHeight) e) as (-> & _).
    exists q. split; [done|apply evolves_refl]. }
  destruct (find (clickedOn x y) (passengers e)) as [[i pi]|].
  { by apply tryActivatePowerAtPosition_evolves. }
  destruct (selectedPower e) as [power|]; [|done].
  case_bool_decide; [|done].
  destruct (find (eligibleNear x y) (passengers e)) as [[i near]|] eqn:Hf; [|done].
  apply find_lookup in Hf as [Hi _].
  cbn [passengers set_selectedPower set_powerCounts set_passengers].
  eapply insert_evolves; [exact Hi| |exact Hj].
  eapply evolves_trans; [apply set_superPower_evolves|apply set_color_evolves].
Qed.

(** Whatever the shell does, either the click starts a level and the
    passenger list is emptied, or every passenger is still at its index,
    after calls that are not [stopUsingPower]. *)
Lemma input_evolves (e : t) (i : Input) :
  passengers (input e i) = []
  ∨ ∀ j q, passengers e !! j = Some q →
      ∃ q', passengers (input e i) !! j = Some q' ∧ evolves q q'.
Proof.
  destruct i as [[now_ms dt rand|now_ms]|x y now_ms config]; cbn [input call].
  - right. apply update_evolves.
  - right. intros j q Hj. exists q. split; [|apply evolves_refl].
    unfold pause. by destruct (gameState e).
  - unfold handleClick, nextLevel. destruct (gameState e).
    + by left.
    + right. apply handleClickPlaying_evolves.
    + right. intros j q Hj. exists q. split; [done|apply evolves_refl].
    + case_bool_decide; [by left|].
      right. intros j q Hj. exists q. split; [done|apply evolves_refl].
    + right. intros j q Hj. exists q. split; [done|apply evolves_refl].
    + right. intros j q Hj. exists q. split; [done|apply evolves_refl].
Qed.

End EngineOnPassengers.
(** X9.  The engine of src/GameEngine.ts never calls [stopUsingPower]:
    whatever the shell does (a frame, the pause key, a click), a
    passenger whose power is in use is, if it is still in the list, one
    whose power is in use, and [activateSuperPower] fails on it.  So a
    passenger activates a power at most once in a level, also when a click
    gives it another one. *)
Theorem power_in_use_stays (e : GameEngine.t) (i : Input) (j : nat)
    (q q' : Passenger.t) :
  GameEngine.passengers e !! j = Some q →
  Passenger.isUsingPower q = true →
  GameEngine.passengers (input e i) !! j = Some q' →
  Passenger.isUsingPower q' = true
  ∧ Passenger.activateSuperPower q' = (false, q').
Proof.
  intros Hj Hu Hj'.
  assert (Hu' : Passenger.isUsingPower q' = true).
  { destruct (input_evolves e i) as [Hnil|Hev].
    - by rewrite Hnil in Hj'.
    - destruct (Hev j q Hj) as (q'' & Hj'' & Hq).
      rewrite Hj' in Hj''. injection Hj'' as <-.
      by apply (evolves_keeps q q'). }
  split; [done|].
  apply activateSuperPower_false. intros (_ & _ & ?). congruence.
Qed.

Lemma power_in_use_stays_witness :
  Passenger.powerCooldown cooled == - (1 # 16)
  ∧ Passenger.isUsingPower cooled = true
  ∧ Passenger.activateSuperPower cooled = (false, cooled).
Proof.
  split; [reflexivity|].
  assert (Hq' : GameEngine.passengers
                  (input coolingEngine (InputCall (CallUpdate 1000 (3 # 32) (1 # 2))))
                !! 0%nat = Some cooled) by (vm_compute; reflexivity).
  exact (power_in_use_stays coolingEngine
           (InputCall (CallUpdate 1000 (3 # 32) (1 # 2))) 0
           coolingPassenger cooled eq_refl eq_refl Hq').
Defined.

(** ** Passengers are numbered *)

Section Numbered.
Import GameEngine.

Lemma numbered_evolves (e e' : t) :
  numbered e →
  length (passengers e') = length (passengers e) →
  passengersSpawned e' = passengersSpawned e →
  (∀ j q, passengers e !! j = Some q →
     ∃ q', passengers e' !! j = Some q' ∧ evolves q q') →
  numbered e'.
Proof.
  intros [Hlen Hid] Hl Hs Hev. split; [congruence|].
  intros j q' Hj'.
  destruct (passengers e !! j) as [q|] eqn:Hj.
  - destruct (Hev j q Hj) as (q'' & Hj'' & Hq).
    rewrite Hj' in Hj''. injection Hj'' as <-.
    destruct (Hid j q Hj) as [Hi Hd].
    destruct (evolves_keeps q q' Hq) as (-> & Hd' & _). auto.
  - apply lookup_ge_None in Hj. apply lookup_lt_Some in Hj'. lia.
Qed.

Lemma numbered_same (e e' : t) :
  numbered e →
  passengers e' = passengers e →
  passengersSpawned e' = passengersSpawned e →
  numbered e'.
Proof. intros [Hlen Hid] Hp Hs. unfold numbered. by rewrite Hp, Hs. Qed.

Lemma spawnStep_numbered (dt rand : Q) (e : t) :
  numbered e → numbered (spawnStep dt rand e).
Proof.
  intros [Hlen Hid]. unfold spawnStep, spawnPassenger.
  case_bool_decide; [|done].
  destruct (Qgeb _ _); [|done].
  cbn [levelConfig set_spawnTimer passengers passengersSpawned].
  destruct (levelConfig e) as [config|]; [|done].
  split; cbn [passengers passengersSpawned set_spawnTimer set_passengersSpawned
              set_passengers].
  - rewrite length_app. cbn [length]. lia.
  - intros j q [Hj|[Hj Hq]]%lookup_app_Some; [by apply Hid|].
    apply list_lookup_singleton_Some in Hq as [Hz <-].
    cbn [Passenger.new Passenger.id Passenger.direction].
    split; [|by left]. do 2 f_equal. lia.
Qed.

Lemma simulate_numbered (dt rand : Q) (e : t) :
  numbered e → numbered (simulate dt rand e).
Proof.
  intros Hn. unfold simulate.
  pose proof (spawnStep_numbered dt rand e Hn) as Hn1.
  set (e1 := spawnStep dt rand e) in *. clearbody e1.
  assert (Hn2 : numbered (buildPlatformsAndWalls e1)) by (by apply (numbered_same e1)).
  set (e2 := buildPlatformsAndWalls e1) in *. clearbody e2.
  destruct (forEachPassenger_keeps dt e2).
  apply (numbered_evolves e2); try done.
  apply forEachPassenger_evolves.
Qed.

Lemma update_numbered (now_ms : Z) (dt rand : Q) (e : t) :
  numbered e → numbered (update now_ms dt rand e).
Proof.
  intros Hn.
  destruct (decide (gameState e = PLAYING)) as [Hp|Hp];
    [|by rewrite update_not_playing].
  destruct (Qlt_le_dec (elapsed now_ms e) levelTimeLimit) as [Ht|Ht].
  - rewrite (update_in_time _ _ _ _ Hp Ht).
    destruct (checkWinCondition_keeps (simulate dt rand e))
      as (_ & _ & _ & _ & _ & Hps & Hsp).
    apply (numbered_same (simulate dt rand e)); [|done..].
    by apply simulate_numbered.
  - rewrite (update_timeout _ _ _ _ Hp Ht). by apply (numbered_same e).
Qed.

Lemma tryActivatePowerAtPosition_length (i : nat) (x y : Q) (e : t) :
  length (passengers (tryActivatePowerAtPosition i x y e)) = length (passengers e).
Proof. by destruct (tryActivatePowerAtPosition_spec i x y e) as [[] _]. Qed.

Lemma handleClickPlaying_length (x y : Q) (e : t) :
  length (passengers (handleClickPlaying x y e)) = length (passengers e).
Proof.
  unfold handleClickPlaying. cbv zeta.
  assert (Helse : length (passengers (clickElsewhere x y e)) = length (passengers e)).
  { unfold clickElsewhere. destruct (selectedPassenger e) as [i|]; [|done].
    apply tryActivatePowerAtPosition_length. }
  destruct (Qgeb y _).
  { by destruct (handleUIClick_spec x y (canvasHeight e - uiHeight) e) as (-> & _). }
  destruct (find (clickedOn x y) (passengers e)) as [[i pi]|].
  { apply (tryActivatePowerAtPosition_length i x y (set_selectedPassenger (Some i) e)). }
  destruct (selectedPower e) as [power|]; [|done].
  case_bool_decide; [|done].
  destruct (find (eligibleNear x y) (passengers e)) as [[i near]|]; [|done].
  cbn [passengers set_selectedPower set_powerCounts set_passengers].
  apply length_insert.
Qed.

Lemma startLevel_numbered (level now_ms : Z) (config : LevelConfig.t) (e : t) :
  numbered (startLevel level now_ms config e).
Proof. split; [done|]. intros j q Hj. done. Qed.

Lemma input_numbered (e : t) (i : Input) : numbered e → numbered (input e i).
Proof.
  intros Hn. destruct i as [[now_ms dt rand|now_ms]|x y now_ms config];
    cbn [input call].
  - by apply update_numbered.
  - apply (numbered_same e); [done|..]; unfold pause; by destruct (gameState e).
  - unfold handleClick, nextLevel. destruct (gameState e).
    + apply startLevel_numbered.
    + apply (numbered_evolves e); [done|..].
      * apply handleClickPlaying_length.
      * exact (co_passengersSpawned bridge _ _
                 (handleClickPlaying_outcome bridge x y e)).
      * apply handleClickPlaying_evolves.
    + done.
    + case_bool_decide; [apply startLevel_numbered|done].
    + by apply (numbered_same e).
    + by apply (numbered_same e).
Qed.

End Numbered.

(** X10.  In every state that the engine reaches from its construction,
    whatever the shell does, the passenger list has as many elements as
    [passengersSpawned] says, the passenger at index [j] has the id
    [passenger_j] and a direction of 1 or -1, and no two passengers have
    the same id. *)
Theorem passengers_numbered (inputs : list Input) (width height : Q) :
  let e := runInputs inputs (GameEngine.new width height) in
  Z.of_nat (length (GameEngine.passengers e)) = GameEngine.passengersSpawned e
  ∧ (∀ j q, GameEngine.passengers e !! j = Some q →
       Passenger.id q = "passenger_" +:+ pretty (Z.of_nat j)
       ∧ (Passenger.direction q = 1 ∨ Passenger.direction q = -1)%Z)
  ∧ NoDup (map Passenger.id (GameEngine.passengers e)).
Proof.
  cbv zeta.
  assert (Hn : numbered (runInputs inputs (GameEngine.new width height))).
  { unfold runInputs.
    assert (H0 : numbered (GameEngine.new width height)).
    { split; [done|]. intros j q Hj. done. }
    revert H0. generalize (GameEngine.new width height).
    induction inputs as [|i rest IH]; intros e He; cbn [fold_left]; [done|].
    apply IH. by apply input_numbered. }
  destruct Hn as [Hlen Hid]. split_and!; [done..|].
  apply NoDup_alt. intros j1 j2 s H1 H2.
  apply list_lookup_fmap_Some in H1 as (q1 & -> & Hq1).
  apply list_lookup_fmap_Some in H2 as (q2 & Heq & Hq2).
  destruct (Hid _ _ Hq1) as [Hi1 _]. destruct (Hid _ _ Hq2) as [Hi2 _].
  rewrite Hi1, Hi2 in Heq.
  apply (inj (String.append "passenger_")) in Heq.
  apply (inj pretty) in Heq. lia.
Qed.

(** ** The level geometry *)

Section Geometry.
Import GameEngine.

(** An interaction with a passenger that cannot activate a power leaves
    the engine as it is, and the passenger still cannot. *)
Lemma handleObstacleInteraction_inert (e : t) (p : Passenger.t) (o : Obstacle.t) :
  ¬ canActivate p →
  fst (handleObstacleInteraction e p o) = e
  ∧ ¬ canActivate (snd (handleObstacleInteraction e p o)).
Proof.
  intros Hn. unfold handleObstacleInteraction.
  rewrite (activateSuperPower_false p Hn).
  destruct (Obstacle.type o);
    repeat match goal with
           | |- context [bool_decide ?P] => destruct (bool_decide P)
           | |- context [hasBridge ?o ?e] => destruct (hasBridge o e)
           end;
    done.
Qed.

Lemma fold_collideWith_inert (box : BoundingBox.t) (obs : list Obstacle.t)
    (e : t) (p : Passenger.t) :
  ¬ canActivate p →
  fst (fold_left (collideWith box) obs (e, p)) = e.
Proof.
  revert p. induction obs as [|o rest IH]; intros p Hn; cbn [fold_left]; [done|].
  assert (Hstep : fst (collideWith box (e, p) o) = e
                  ∧ ¬ canActivate (snd (collideWith box (e, p) o))).
  { unfold collideWith.
    destruct (Obstacle.type o);
      repeat (match goal with |- context [if ?b then _ else _] => destruct b end);
      first [ by apply handleObstacleInteraction_inert | done ]. }
  destruct (collideWith box (e, p) o) as [e1 p1]. cbn [fst snd] in Hstep.
  destruct Hstep as [-> Hn1]. by apply IH.
Qed.

Lemma filter_sublist {A} (f : A → bool) (l : list A) :
  List.filter f l `sublist_of` l.
Proof.
  induction l as [|a l IH]; cbn [List.filter]; [done|].
  destruct (f a); by constructor.
Qed.

(** What an interaction does to the level: it writes neither the
    platforms nor the walls, and it removes obstacles only. *)
Lemma handleObstacleInteraction_geometry (e : t) (p : Passenger.t) (o : Obstacle.t) :
  platforms (fst (handleObstacleInteraction e p o)) = platforms e
  ∧ walls (fst (handleObstacleInteraction e p o)) = walls e
  ∧ obstacles (fst (handleObstacleInteraction e p o)) `sublist_of` obstacles e.
Proof.
  unfold handleObstacleInteraction.
  destruct (Obstacle.type o); interaction_cases;
    cbn [fst platforms walls obstacles removeObstacle set_obstacles set_bridges];
    split_and!; first [done | apply filter_sublist].
Qed.

Lemma fold_collideWith_geometry (box : BoundingBox.t) (obs : list Obstacle.t)
    (e : t) (p : Passenger.t) :
  platforms (fst (fold_left (collideWith box) obs (e, p))) = platforms e
  ∧ walls (fst (fold_left (collideWith box) obs (e, p))) = walls e
  ∧ obstacles (fst (fold_left (collideWith box) obs (e, p))) `sublist_of` obstacles e.
Proof.
  revert e p. induction obs as [|o rest IH]; intros e p; cbn [fold_left]; [done|].
  assert (Hstep : platforms (fst (collideWith box (e, p) o)) = platforms e
                  ∧ walls (fst (collideWith box (e, p) o)) = walls e
                  ∧ obstacles (fst (collideWith box (e, p) o)) `sublist_of` obstacles e).
  { unfold collideWith.
    destruct (Obstacle.type o);
      repeat (match goal with |- context [if ?b then _ else _] => destruct b end);
      first [ apply handleObstacleInteraction_geometry | done ]. }
  destruct (collideWith box (e, p) o) as [e1 p1]. cbn [fst] in Hstep.
  destruct Hstep as (<- & <- & Hs). destruct (IH e1 p1) as (-> & -> & Hs').
  split_and!; [done..|by etrans].
Qed.

Lemma stepPassenger_geometry (dt : Q) (e : t) (i : nat) :
  platforms (stepPassenger dt e i) = platforms e
  ∧ walls (stepPassenger dt e i) = walls e
  ∧ obstacles (stepPassenger dt e i) `sublist_of` obstacles e.
Proof.
  unfold stepPassenger. destruct (passengers e !! i) as [p|]; [|done].
  pose proof (fold_collideWith_geometry
                (Passenger.getBounds
                   (Passenger.update dt (platforms e) (walls e)
                      (Some (checkInGate e)) p))
                (obstacles e) e
                (Passenger.update dt (platforms e) (walls e)
                   (Some (checkInGate e)) p)) as Hg.
  fold (handleObstacleCollisions e
          (Passenger.update dt (platforms e) (walls e) (Some (checkInGate e)) p))
    in Hg.
  destruct (handleObstacleCollisions e _) as [e1 p2]. cbn [fst] in Hg.
  by destruct (Passenger.checkReachedGate _ _ p2) as [r p3].
Qed.

Lemma fold_stepPassenger_geometry (dt : Q) (indices : list nat) (e : t) :
  platforms (fold_left (stepPassenger dt) indices e) = platforms e
  ∧ walls (fold_left (stepPassenger dt) indices e) = walls e
  ∧ obstacles (fold_left (stepPassenger dt) indices e) `sublist_of` obstacles e.
Proof.
  revert e. induction indices as [|i rest IH]; intros e; cbn [fold_left]; [done|].
  destruct (stepPassenger_geometry dt e i) as (<- & <- & Hs).
  destruct (IH (stepPassenger dt e i)) as (-> & -> & Hs').
  split_and!; [done..|by etrans].
Qed.

Lemma spawnStep_geometry (dt rand : Q) (e : t) :
  obstacles (spawnStep dt rand e) = obstacles e
  ∧ bridges (spawnStep dt rand e) = bridges e
  ∧ groundLevel (spawnStep dt rand e) = groundLevel e
  ∧ canvasWidth (spawnStep dt rand e) = canvasWidth e.
Proof.
  unfold spawnStep, spawnPassenger. case_bool_decide; [|done].
  destruct (Qgeb _ _); [|done].
  cbn [levelConfig set_spawnTimer]. by destruct (levelConfig e).
Qed.

Lemma checkWinCondition_geometry (e : t) :
  platforms (checkWinCondition e) = platforms e
  ∧ walls (checkWinCondition e) = walls e
  ∧ obstacles (checkWinCondition e) = obstacles e.
Proof.
  unfold checkWinCondition. destruct (allResolved e); [|done].
  repeat case_bool_decide; done.
Qed.

(** The loop of [tryActivatePowerAtPosition] has activated the power
    before it calls [handleObstacleInteraction], whose own activation
    then fails: the engine is only deselected. *)
Lemma tryActivateLoop_engine (e e1 : t) (p p1 : Passenger.t) (x y : Q)
    (obs : list Obstacle.t) :
  tryActivateLoop e p x y obs = Some (e1, p1) →
  e1 = set_selectedPassenger None e.
Proof.
  revert p. induction obs as [|o rest IH]; intros p; cbn [tryActivateLoop]; [done|].
  cbv zeta. destruct (_ && _); [|apply IH].
  destruct (Passenger.activateSuperPower p) as [[|] p2] eqn:Ha; [|apply IH].
  apply activateSuperPower_ok_inv in Ha as [_ ->].
  match goal with
  | |- context [handleObstacleInteraction e ?q o] =>
      destruct (handleObstacleInteraction_inert e q o) as [He _];
        [intros (_ & _ & ?); done|];
      destruct (handleObstacleInteraction e q o) as [e2 p3]
  end.
  cbn [fst] in He. subst e2. by intros [= <- <-].
Qed.

Lemma tryActivatePowerAtPosition_geometry (i : nat) (x y : Q) (e : t) :
  obstacles (tryActivatePowerAtPosition i x y e) = obstacles e
  ∧ bridges (tryActivatePowerAtPosition i x y e) = bridges e
  ∧ platforms (tryActivatePowerAtPosition i x y e) = platforms e
  ∧ walls (tryActivatePowerAtPosition i x y e) = walls e.
Proof.
  unfold tryActivatePowerAtPosition.
  destruct (passengers e !! i) as [p|]; [|done].
  destruct (_ || _); [done|].
  destruct (tryActivateLoop e p x y (obstacles e)) as [[e1 p1]|] eqn:Hl; [|done].
  by apply tryActivateLoop_engine in Hl as ->.
Qed.

Lemma handleClickPlaying_geometry (x y : Q) (e : t) :
  obstacles (handleClickPlaying x y e) = obstacles e
  ∧ bridges (handleClickPlaying x y e) = bridges e
  ∧ platforms (handleClickPlaying x y e) = platforms e
  ∧ walls (handleClickPlaying x y e) = walls e.
Proof.
  unfold handleClickPlaying. cbv zeta.
  assert (Helse : obstacles (clickElsewhere x y e) = obstacles e
                  ∧ bridges (clickElsewhere x y e) = bridges e
                  ∧ platforms (clickElsewhere x y e) = platforms e
                  ∧ walls (clickElsewhere x y e) = walls e).
  { unfold clickElsewhere. destruct (selectedPassenger e) as [i|]; [|done].
    apply tryActivatePowerAtPosition_geometry. }
  destruct (Qgeb y _).
  { unfold handleUIClick. cbv zeta.
    repeat match goal with
           | |- context [if ?b then _ else _] => destruct b
           end; done. }
  destruct (find (clickedOn x y) (passengers e)) as [[i pi]|].
  { apply (tryActivatePowerAtPosition_geometry i x y (set_selectedPassenger (Some i) e)). }
  destruct (selectedPower e) as [power|]; [|done].
  case_bool_decide; [|done].
  by destruct (find (eligibleNear x y) (passengers e)) as [[i near]|].
Qed.

End Geometry.

(** ** Contact with a wall *)

Section WallContact.
Import GameEngine.



(** In dist/GameEngine.js the same contact, by a wall smasher whose
    activation succeeds on a wall that is not a platform, removes the
    obstacle and the wall, strips the power and keeps the direction. *)
Lemma dist_handleObstacleInteraction_wall (e : t) (p : Passenger.t) (o : Obstacle.t) :
  Obstacle.type o = wall →
  Obstacle.width o <= Obstacle.height o →
  Passenger.superPower p = Some doorBreaker →
  fst (Passenger.activateSuperPower p) = true →
  let r := DistGameEngine.handleObstacleInteraction e p o in
  (∀ o', o' ∈ obstacles (fst r) → Obstacle.id o' ≠ Obstacle.id o)
  ∧ (obstacles (fst r) ⊆ obstacles e)
  ∧ (Obstacle.bounds o ∉ walls (fst r))
  ∧ (walls (fst r) ⊆ walls e)
  ∧ Passenger.superPower (snd r) = None
  ∧ Passenger.isUsingPower (snd r) = false
  ∧ Passenger.direction (snd r) = Passenger.direction p.
Proof.
  intros Hty Hw Hpow Hact r. unfold r, DistGameEngine.handleObstacleInteraction.
  rewrite Hty, bool_decide_eq_true_2 by done.
  destruct (Passenger.activateSuperPower p) as [ok p1] eqn:Ha. simpl in Hact.
  subst ok. apply activateSuperPower_ok_inv in Ha as [_ ->].
  rewrite (proj2 (Qgtb_false _ _) Hw). simpl.
  repeat split.
  - intros o' Hin. apply list_elem_of_In, filter_In in Hin as [_ Hne].
    apply negb_true_iff, String.eqb_neq in Hne. done.
  - intros o' Hin. apply list_elem_of_In, filter_In in Hin as [Hin _].
    by apply list_elem_of_In.
  - intros Hin. apply list_elem_of_In, filter_In in Hin as [_ Hne].
    simpl in Hne. by rewrite !Qeqb_refl in Hne.
  - intros w Hin. apply list_elem_of_In, filter_In in Hin as [Hin _].
    by apply list_elem_of_In.
Qed.








End WallContact.




(** The compiled engine at the same contact: the wall is gone, the power
    is stripped and the direction is kept. *)
Lemma dist_wall_contact_breaks :
  let r := DistGameEngine.handleObstacleInteraction demoEngine wallSmasher wall_0 in
  (wall_0 ∉ GameEngine.obstacles (fst r))
  ∧ (Obstacle.bounds wall_0 ∉ GameEngine.walls (fst r))
  ∧ Passenger.superPower (snd r) = None
  ∧ Passenger.direction (snd r) = 1%Z.
Proof.
  destruct (dist_handleObstacleInteraction_wall demoEngine wallSmasher wall_0)
    as (Hid & _ & Hw & _ & Hp & _ & Hd); try reflexivity.
  { vm_compute. discriminate. }
  cbv zeta. repeat split; try done.
  intros Hin. by apply Hid in Hin.
Qed.


(** X11.  A passenger that cannot activate a power (it has none, its
    cooldown is running or a power is in use) changes nothing in the
    engine when [handleObstacleCollisions] runs on it: no obstacle is
    removed and no bridge is built. *)
Theorem handleObstacleCollisions_inert (e : GameEngine.t) (p : Passenger.t) :
  ¬ canActivate p →
  fst (GameEngine.handleObstacleCollisions e p) = e.
Proof.
  intros Hn. unfold GameEngine.handleObstacleCollisions.
  by apply fold_collideWith_inert.
Qed.

Lemma handleObstacleCollisions_inert_witness :
  CollisionSystem.checkAABB (Passenger.getBounds doorKnocker)
    (BoundingBox.mk 350 200 20 60) = true
  ∧ Passenger.direction (snd (GameEngine.handleObstacleCollisions demoEngine doorKnocker))
    = (-1)%Z
  ∧ fst (GameEngine.handleObstacleCollisions demoEngine doorKnocker) = demoEngine.
Proof.
  split_and!; [reflexivity..|].
  apply (handleObstacleCollisions_inert demoEngine doorKnocker).
  intros ([s Hs] & _). discriminate Hs.
Defined.

(** X12.  A click while PLAYING never changes the level: the obstacles,
    the bridges, the platforms and the walls after [handleClick] are those
    before.  In particular the manual activation of
    [tryActivatePowerAtPosition] removes no obstacle and builds no bridge,
    because it activates the power itself before it calls
    [handleObstacleInteraction], whose own call of [activateSuperPower]
    then fails. *)
Theorem handleClick_keeps_geometry (x y : Q) (now_ms : Z)
    (config : LevelConfig.t) (e : GameEngine.t) :
  GameEngine.gameState e = PLAYING →
  let e' := GameEngine.handleClick x y now_ms config e in
  GameEngine.obstacles e' = GameEngine.obstacles e
  ∧ GameEngine.bridges e' = GameEngine.bridges e
  ∧ GameEngine.platforms e' = GameEngine.platforms e
  ∧ GameEngine.walls e' = GameEngine.walls e.
Proof.
  intros Hp. cbv zeta. unfold GameEngine.handleClick. rewrite Hp.
  apply handleClickPlaying_geometry.
Qed.

(** A click on the wall smasher of [smasherEngine], 100 pixels from the
    door [special_0]: the power is activated and taken away, the door
    stays. *)
Lemma handleClick_keeps_geometry_witness :
  Passenger.superPower <$> GameEngine.passengers smasherEngine = [Some doorBreaker]
  ∧ Passenger.superPower
      <$> GameEngine.passengers (GameEngine.handleClick 390 325 1000 demoLevel smasherEngine)
    = [None]
  ∧ GameEngine.obstacles (GameEngine.handleClick 390 325 1000 demoLevel smasherEngine)
    = GameEngine.obstacles smasherEngine.
Proof.
  split_and!; [reflexivity..|].
  exact (proj1 (handleClick_keeps_geometry 390 325 1000 demoLevel smasherEngine eq_refl)).
Defined.

(** X13.  A frame while PLAYING and in time rebuilds the platforms and
    the walls from the obstacles and bridges as they are before the
    frame, and removes obstacles only: the obstacles after the frame are
    a sublist of those before, and an obstacle that the frame removes is
    still among the walls or platforms until the next frame. *)
Theorem update_rebuilds_geometry (now_ms : Z) (dt rand : Q) (e : GameEngine.t) :
  GameEngine.gameState e = PLAYING →
  GameEngine.elapsed now_ms e < GameEngine.levelTimeLimit →
  let e' := GameEngine.update now_ms dt rand e in
  GameEngine.walls e' = GameEngine.obstacleWalls (GameEngine.obstacles e)
  ∧ GameEngine.platforms e'
    = GameEngine.obstaclePlatforms (GameEngine.obstacles e)
      ++ [BoundingBox.mk 0 (GameEngine.groundLevel e) (GameEngine.canvasWidth e) 20]
      ++ map (fun b => BoundingBox.mk (Bridge.x b) (Bridge.y b) (Bridge.width b) 10)
             (GameEngine.bridges e)
  ∧ GameEngine.obstacles e' `sublist_of` GameEngine.obstacles e.
Proof.
  intros Hp Ht. cbv zeta. rewrite (update_in_time _ _ _ _ Hp Ht).
  destruct (checkWinCondition_geometry (simulate dt rand e)) as (-> & -> & ->).
  unfold simulate, GameEngine.forEachPassenger.
  destruct (spawnStep_geometry dt rand e) as (Ho & Hb & Hg & Hw).
  match goal with
  | |- context [fold_left (GameEngine.stepPassenger dt) ?l ?e2] =>
      destruct (fold_stepPassenger_geometry dt l e2) as (-> & -> & Hs)
  end.
  cbn [GameEngine.buildPlatformsAndWalls GameEngine.walls GameEngine.platforms
       GameEngine.obstacles GameEngine.set_walls GameEngine.set_platforms] in *.
  by rewrite Ho, Hb, Hg, Hw in *.
Qed.

(** A frame of [bridgeEngine]: the builder bridges [gap_0], which leaves
    the obstacles; the platforms are still those built before the frame,
    without the new bridge. *)
Lemma update_rebuilds_geometry_witness :
  length (GameEngine.obstacles bridgeEngine) = 8%nat
  ∧ length (GameEngine.obstacles (GameEngine.update 1000 (1 # 60) (1 # 2) bridgeEngine))
    = 7%nat
  ∧ length (GameEngine.bridges (GameEngine.update 1000 (1 # 60) (1 # 2) bridgeEngine))
    = 2%nat
  ∧ GameEngine.platforms (GameEngine.update 1000 (1 # 60) (1 # 2) bridgeEngine)
    = GameEngine.obstaclePlatforms (GameEngine.obstacles bridgeEngine)
      ++ [BoundingBox.mk 0 (GameEngine.groundLevel bridgeEngine)
            (GameEngine.canvasWidth bridgeEngine) 20]
      ++ map (fun b => BoundingBox.mk (Bridge.x b) (Bridge.y b) (Bridge.width b) 10)
             [oldBridge].
Proof.
  split_and!; [reflexivity..|].
  assert (Ht : GameEngine.elapsed 1000 bridgeEngine < GameEngine.levelTimeLimit)
    by (vm_compute; reflexivity).
  exact (proj1 (proj2
    (update_rebuilds_geometry 1000 (1 # 60) (1 # 2) bridgeEngine eq_refl Ht))).
Defined.

(** ** Levels and game states *)

Section Levels.
Import GameEngine.

Lemma simulate_levelConfig (dt rand : Q) (e : t) :
  levelConfig (simulate dt rand e) = levelConfig e.
Proof.
  unfold simulate.
  rewrite (kc_levelConfig _ _ (forEachPassenger_keeps _ _)).
  rewrite (kc_levelConfig _ _ (buildPlatformsAndWalls_keeps _)).
  unfold spawnStep, spawnPassenger. case_bool_decide; [|done].
  destruct (Qgeb _ _); [|done].
  cbn [levelConfig set_spawnTimer]. by destruct (levelConfig e) eqn:Hc.
Qed.

Lemma checkWinCondition_levelConfig (e : t) :
  levelConfig (checkWinCondition e) = levelConfig e.
Proof.
  unfold checkWinCondition. destruct (allResolved e); [|done].
  repeat case_bool_decide; done.
Qed.

Lemma update_levelInvariant (now_ms : Z) (dt rand : Q) (e : t) :
  levelInvariant e → levelInvariant (update now_ms dt rand e).
Proof.
  intros (Hl & Hv & Hc & Hcfg).
  destruct (decide (gameState e = PLAYING)) as [Hp|Hp];
    [|by rewrite update_not_playing].
  destruct (Qlt_le_dec (elapsed now_ms e) levelTimeLimit) as [Ht|Ht].
  - rewrite (update_in_time _ _ _ _ Hp Ht).
    pose proof (simulate_keeps dt rand e) as [Hg Hlv _ _ _ _].
    pose proof (simulate_levelConfig dt rand e) as Hcf.
    pose proof (checkWinCondition_levelConfig (simulate dt rand e)) as Hcf'.
    destruct (checkWinCondition_keeps (simulate dt rand e)) as (Hlv' & _).
    unfold levelInvariant. rewrite Hlv', Hlv, Hcf', Hcf.
    split; [done|]. split; [|split].
    + unfold checkWinCondition. destruct (allResolved _); [|congruence].
      repeat case_bool_decide; cbn [gameState set_gameState]; try done.
      intros _. lia.
    + unfold checkWinCondition. destruct (allResolved _); [|congruence].
      repeat case_bool_decide; cbn [gameState set_gameState]; try done.
      intros _. lia.
    + intros _. apply Hcfg. congruence.
  - rewrite (update_timeout _ _ _ _ Hp Ht).
    split; [done|]. split; [done|]. split; [done|].
    intros _. apply Hcfg. by rewrite Hp.
Qed.

Lemma startLevel_levelInvariant (level now_ms : Z) (config : LevelConfig.t) (e : t) :
  (1 ≤ level ≤ 10)%Z → levelInvariant (startLevel level now_ms config e).
Proof.
  intros Hl. split; [done|]. split; [done|]. split; [done|].
  intros _. by exists config.
Qed.

Lemma handleClickPlaying_level (x y : Q) (e : t) :
  currentLevel (handleClickPlaying x y e) = currentLevel e
  ∧ levelConfig (handleClickPlaying x y e) = levelConfig e.
Proof.
  unfold handleClickPlaying. cbv zeta.
  assert (Htry : ∀ i e0, currentLevel (tryActivatePowerAtPosition i x y e0) = currentLevel e0
                         ∧ levelConfig (tryActivatePowerAtPosition i x y e0) = levelConfig e0).
  { intros i e0. by destruct (tryActivatePowerAtPosition_spec i x y e0) as [[] _]. }
  assert (Helse : currentLevel (clickElsewhere x y e) = currentLevel e
                  ∧ levelConfig (clickElsewhere x y e) = levelConfig e).
  { unfold clickElsewhere. destruct (selectedPassenger e) as [i|]; [|done].
    apply Htry. }
  destruct (Qgeb y _).
  { unfold handleUIClick. cbv zeta.
    repeat match goal with
           | |- context [if ?b then _ else _] => destruct b
           end; done. }
  destruct (find (clickedOn x y) (passengers e)) as [[i pi]|].
  { apply (Htry i (set_selectedPassenger (Some i) e)). }
  destruct (selectedPower e) as [power|]; [|done].
  case_bool_decide; [|done].
  by destruct (find (eligibleNear x y) (passengers e)) as [[i near]|].
Qed.

Lemma input_levelInvariant (e : t) (i : Input) :
  levelInvariant e → levelInvariant (input e i).
Proof.
  intros Hinv. destruct i as [[now_ms dt rand|now_ms]|x y now_ms config];
    cbn [input call].
  - by apply update_levelInvariant.
  - unfold pause. destruct (gameState e) eqn:Hg; try exact Hinv;
      destruct Hinv as (Hl & Hv & Hc & Hcfg);
      (split; [done|]; split; [done|]; split; [done|]);
      intros _; apply Hcfg; by rewrite Hg.
  - unfold handleClick, nextLevel.
    destruct (gameState e) eqn:Hg; try exact Hinv.
    + by apply startLevel_levelInvariant.
    + destruct Hinv as (Hl & Hv & Hc & Hcfg).
      destruct (handleClickPlaying_level x y e) as [Hlv Hcf].
      pose proof (co_gameState bridge _ _ (handleClickPlaying_outcome bridge x y e))
        as Hgs.
      unfold levelInvariant. rewrite Hlv, Hcf, Hgs, Hg.
      split; [done|]. split; [done|]. split; [done|].
      intros _. apply Hcfg. by rewrite Hg.
    + destruct Hinv as (Hl & Hv & Hc & Hcfg). specialize (Hc Hg).
      rewrite bool_decide_eq_true_2 by done.
      apply startLevel_levelInvariant. lia.
    + destruct Hinv as (Hl & Hv & Hc & Hcfg).
      split; [done|]. split; [done|]. split; done.
    + destruct Hinv as (Hl & Hv & Hc & Hcfg).
      split; [done|]. split; [done|]. split; done.
Qed.

End Levels.

(** X14.  In every state that the engine reaches from its construction,
    whatever the shell does, the level is between 1 and 10; VICTORY is
    only shown on level 10 and LEVEL_COMPLETE only below it, so that the
    click on the LEVEL_COMPLETE screen always starts the next level; and
    outside the menu a level configuration is loaded, so that
    [spawnPassenger] never returns early. *)
Theorem level_in_range (inputs : list Input) (width height : Q) :
  let e := runInputs inputs (GameEngine.new width height) in
  (1 ≤ GameEngine.currentLevel e ≤ 10)%Z
  ∧ (GameEngine.gameState e = VICTORY → GameEngine.currentLevel e = 10%Z)
  ∧ (GameEngine.gameState e = LEVEL_COMPLETE →
     ∀ x y now_ms config,
       GameEngine.gameState (GameEngine.handleClick x y now_ms config e) = PLAYING
       ∧ GameEngine.currentLevel (GameEngine.handleClick x y now_ms config e)
         = (GameEngine.currentLevel e + 1)%Z)
  ∧ (GameEngine.gameState e ≠ MENU → is_Some (GameEngine.levelConfig e)).
Proof.
  cbv zeta.
  assert (Hinv : levelInvariant (runInputs inputs (GameEngine.new width height))).
  { unfold runInputs.
    assert (H0 : levelInvariant (GameEngine.new width height)) by done.
    revert H0. generalize (GameEngine.new width height).
    induction inputs as [|i rest IH]; intros e He; cbn [fold_left]; [done|].
    apply IH. by apply input_levelInvariant. }
  destruct Hinv as (Hl & Hv & Hc & Hcfg).
  split; [exact Hl|]. split; [exact Hv|]. split; [|exact Hcfg].
  intros Hg x y now_ms config. specialize (Hc Hg).
  unfold GameEngine.handleClick, GameEngine.nextLevel. rewrite Hg.
  by rewrite bool_decide_eq_true_2 by done.
Qed.

(** ** Pausing *)

Section Pausing.
Import GameEngine.

Lemma input_paused (e : t) (i : Input) :
  gameState e = PAUSED → isPauseKey i = false → input e i = e.
Proof.
  intros Hg Hi. destruct i as [[now_ms dt rand|now_ms]|x y now_ms config];
    cbn [input call]; [|done|].
  - apply update_not_playing. by rewrite Hg.
  - unfold handleClick. by rewrite Hg.
Qed.

Lemma runInputs_paused (inputs : list Input) (e : t) :
  gameState e = PAUSED → forallb (fun i => negb (isPauseKey i)) inputs = true →
  runInputs inputs e = e.
Proof.
  intros Hg. unfold runInputs. induction inputs as [|i rest IH]; [done|].
  cbn [forallb fold_left]. intros [Hi Hrest]%andb_true_iff.
  apply negb_true_iff in Hi. rewrite input_paused by done. by apply IH.
Qed.

End Pausing.

(** X15.  Pausing is a round trip: from a PLAYING state, the pause key,
    then any frames and clicks, then the pause key again give back the
    state before the first key press, whatever the clocks say.  Nothing
    of the engine records the pause. *)
Theorem pause_round_trip (e : GameEngine.t) (between : list Input)
    (t1 t2 : Z) :
  GameEngine.gameState e = PLAYING →
  forallb (fun i => negb (isPauseKey i)) between = true →
  runInputs (InputCall (CallPause t1) :: between ++ [InputCall (CallPause t2)]) e
  = e.
Proof.
  intros Hg Hb. unfold runInputs. cbn [fold_left input call].
  rewrite fold_left_app. cbn [fold_left input call].
  assert (Hp : GameEngine.gameState (GameEngine.pause e) = PAUSED).
  { unfold GameEngine.pause. by rewrite Hg. }
  pose proof (runInputs_paused between (GameEngine.pause e) Hp Hb) as Hrun.
  unfold runInputs in Hrun. rewrite Hrun.
  unfold GameEngine.pause. rewrite Hg. cbn [GameEngine.gameState GameEngine.set_gameState].
  destruct e. cbn in *. by subst.
Qed.

Lemma pause_round_trip_witness :
  GameEngine.gameState (runInputs (InputCall (CallPause 2000) :: whilePaused) smasherEngine)
  = PAUSED
  ∧ runInputs (InputCall (CallPause 2000) :: whilePaused ++ [InputCall (CallPause 500000)])
      smasherEngine
    = smasherEngine.
Proof.
  split; [reflexivity|].
  exact (pause_round_trip smasherEngine whilePaused 2000 500000 eq_refl eq_refl).
Defined.

(** ** Spawning *)

Section Spawning.
Import GameEngine.

(** The [forEach] of [update] does not touch the spawn timer. *)
Lemma handleObstacleInteraction_spawnTimer (e : t) (p : Passenger.t) (o : Obstacle.t) :
  spawnTimer (fst (handleObstacleInteraction e p o)) = spawnTimer e.
Proof.
  unfold handleObstacleInteraction.
  destruct (Obstacle.type o); interaction_cases; done.
Qed.

Lemma fold_collideWith_spawnTimer (box : BoundingBox.t) (obs : list Obstacle.t)
    (e : t) (p : Passenger.t) :
  spawnTimer (fst (fold_left (collideWith box) obs (e, p))) = spawnTimer e.
Proof.
  revert e p. induction obs as [|o rest IH]; intros e p; cbn [fold_left]; [done|].
  assert (Hstep : spawnTimer (fst (collideWith box (e, p) o)) = spawnTimer e).
  { unfold collideWith.
    destruct (Obstacle.type o);
      repeat (match goal with |- context [if ?b then _ else _] => destruct b end);
      first [ apply handleObstacleInteraction_spawnTimer | done ]. }
  destruct (collideWith box (e, p) o) as [e1 p1]. cbn [fst] in Hstep.
  by rewrite IH.
Qed.

Lemma stepPassenger_spawnTimer (dt : Q) (e : t) (i : nat) :
  spawnTimer (stepPassenger dt e i) = spawnTimer e.
Proof.
  unfold stepPassenger. destruct (passengers e !! i) as [p|]; [|done].
  pose proof (fold_collideWith_spawnTimer
                (Passenger.getBounds
                   (Passenger.update dt (platforms e) (walls e)
                      (Some (checkInGate e)) p))
                (obstacles e) e
                (Passenger.update dt (platforms e) (walls e)
                   (Some (checkInGate e)) p)) as Hg.
  fold (handleObstacleCollisions e
          (Passenger.update dt (platforms e) (walls e) (Some (checkInGate e)) p))
    in Hg.
  destruct (handleObstacleCollisions e _) as [e1 p2]. cbn [fst] in Hg.
  by destruct (Passenger.checkReachedGate _ _ p2) as [r p3].
Qed.

Lemma forEachPassenger_spawnTimer (dt : Q) (e : t) :
  spawnTimer (forEachPassenger dt e) = spawnTimer e.
Proof.
  unfold forEachPassenger. generalize (seq 0 (length (passengers e))).
  intros indices. revert e.
  induction indices as [|i rest IH]; intros e; cbn [fold_left]; [done|].
  by rewrite IH, stepPassenger_spawnTimer.
Qed.

Lemma checkWinCondition_spawnTimer (e : t) :
  spawnTimer (checkWinCondition e) = spawnTimer e.
Proof.
  unfold checkWinCondition. destruct (allResolved e); [|done].
  repeat case_bool_decide; done.
Qed.

(** The spawn step: at most one passenger, appended, when the timer has
    run up to the interval; the timer ends below the interval. *)
Lemma spawnStep_pacing (dt rand : Q) (e : t) :
  let e' := spawnStep dt rand e in
  (passengersSpawned e ≤ passengersSpawned e' ≤ passengersSpawned e + 1)%Z
  ∧ length (passengers e')
    = (length (passengers e)
       + Z.to_nat (passengersSpawned e' - passengersSpawned e))%nat
  ∧ (passengersSpawned e' = (passengersSpawned e + 1)%Z →
     (passengersSpawned e < totalPassengers)%Z
     ∧ spawnInterval <= spawnTimer e + dt
     ∧ spawnTimer e' = 0
     ∧ is_Some (levelConfig e))
  ∧ (spawnTimer e < spawnInterval → spawnTimer e' < spawnInterval).
Proof.
  cbv zeta. unfold spawnStep, spawnPassenger.
  case_bool_decide as Hcap.
  2:{ split_and!; [lia|lia|rewrite Z.sub_diag; cbn; lia|lia|done]. }
  destruct (Qgeb _ _) eqn:Hq.
  - apply Qgeb_ge in Hq.
    cbn [levelConfig set_spawnTimer spawnTimer] in *.
    destruct (levelConfig e) as [config|] eqn:Hcfg;
      cbn [passengersSpawned passengers spawnTimer set_spawnTimer
           set_passengersSpawned set_passengers].
    + split_and!; [lia|lia| | |done].
      * rewrite length_app. cbn [length]. f_equal. lia.
      * intros _. split_and!; done.
    + split_and!; [lia|lia|rewrite Z.sub_diag; cbn; lia|lia|done].
  - rewrite <- not_true_iff_false, Qgeb_ge in Hq. apply Qnot_le_lt in Hq.
    cbn [passengersSpawned passengers spawnTimer set_spawnTimer].
    split_and!; [lia|lia|rewrite Z.sub_diag; cbn; lia|lia|done].
Qed.

End Spawning.

(** X16.  A frame spawns at most one passenger, appended to the list, and
    only while PLAYING, below the cap of 100, when the spawn timer plus
    the frame time has reached the interval of 0.5 s, in which case the
    timer restarts at 0; a spawn timer below the interval stays below
    it. *)
Theorem update_spawns_at_most_one (now_ms : Z) (dt rand : Q) (e : GameEngine.t) :
  let e' := GameEngine.update now_ms dt rand e in
  (GameEngine.passengersSpawned e ≤ GameEngine.passengersSpawned e'
   ≤ GameEngine.passengersSpawned e + 1)%Z
  ∧ length (GameEngine.passengers e')
    = (length (GameEngine.passengers e)
       + Z.to_nat (GameEngine.passengersSpawned e' - GameEngine.passengersSpawned e))%nat
  ∧ (GameEngine.passengersSpawned e' = (GameEngine.passengersSpawned e + 1)%Z →
     GameEngine.gameState e = PLAYING
     ∧ (GameEngine.passengersSpawned e < GameEngine.totalPassengers)%Z
     ∧ GameEngine.spawnInterval <= GameEngine.spawnTimer e + dt
     ∧ GameEngine.spawnTimer e' = 0)
  ∧ (GameEngine.spawnTimer e < GameEngine.spawnInterval →
     GameEngine.spawnTimer e' < GameEngine.spawnInterval).
Proof.
  cbv zeta.
  assert (Hsame : ∀ e0 : GameEngine.t,
            GameEngine.passengersSpawned e0 = GameEngine.passengersSpawned e →
            GameEngine.passengers e0 = GameEngine.passengers e →
            GameEngine.spawnTimer e0 = GameEngine.spawnTimer e →
            (GameEngine.passengersSpawned e ≤ GameEngine.passengersSpawned e0
             ≤ GameEngine.passengersSpawned e + 1)%Z
            ∧ length (GameEngine.passengers e0)
              = (length (GameEngine.passengers e)
                 + Z.to_nat (GameEngine.passengersSpawned e0
                             - GameEngine.passengersSpawned e))%nat
            ∧ (GameEngine.passengersSpawned e0 = (GameEngine.passengersSpawned e + 1)%Z →
               GameEngine.gameState e = PLAYING
               ∧ (GameEngine.passengersSpawned e < GameEngine.totalPassengers)%Z
               ∧ GameEngine.spawnInterval <= GameEngine.spawnTimer e + dt
               ∧ GameEngine.spawnTimer e0 = 0)
            ∧ (GameEngine.spawnTimer e < GameEngine.spawnInterval →
               GameEngine.spawnTimer e0 < GameEngine.spawnInterval)).
  { intros e0 -> -> ->. split_and!; [lia|lia|rewrite Z.sub_diag; cbn; lia|lia|done]. }
  destruct (decide (GameEngine.gameState e = PLAYING)) as [Hp|Hp];
    [|rewrite update_not_playing by done; by apply Hsame].
  destruct (Qlt_le_dec (GameEngine.elapsed now_ms e) GameEngine.levelTimeLimit)
    as [Ht|Ht]; [|rewrite (update_timeout _ _ _ _ Hp Ht); by apply Hsame].
  rewrite (update_in_time _ _ _ _ Hp Ht).
  destruct (checkWinCondition_keeps (simulate dt rand e))
    as (_ & _ & _ & _ & _ & -> & ->).
  rewrite checkWinCondition_spawnTimer.
  unfold simulate. rewrite forEachPassenger_spawnTimer.
  destruct (forEachPassenger_keeps dt
              (GameEngine.buildPlatformsAndWalls (GameEngine.spawnStep dt rand e)))
    as [_ _ _ _ -> _ _ _ -> _].
  cbn [GameEngine.buildPlatformsAndWalls GameEngine.passengersSpawned
       GameEngine.passengers GameEngine.spawnTimer
       GameEngine.set_walls GameEngine.set_platforms].
  destruct (spawnStep_pacing dt rand e) as (H1 & H2 & H3 & H4).
  split_and!; [tauto|tauto|done| |done].
  intros Hs. destruct (H3 Hs) as (? & ? & ? & _). done.
Qed.

(** ** buildPlatformsAndWalls *)

Section Classification.
Import GameEngine.

Lemma elem_of_obstacleWalls (obs : list Obstacle.t) (b : BoundingBox.t) :
  b ∈ obstacleWalls obs ↔
  ∃ o, o ∈ obs ∧ Obstacle.type o ≠ gap
       ∧ Obstacle.width o <= Obstacle.height o ∧ b = Obstacle.bounds o.
Proof.
  unfold obstacleWalls. rewrite list_elem_of_In, in_map_iff. split.
  - intros (o & <- & [Ho Hf]%filter_In). exists o.
    apply andb_true_iff in Hf as [Hs Hw].
    apply negb_true_iff, Qgtb_false in Hw.
    split_and!; [by apply list_elem_of_In| |done..].
    intros Hg. by rewrite Hg in Hs.
  - intros (o & Ho & Hg & Hw & ->). exists o. split; [done|].
    apply filter_In. split; [by apply list_elem_of_In|].
    apply andb_true_iff. split; [by destruct (Obstacle.type o)|].
    by apply negb_true_iff, Qgtb_false.
Qed.

Lemma elem_of_obstaclePlatforms (obs : list Obstacle.t) (b : BoundingBox.t) :
  b ∈ obstaclePlatforms obs ↔
  ∃ o, o ∈ obs ∧ Obstacle.type o ≠ gap
       ∧ Obstacle.height o < Obstacle.width o ∧ b = Obstacle.bounds o.
Proof.
  unfold obstaclePlatforms. rewrite list_elem_of_In, in_map_iff. split.
  - intros (o & <- & [Ho Hf]%filter_In). exists o.
    apply andb_true_iff in Hf as [Hs Hw]. apply Qgtb_gt in Hw.
    split_and!; [by apply list_elem_of_In| |done..].
    intros Hg. by rewrite Hg in Hs.
  - intros (o & Ho & Hg & Hw & ->). exists o. split; [done|].
    apply filter_In. split; [by apply list_elem_of_In|].
    apply andb_true_iff. split; [by destruct (Obstacle.type o)|].
    by apply Qgtb_gt.
Qed.

Lemma filter_split_length {A} (f g : A → bool) (l : list A) :
  (length (List.filter (fun a => f a && g a) l)
   + length (List.filter (fun a => f a && negb (g a)) l)
   = length (List.filter f l))%nat.
Proof.
  induction l as [|a l IH]; [done|]. cbn [List.filter].
  destruct (f a), (g a); cbn [andb negb length]; lia.
Qed.

End Classification.

(** X17.  [buildPlatformsAndWalls] sorts every obstacle that is not a gap
    into exactly one of the two lists: among the walls when it is at
    least as high as wide, among the platforms when it is wider than
    high.  The platforms are those, the ground and one per bridge.
    Running it twice is running it once. *)
Theorem buildPlatformsAndWalls_classifies (e : GameEngine.t) :
  let e' := GameEngine.buildPlatformsAndWalls e in
  (∀ b, b ∈ GameEngine.walls e' ↔
     ∃ o, o ∈ GameEngine.obstacles e ∧ Obstacle.type o ≠ gap
          ∧ Obstacle.width o <= Obstacle.height o ∧ b = Obstacle.bounds o)
  ∧ (∀ o, o ∈ GameEngine.obstacles e → Obstacle.type o ≠ gap →
       Obstacle.height o < Obstacle.width o →
       Obstacle.bounds o ∈ GameEngine.platforms e')
  ∧ (length (GameEngine.platforms e') + length (GameEngine.walls e')
     = length (List.filter (fun o => negb (bool_decide (Obstacle.type o = gap)))
                           (GameEngine.obstacles e))
       + 1 + length (GameEngine.bridges e))%nat
  ∧ GameEngine.buildPlatformsAndWalls e' = e'.
Proof.
  cbv zeta. unfold GameEngine.buildPlatformsAndWalls. cbv zeta.
  cbn [GameEngine.walls GameEngine.platforms GameEngine.obstacles
       GameEngine.bridges GameEngine.groundLevel GameEngine.canvasWidth
       GameEngine.set_walls GameEngine.set_platforms].
  split_and!.
  - apply elem_of_obstacleWalls.
  - intros o Ho Hg Hw. apply elem_of_app. left.
    apply elem_of_obstaclePlatforms. by exists o.
  - rewrite !length_app, length_map. cbn [length].
    unfold GameEngine.obstaclePlatforms, GameEngine.obstacleWalls.
    rewrite !length_map.
    pose proof (filter_split_length
                  (fun o => GameEngine.isSolidType (Obstacle.type o))
                  (fun o => Qgtb (Obstacle.width o) (Obstacle.height o))
                  (GameEngine.obstacles e)) as Hsplit.
    assert (Heq : List.filter (fun o => GameEngine.isSolidType (Obstacle.type o))
                    (GameEngine.obstacles e)
                  = List.filter (fun o => negb (bool_decide (Obstacle.type o = gap)))
                      (GameEngine.obstacles e)).
    { apply filter_ext. intros o. by destruct (Obstacle.type o). }
    rewrite <- Heq. lia.
  - reflexivity.
Qed.

(** ** Bridges over gaps *)

Section BridgeFacts.
Import GameEngine.

Lemma hasBridge_false (o : Obstacle.t) (e : t) :
  hasBridge o e = false ↔
  ∀ b, b ∈ bridges e →
    Obstacle.x o + Obstacle.width o < Bridge.x b
    ∨ Bridge.x b + Bridge.width b < Obstacle.x o.
Proof.
  unfold hasBridge. induction (bridges e) as [|b rest IH]; cbn [existsb].
  - split; [intros _ b Hb; inversion Hb|done].
  - rewrite orb_false_iff, IH, andb_false_iff.
    rewrite <- !not_true_iff_false, Qleb_le, Qgeb_ge. split.
    + intros [Hb Hrest] b' [->|Hb']%elem_of_cons; [|by apply Hrest].
      destruct Hb as [Hb|Hb]; apply Qnot_le_lt in Hb; auto.
    + intros H. split.
      * destruct (H b) as [Hb|Hb]; [by left|left|right]; by apply Qlt_not_le.
      * intros b' Hb'. apply H. by right.
Qed.

Lemma findFrom_last {A} (f : A → bool) (n : nat) (l : list A) (a : A) :
  (∀ b, b ∈ l → f b = false) → f a = true →
  findFrom f n (l ++ [a]) = Some ((n + length l)%nat, a).
Proof.
  revert n. induction l as [|b l IH]; intros n Hl Ha; cbn [app findFrom length].
  - rewrite Ha. do 2 f_equal. lia.
  - rewrite (Hl b) by (by left). rewrite IH; [|intros; apply Hl; by right|done].
    do 2 f_equal. lia.
Qed.

End BridgeFacts.

(** X18.  Bridging a gap.  When a bridge builder that can activate its
    power meets a gap that no bridge touches, [handleObstacleInteraction]
    appends a bridge as wide as the gap, 10 pixels above the gap's lower
    edge, and removes every obstacle with the id of the gap.  If the
    width of the gap is not negative, the gap then counts as bridged
    ([hasBridge]), [getBridgeLevel] gives the level of the new bridge all
    over the gap, and another interaction with that gap changes
    nothing. *)
Theorem bridge_spans_gap (e : GameEngine.t) (p : Passenger.t) (o : Obstacle.t) :
  Obstacle.type o = gap →
  Passenger.superPower p = Some bridge →
  canActivate p →
  GameEngine.hasBridge o e = false →
  0 <= Obstacle.width o →
  let e' := fst (GameEngine.handleObstacleInteraction e p o) in
  let level := Obstacle.y o + Obstacle.height o - 10 in
  GameEngine.bridges e'
  = GameEngine.bridges e ++ [Bridge.mk (Obstacle.x o) level (Obstacle.width o)]
  ∧ (∀ o', o' ∈ GameEngine.obstacles e' →
       (o' ∈ GameEngine.obstacles e) ∧ Obstacle.id o' ≠ Obstacle.id o)
  ∧ GameEngine.hasBridge o e' = true
  ∧ (∀ x, Obstacle.x o <= x → x <= Obstacle.x o + Obstacle.width o →
       GameEngine.getBridgeLevel x e' = Some level)
  ∧ (∀ q, GameEngine.handleObstacleInteraction e' q o = (e', q)).
Proof.
  intros Hty Hsp Hcan Hnb Hw. cbv zeta.
  set (b := Bridge.mk (Obstacle.x o) (Obstacle.y o + Obstacle.height o - 10)
              (Obstacle.width o)).
  assert (Heq : fst (GameEngine.handleObstacleInteraction e p o)
                = GameEngine.removeObstacle o
                    (GameEngine.set_bridges (GameEngine.bridges e ++ [b]) e)).
  { unfold GameEngine.handleObstacleInteraction.
    rewrite Hty, Hnb, Hsp, bool_decide_eq_true_2 by done.
    by rewrite (activateSuperPower_true p Hcan). }
  rewrite Heq. clear Heq.
  assert (Hhas : GameEngine.hasBridge o
                   (GameEngine.removeObstacle o
                      (GameEngine.set_bridges (GameEngine.bridges e ++ [b]) e))
                 = true).
  { unfold GameEngine.hasBridge.
    cbn [GameEngine.bridges GameEngine.removeObstacle GameEngine.set_obstacles
         GameEngine.set_bridges].
    rewrite existsb_app, orb_true_iff. right.
    cbn [existsb b Bridge.x Bridge.width].
    rewrite orb_false_r, andb_true_iff, Qleb_le, Qgeb_ge. subst b.
    cbn [Bridge.x Bridge.width]. split; lra. }
  split_and!.
  - done.
  - cbn [GameEngine.obstacles GameEngine.removeObstacle GameEngine.set_obstacles
         GameEngine.set_bridges].
    intros o' [Ho' Hf]%list_elem_of_In%filter_In.
    split; [by apply list_elem_of_In|].
    apply negb_true_iff in Hf. by apply String.eqb_neq.
  - exact Hhas.
  - intros x Hx1 Hx2. unfold GameEngine.getBridgeLevel, GameEngine.find.
    cbn [GameEngine.bridges GameEngine.removeObstacle GameEngine.set_obstacles
         GameEngine.set_bridges].
    rewrite findFrom_last; [done| |].
    + intros b' Hb'. apply (proj1 (hasBridge_false o e) Hnb) in Hb'.
      apply andb_false_iff. rewrite <- !not_true_iff_false, Qgeb_ge, Qleb_le.
      destruct Hb' as [Hb'|Hb']; [left|right]; apply Qlt_not_le; lra.
    + subst b. cbn [Bridge.x Bridge.width].
      rewrite andb_true_iff, Qgeb_ge, Qleb_le. done.
  - intros q. unfold GameEngine.handleObstacleInteraction.
    by rewrite Hty, Hhas.
Qed.

Lemma bridge_spans_gap_witness :
  GameEngine.getBridgeLevel 340 bridgeEngine = None
  ∧ GameEngine.getBridgeLevel 340
      (fst (GameEngine.handleObstacleInteraction bridgeEngine bridgeBuilder gap_0))
    = Some (530 + 20 - 10).
Proof.
  split; [reflexivity|].
  assert (Hcan : canActivate bridgeBuilder).
  { split_and!; [by eexists|vm_compute; discriminate|reflexivity]. }
  assert (Hw : 0 <= Obstacle.width gap_0) by (vm_compute; discriminate).
  refine (proj1 (proj2 (proj2 (proj2
    (bridge_spans_gap bridgeEngine bridgeBuilder gap_0
       eq_refl eq_refl Hcan eq_refl Hw)))) 340 _ _);
    vm_compute; discriminate.
Defined.

(** ** generateLevelConfig *)

Section GeneratorFacts.
Import Random LevelGenerator.

(** A [for] loop pushes one obstacle per index, each drawn by the body
    at some point of the stream. *)
Lemma forLoop_pushes (body : nat → Random.t ConfigObstacle.t)
    (indices : list nat) (obstacles : list ConfigObstacle.t)
    (rs : nat → Q) (n : nat) :
  ∃ pushed n',
    forLoop body indices obstacles rs n = (obstacles ++ pushed, n')
    ∧ Forall2 (fun i o => ∃ m, o = fst (body i rs m)) indices pushed.
Proof.
  revert obstacles n. induction indices as [|i rest IH]; intros obstacles n.
  - exists [], n. split; [|constructor]. cbn. by rewrite app_nil_r.
  - cbn [forLoop]. unfold bind.
    destruct (body i rs n) as [o n1] eqn:Hb.
    destruct (IH (obstacles ++ [o]) n1) as (pushed & n' & -> & Hall).
    exists (o :: pushed), n'. split; [by rewrite <- app_assoc|].
    constructor; [|done]. exists n. by rewrite Hb.
Qed.

(** The main path pushes as many obstacles as platforms.  The [k]-th one
    is a wall-typed obstacle 20 high with the id [path_platform_k],
    counted from one after the platforms that were there; with draws that
    are not negative it is at least 80 wide and not left of where the
    path started. *)
Lemma pathLoop_pushes (fuel : nat) (targetX groundLevel currentX currentY : Q)
    (platforms : list PathPlatform) (obstacles : list ConfigObstacle.t)
    (rs : nat → Q) (n : nat)
    (ps : list PathPlatform) (os : list ConfigObstacle.t) (n' : nat) :
  pathLoop fuel targetX groundLevel currentX currentY platforms obstacles rs n
  = (Some (ps, os), n') →
  ∃ newPs newOs,
    ps = platforms ++ newPs ∧ os = obstacles ++ newOs
    ∧ length newOs = length newPs
    ∧ (∀ k p, newPs !! k = Some p →
         (∀ m, 0 <= rs m) → currentX <= x p)
    ∧ (∀ k o, newOs !! k = Some o →
         ConfigObstacle.type o = wall
         ∧ ConfigObstacle.height o = 20
         ∧ ConfigObstacle.id o
           = "path_platform_" +:+ pretty (length platforms + S k)%nat
         ∧ ((∀ m, 0 <= rs m) →
            80 <= ConfigObstacle.width o
            ∧ currentX <= Vector2.x (ConfigObstacle.position o))).
Proof.
  revert currentX currentY platforms obstacles n.
  induction fuel as [|fuel IH]; intros currentX currentY platforms obstacles n;
    cbn [pathLoop]; destruct (Qltb currentX (targetX - 100)) eqn:Hlt.
  - done.
  - intros [= <- <- <-]. exists [], []. rewrite !app_nil_r.
    split_and!; try done; intros k ? Hk; inversion Hk.
  - unfold bind, random. cbv zeta.
    intros H. apply IH in H as (newPs & newOs & -> & -> & Hlen & Hps & Hos).
    eexists (_ :: newPs), (_ :: newOs).
    split; [by rewrite <- app_assoc|]. split; [by rewrite <- app_assoc|].
    split; [cbn [length]; by rewrite Hlen|]. split.
    + intros [|k] p Hk Hrs.
      * injection Hk as <-. cbn [x]. apply Qle_refl.
      * cbn [lookup list_lookup] in Hk. specialize (Hps k p Hk Hrs).
        pose proof (Hrs n) as H1. pose proof (Hrs (S (S (S n)))) as H4.
        lra.
    + intros [|k] o Hk.
      * injection Hk as <-.
        cbn [ConfigObstacle.type ConfigObstacle.height ConfigObstacle.id
             ConfigObstacle.width ConfigObstacle.position Vector2.x].
        split_and!; try done.
        -- rewrite length_app. cbn [length]. do 2 f_equal; lia.
        -- intros Hrs. pose proof (Hrs n). split; [lra|apply Qle_refl].
      * cbn [lookup list_lookup] in Hk.
        destruct (Hos k o Hk) as (Hty & Hh & Hid & Hgeo).
        split_and!; try done.
        -- rewrite Hid, length_app. cbn [length]. do 2 f_equal; lia.
        -- intros Hrs. destruct (Hgeo Hrs) as [Hw Hx]. split; [done|].
           pose proof (Hrs n) as H1. pose proof (Hrs (S (S (S n)))) as H4.
           lra.
  - intros [= <- <- <-]. exists [], []. rewrite !app_nil_r.
    split_and!; try done; intros k ? Hk; inversion Hk.
Qed.

(** With draws that are not negative every platform of the path advances
    by 110 pixels or more, so the loop ends by itself within the fuel it
    is given when that is enough for the canvas. *)
Lemma pathLoop_returns (fuel : nat) (targetX groundLevel currentX currentY : Q)
    (platforms : list PathPlatform) (obstacles : list ConfigObstacle.t)
    (rs : nat → Q) (n : nat) :
  (∀ m, 0 <= rs m) →
  targetX - 100 - currentX <= 110 * inject_Z (Z.of_nat fuel) →
  ∃ r n',
    pathLoop fuel targetX groundLevel currentX currentY platforms obstacles rs n
    = (Some r, n').
Proof.
  intros Hrs. revert currentX currentY platforms obstacles n.
  induction fuel as [|fuel IH]; intros currentX currentY platforms obstacles n Hf;
    cbn [pathLoop]; destruct (Qltb currentX (targetX - 100)) eqn:Hlt;
    try (by eexists _, _).
  - apply Qltb_lt in Hlt. change (inject_Z (Z.of_nat 0)) with 0 in Hf. lra.
  - unfold bind, random. cbv zeta. apply IH.
    rewrite Nat2Z.inj_succ, <- Z.add_1_r, inject_Z_plus in Hf.
    unfold inject_Z at 2 in Hf.
    pose proof (Hrs n) as H1. pose proof (Hrs (S (S (S n)))) as H4.
    lra.
Qed.

(** More fuel does not change what the loop returns. *)
Lemma pathLoop_fuel (fuel fuel' : nat) (targetX groundLevel currentX currentY : Q)
    (platforms : list PathPlatform) (obstacles : list ConfigObstacle.t)
    (rs : nat → Q) (n : nat) r (n' : nat) :
  (fuel ≤ fuel')%nat →
  pathLoop fuel targetX groundLevel currentX currentY platforms obstacles rs n
  = (Some r, n') →
  pathLoop fuel' targetX groundLevel currentX currentY platforms obstacles rs n
  = (Some r, n').
Proof.
  revert fuel' currentX currentY platforms obstacles n.
  induction fuel as [|fuel IH];
    intros fuel' currentX currentY platforms obstacles n Hle;
    destruct fuel' as [|fuel']; try lia;
    cbn [pathLoop]; destruct (Qltb currentX (targetX - 100)); try done.
  unfold bind, random. cbv zeta. apply IH. lia.
Qed.

(** The layout that [generateLevelConfig] returns: the spawn platform,
    the path, and what the five [for] loops push. *)
Lemma generateLevelConfig_shape (fuel : nat) (level : Z) (e : GameEngine.t)
    (rs : nat → Q) (n : nat) (config : LevelConfig.t) (n' : nat) :
  generateLevelConfig fuel level e rs n = (Some config, n') →
  ∃ platforms path extra walls gaps specials guards,
    LevelConfig.obstacles config
    = spawnPlatform :: path ++ extra ++ walls ++ gaps ++ specials ++ guards
    ∧ length path = length platforms
    ∧ (∀ k p, platforms !! k = Some p → (∀ m, 0 <= rs m) → 200 <= x p)
    ∧ (∀ k o, path !! k = Some o →
         ConfigObstacle.type o = wall
         ∧ ConfigObstacle.height o = 20
         ∧ ConfigObstacle.id o = "path_platform_" +:+ pretty (S k)
         ∧ ((∀ m, 0 <= rs m) →
            80 <= ConfigObstacle.width o
            ∧ 200 <= Vector2.x (ConfigObstacle.position o)))
    ∧ Forall2 (fun i o => ∃ m, o = fst (extraPlatform (GameEngine.canvasWidth e)
                                          (GameEngine.groundLevel e) i rs m))
        (upTo (15 + level * 5 - Z.of_nat (length platforms))) extra
    ∧ Forall2 (fun i o => ∃ m, o = fst (verticalWall (GameEngine.canvasWidth e)
                                          (GameEngine.groundLevel e) i rs m))
        (upTo (8 + level * 3)) walls
    ∧ Forall2 (fun i o => ∃ m, o = fst (gapObstacle (GameEngine.groundLevel e) i rs m))
        (upTo (5 + level * 2)) gaps
    ∧ Forall2 (fun i o => ∃ m, o = fst (special (GameEngine.groundLevel e) i rs m))
        (upTo (3 + level)) specials
    ∧ Forall2 (fun i o => ∃ m, o = fst (guard (GameEngine.groundLevel e)
                                          platforms i rs m))
        (upTo (2 + level)) guards
    ∧ LevelConfig.spawnPoint config = Vector2.mk 50 (50 - 32)
    ∧ LevelConfig.checkInGate config
      = Vector2.mk (GameEngine.canvasWidth e - 150) (GameEngine.groundLevel e - 30)
    ∧ LevelConfig.levelNumber config = level.
Proof.
  unfold generateLevelConfig. cbv zeta. unfold bind at 1.
  destruct (pathLoop fuel _ _ _ _ [] [spawnPlatform] rs n) as [[[ps os]|] n1] eqn:Hpath;
    [|done].
  apply pathLoop_pushes in Hpath
    as (newPs & newOs & -> & -> & Hlen & Hps & Hos).
  cbn [app length] in *.
  unfold bind.
  destruct (forLoop_pushes
              (extraPlatform (GameEngine.canvasWidth e) (GameEngine.groundLevel e))
              (upTo (15 + level * 5 - Z.of_nat (length newPs)))
              (spawnPlatform :: newOs) rs n1) as (extra & n2 & -> & Hextra).
  destruct (forLoop_pushes
              (verticalWall (GameEngine.canvasWidth e) (GameEngine.groundLevel e))
              (upTo (8 + level * 3))
              ((spawnPlatform :: newOs) ++ extra) rs n2) as (walls & n3 & -> & Hwalls).
  destruct (forLoop_pushes
              (gapObstacle (GameEngine.groundLevel e))
              (upTo (5 + level * 2))
              (((spawnPlatform :: newOs) ++ extra) ++ walls) rs n3)
    as (gaps & n4 & -> & Hgaps).
  destruct (forLoop_pushes
              (special (GameEngine.groundLevel e))
              (upTo (3 + level))
              ((((spawnPlatform :: newOs) ++ extra) ++ walls) ++ gaps) rs n4)
    as (specials & n5 & -> & Hspecials).
  destruct (forLoop_pushes
              (guard (GameEngine.groundLevel e) newPs)
              (upTo (2 + level))
              (((((spawnPlatform :: newOs) ++ extra) ++ walls) ++ gaps) ++ specials)
              rs n5)
    as (guards & n6 & -> & Hguards).
  unfold ret. intros [= <- <-].
  exists newPs, newOs, extra, walls, gaps, specials, guards.
  cbn [LevelConfig.obstacles LevelConfig.spawnPoint LevelConfig.checkInGate
       LevelConfig.levelNumber].
  split; [by rewrite <- !app_assoc|].
  split; [done|].
  split.
  { intros k p Hk Hrs. specialize (Hps k p Hk Hrs).
    unfold spawnPlatformWidth in Hps. lra. }
  split.
  { intros k o Hk. destruct (Hos k o Hk) as (? & ? & ? & Hgeo).
    split_and!; done. }
  by split_and!.
Qed.

End GeneratorFacts.
Lemma saw_nonneg (m : nat) : 0 <= saw m.
Proof.
  unfold saw. apply Qle_shift_div_l; [reflexivity|].
  rewrite Qmult_0_l. change 0 with (inject_Z 0). rewrite <- Zle_Qle. lia.
Qed.

(** X19.  [generateLevelConfig] returns: when no draw is negative, each
    platform of the main path advances by 110 pixels or more, so the
    [while] loop ends after at most (canvas width - 500) / 110 platforms,
    rounded up.  With that much fuel the embedding returns a layout, and
    with more fuel it returns the same layout and has read the same
    number of draws. *)
Theorem generateLevelConfig_returns (fuel : nat) (level : Z) (e : GameEngine.t)
    (rs : nat → Q) (n : nat) :
  (∀ m, 0 <= rs m) →
  GameEngine.canvasWidth e - 500 <= 110 * inject_Z (Z.of_nat fuel) →
  ∃ config n',
    LevelGenerator.generateLevelConfig fuel level e rs n = (Some config, n')
    ∧ ∀ fuel', (fuel ≤ fuel')%nat →
        LevelGenerator.generateLevelConfig fuel' level e rs n = (Some config, n').
Proof.
  intros Hrs Hfuel.
  destruct (pathLoop_returns fuel (GameEngine.canvasWidth e - 200)
              (GameEngine.groundLevel e)
              (LevelGenerator.spawnPlatformWidth + 50)
              LevelGenerator.spawnPlatformY [] [LevelGenerator.spawnPlatform]
              rs n Hrs) as ([ps os] & n1 & Hpath).
  { unfold LevelGenerator.spawnPlatformWidth. lra. }
  assert (Hgen : ∀ fuel', (fuel ≤ fuel')%nat →
            LevelGenerator.generateLevelConfig fuel' level e rs n
            = LevelGenerator.generateLevelConfig fuel level e rs n).
  { intros fuel' Hle. unfold LevelGenerator.generateLevelConfig. cbv zeta.
    unfold Random.bind at 1 7.
    by rewrite (pathLoop_fuel _ _ _ _ _ _ _ _ _ _ _ _ Hle Hpath), Hpath. }
  destruct (LevelGenerator.generateLevelConfig fuel level e rs n)
    as [[config|] n'] eqn:Hg.
  - exists config, n'. split; [done|]. intros fuel' Hle. by rewrite Hgen.
  - exfalso. revert Hg. unfold LevelGenerator.generateLevelConfig. cbv zeta.
    unfold Random.bind at 1. rewrite Hpath. unfold Random.bind, Random.ret.
    repeat match goal with
           | |- context [LevelGenerator.forLoop ?b ?i ?o rs ?m] =>
               destruct (LevelGenerator.forLoop b i o rs m)
           end.
    done.
Qed.

Lemma generateLevelConfig_returns_witness :
  is_Some sawLevel
  ∧ fst (LevelGenerator.generateLevelConfig 100 1 (GameEngine.new 1200 700) saw 0%nat)
    = sawLevel.
Proof.
  pose proof saw_nonneg as Hrs.
  assert (Hfuel : GameEngine.canvasWidth (GameEngine.new 1200 700) - 500
                  <= 110 * inject_Z (Z.of_nat 7)) by (vm_compute; discriminate).
  destruct (generateLevelConfig_returns 7 1 (GameEngine.new 1200 700) saw 0%nat
              Hrs Hfuel) as (config & n' & Hg & Hmore).
  unfold sawLevel. rewrite Hg, (Hmore 100%nat) by lia.
  split; [by eexists|done].
Defined.
Section GeneratorCounts.
Import Random LevelGenerator.

Lemma pushed_Forall (body : nat → Random.t ConfigObstacle.t) (rs : nat → Q)
    (P : nat → ConfigObstacle.t → Prop) (indices : list nat)
    (pushed : list ConfigObstacle.t) :
  Forall2 (fun i o => ∃ m, o = fst (body i rs m)) indices pushed →
  (∀ i m, P i (fst (body i rs m))) →
  Forall2 P indices pushed.
Proof.
  intros Hall HP. induction Hall as [|i o indices pushed (m & ->) _ IH];
    constructor; auto.
Qed.

Lemma length_upTo (count : Z) : length (upTo count) = Z.to_nat count.
Proof. unfold upTo. apply length_seq. Qed.

Lemma count_type (ty ty' : ObstacleType) (l : list ConfigObstacle.t) :
  Forall (fun o => ConfigObstacle.type o = ty) l →
  length (List.filter (fun o => bool_decide (ConfigObstacle.type o = ty')) l)
  = if decide (ty = ty') then length l else 0%nat.
Proof.
  induction 1 as [|o l Ho _ IH]; cbn [List.filter length].
  - by destruct (decide _).
  - rewrite Ho. destruct (decide (ty = ty')) as [->|Hne].
    + rewrite bool_decide_eq_true_2 by done. cbn [length]. by rewrite IH.
    + by rewrite bool_decide_eq_false_2 by done.
Qed.

Lemma count_app (ty : ObstacleType) (l k : list ConfigObstacle.t) :
  length (List.filter (fun o => bool_decide (ConfigObstacle.type o = ty)) (l ++ k))
  = (length (List.filter (fun o => bool_decide (ConfigObstacle.type o = ty)) l)
     + length (List.filter (fun o => bool_decide (ConfigObstacle.type o = ty)) k))%nat.
Proof. by rewrite List.filter_app, length_app. Qed.

Lemma count_door_security (l : list ConfigObstacle.t) :
  Forall (fun o => ConfigObstacle.type o = door ∨ ConfigObstacle.type o = security) l →
  (length (List.filter (fun o => bool_decide (ConfigObstacle.type o = door)) l)
   + length (List.filter (fun o => bool_decide (ConfigObstacle.type o = security)) l)
   = length l)%nat
  ∧ length (List.filter (fun o => bool_decide (ConfigObstacle.type o = wall)) l) = 0%nat
  ∧ length (List.filter (fun o => bool_decide (ConfigObstacle.type o = gap)) l) = 0%nat
  ∧ length (List.filter (fun o => bool_decide (ConfigObstacle.type o = securityGuard)) l)
    = 0%nat.
Proof.
  induction 1 as [|o l Ho _ IH]; cbn [List.filter length]; [done|].
  destruct IH as (IH1 & IH2 & IH3 & IH4).
  destruct Ho as [-> | ->];
    repeat case_bool_decide; try done;
    cbn [length]; split_and!; lia.
Qed.

(** The type of what each loop pushes. *)
Lemma extraPlatform_type (W G : Q) (i : nat) (rs : nat → Q) (m : nat) :
  ConfigObstacle.type (fst (extraPlatform W G i rs m)) = wall.
Proof. done. Qed.

Lemma verticalWall_type (W G : Q) (i : nat) (rs : nat → Q) (m : nat) :
  ConfigObstacle.type (fst (verticalWall W G i rs m)) = wall.
Proof. done. Qed.

Lemma gapObstacle_type (G : Q) (i : nat) (rs : nat → Q) (m : nat) :
  ConfigObstacle.type (fst (gapObstacle G i rs m)) = gap.
Proof. done. Qed.

Lemma special_type (G : Q) (i : nat) (rs : nat → Q) (m : nat) :
  ConfigObstacle.type (fst (special G i rs m)) = door
  ∨ ConfigObstacle.type (fst (special G i rs m)) = security.
Proof. cbn. destruct (Nat.even i); auto. Qed.

Lemma guard_type (G : Q) (platforms : list PathPlatform) (i : nat)
    (rs : nat → Q) (m : nat) :
  ConfigObstacle.type (fst (guard G platforms i rs m)) = securityGuard.
Proof. done. Qed.

End GeneratorCounts.

(** X20.  What [generateLevelConfig] returns for level [level]: the
    first obstacle is the spawn platform; there are 5 + 2 level gaps,
    3 + level doors and security checkpoints together, 2 + level guards
    and, the spawn platform included, at least 24 + 8 level wall-typed
    obstacles (more when the main path alone has more than 15 + 5 level
    platforms).  The spawn point is at (50, 50 - 32) and the gate 150
    pixels from the right edge, 30 pixels above the ground level. *)
Theorem generateLevelConfig_counts (fuel : nat) (level : Z) (e : GameEngine.t)
    (rs : nat → Q) (n : nat) (config : LevelConfig.t) (n' : nat) :
  LevelGenerator.generateLevelConfig fuel level e rs n = (Some config, n') →
  let count ty :=
    length (List.filter (fun o => bool_decide (ConfigObstacle.type o = ty))
                        (LevelConfig.obstacles config)) in
  head (LevelConfig.obstacles config) = Some LevelGenerator.spawnPlatform
  ∧ count gap = Z.to_nat (5 + level * 2)
  ∧ (count door + count security)%nat = Z.to_nat (3 + level)
  ∧ count securityGuard = Z.to_nat (2 + level)
  ∧ (1 + Z.to_nat (15 + level * 5) + Z.to_nat (8 + level * 3) ≤ count wall)%nat
  ∧ LevelConfig.spawnPoint config = Vector2.mk 50 (50 - 32)
  ∧ LevelConfig.checkInGate config
    = Vector2.mk (GameEngine.canvasWidth e - 150) (GameEngine.groundLevel e - 30).
Proof.
  intros Hg. cbv zeta.
  apply generateLevelConfig_shape in Hg
    as (platforms & path & extra & walls & gaps & specials & guards
        & -> & Hlen & _ & Hpath & Hextra & Hwalls & Hgaps & Hspecials & Hguards
        & -> & -> & _).
  assert (Hp : Forall (fun o => ConfigObstacle.type o = wall) path).
  { apply Forall_lookup. intros k o Hk. by destruct (Hpath k o Hk). }
  pose proof (Forall2_length _ _ _ Hextra) as Le.
  pose proof (Forall2_length _ _ _ Hwalls) as Lw.
  pose proof (Forall2_length _ _ _ Hgaps) as Lg.
  pose proof (Forall2_length _ _ _ Hspecials) as Ls.
  pose proof (Forall2_length _ _ _ Hguards) as Lu.
  rewrite length_upTo in Le, Lw, Lg, Ls, Lu.
  assert (He : Forall (fun o => ConfigObstacle.type o = wall) extra).
  { eapply Forall2_Forall_r; [exact Hextra|]. apply Forall_true.
    by intros i o (m & ->). }
  assert (Hw : Forall (fun o => ConfigObstacle.type o = wall) walls).
  { eapply Forall2_Forall_r; [exact Hwalls|]. apply Forall_true.
    by intros i o (m & ->). }
  assert (Hgp : Forall (fun o => ConfigObstacle.type o = gap) gaps).
  { eapply Forall2_Forall_r; [exact Hgaps|]. apply Forall_true.
    by intros i o (m & ->). }
  assert (Hsp : Forall (fun o => ConfigObstacle.type o = door
                                 ∨ ConfigObstacle.type o = security) specials).
  { eapply Forall2_Forall_r; [exact Hspecials|]. apply Forall_true.
    intros i o (m & ->). apply special_type. }
  assert (Hgu : Forall (fun o => ConfigObstacle.type o = securityGuard) guards).
  { eapply Forall2_Forall_r; [exact Hguards|]. apply Forall_true.
    by intros i o (m & ->). }
  destruct (count_door_security specials Hsp) as (Hds & Hsw & Hsg & Hsu).
  split; [done|].
  change (LevelGenerator.spawnPlatform :: path ++ extra ++ walls ++ gaps
            ++ specials ++ guards)
    with ([LevelGenerator.spawnPlatform] ++ path ++ extra ++ walls ++ gaps
            ++ specials ++ guards).
  rewrite !count_app.
  rewrite !(count_type wall _ path Hp), !(count_type wall _ extra He),
          !(count_type wall _ walls Hw), !(count_type gap _ gaps Hgp),
          !(count_type securityGuard _ guards Hgu).
  rewrite Hsw, Hsg, Hsu.
  cbn [List.filter LevelGenerator.spawnPlatform ConfigObstacle.type length].
  repeat case_bool_decide; try done.
  repeat match goal with
         | |- context [decide (?a = ?b)] => destruct (decide (a = b)); try done
         end.
  cbn [length].
  split_and!; try done; lia.
Qed.
Lemma generateLevelConfig_counts_witness :
  length (LevelConfig.obstacles sawConfig) = 46%nat
  ∧ length (List.filter (fun o => bool_decide (ConfigObstacle.type o = gap))
                        (LevelConfig.obstacles sawConfig)) = 7%nat.
Proof.
  split; [reflexivity|].
  assert (Hg : LevelGenerator.generateLevelConfig 7 1 (GameEngine.new 1200 700) saw 0%nat
               = (Some sawConfig, 123%nat)) by (vm_compute; reflexivity).
  exact (proj1 (proj2
    (generateLevelConfig_counts 7 1 (GameEngine.new 1200 700) saw 0%nat
       sawConfig 123%nat Hg))).
Defined.

(** *** The ids of a generated level *)

Section GeneratorIds.
Import Random LevelGenerator.

Lemma pushed_ids (body : nat → Random.t ConfigObstacle.t) (rs : nat → Q)
    (prefix : string) (indices : list nat) (pushed : list ConfigObstacle.t) :
  Forall2 (fun i o => ∃ m, o = fst (body i rs m)) indices pushed →
  (∀ i m, ConfigObstacle.id (fst (body i rs m)) = prefix +:+ pretty i) →
  ConfigObstacle.id <$> pushed = (fun i => prefix +:+ pretty i) <$> indices.
Proof.
  intros Hall Hid. induction Hall as [|i o indices pushed (m & ->) _ IH];
    [done|]. cbn [fmap list_fmap]. by rewrite Hid, <- IH.
Qed.

Lemma path_ids (path : list ConfigObstacle.t) :
  (∀ k o, path !! k = Some o →
     ConfigObstacle.id o = "path_platform_" +:+ pretty (S k)) →
  ConfigObstacle.id <$> path
  = (fun k => "path_platform_" +:+ pretty (S k)) <$> seq 0 (length path).
Proof.
  intros Hid. apply list_eq. intros k. rewrite !list_lookup_fmap.
  destruct (path !! k) as [o|] eqn:Hk; cbn [fmap option_fmap option_map].
  - rewrite lookup_seq_lt by (by eapply lookup_lt_Some).
    cbn. by rewrite (Hid k o Hk).
  - rewrite lookup_seq_ge; [done|]. by apply lookup_ge_None.
Qed.

Lemma numbered_ids_NoDup (prefix : string) (f : nat → nat) (indices : list nat) :
  Inj (=) (=) f → NoDup indices →
  NoDup ((fun i => prefix +:+ pretty (f i)) <$> indices).
Proof.
  intros Hf Hnd. apply NoDup_fmap_2; [|done].
  intros i j Heq. apply (inj (String.append prefix)) in Heq.
  apply (inj pretty) in Heq. by apply Hf.
Qed.

(** Removing by id removes one obstacle when the ids are unique. *)
Lemma remove_by_id_length (l : list Obstacle.t) (o : Obstacle.t) :
  NoDup (Obstacle.id <$> l) → o ∈ l →
  S (length (List.filter
               (fun o' => negb (String.eqb (Obstacle.id o') (Obstacle.id o))) l))
  = length l.
Proof.
  induction l as [|a l IH]; intros Hnd Ho; [inversion Ho|].
  cbn [fmap list_fmap] in Hnd. apply NoDup_cons in Hnd as [Ha Hnd].
  cbn [List.filter length].
  destruct (String.eqb (Obstacle.id a) (Obstacle.id o)) eqn:Heq; cbn [negb].
  - apply String.eqb_eq in Heq. f_equal.
    assert (Hall : ∀ o', o' ∈ l →
              negb (String.eqb (Obstacle.id o') (Obstacle.id o)) = true).
    { intros o' Ho'. apply negb_true_iff, String.eqb_neq. intros Heq'.
      apply Ha. rewrite Heq, <- Heq'. by apply list_elem_of_fmap_2. }
    clear -Hall. induction l as [|b l IH]; [done|]. cbn [List.filter].
    rewrite Hall by (by left). cbn [length]. f_equal. apply IH.
    intros o' Ho'. apply Hall. by right.
  - cbn [length]. f_equal. apply IH; [done|].
    apply elem_of_cons in Ho as [->|Ho]; [|done].
    by rewrite String.eqb_refl in Heq.
Qed.

End GeneratorIds.

(** X21.  The obstacles of a generated level have pairwise different ids.
    So once the level is loaded, [this.obstacles.filter(o => o.id !==
    obstacle.id)] takes exactly one obstacle away when it is given an
    obstacle of the level. *)
Theorem generateLevelConfig_ids_unique (fuel : nat) (level : Z)
    (e : GameEngine.t) (rs : nat → Q) (n : nat) (config : LevelConfig.t)
    (n' : nat) :
  LevelGenerator.generateLevelConfig fuel level e rs n = (Some config, n') →
  NoDup (ConfigObstacle.id <$> LevelConfig.obstacles config)
  ∧ ∀ e0 o,
      o ∈ GameEngine.obstacles (GameEngine.loadLevel config e0) →
      S (length (GameEngine.obstacles
                   (GameEngine.removeObstacle o (GameEngine.loadLevel config e0))))
      = length (GameEngine.obstacles (GameEngine.loadLevel config e0)).
Proof.
  intros Hg.
  assert (Hnd : NoDup (ConfigObstacle.id <$> LevelConfig.obstacles config)).
  { apply generateLevelConfig_shape in Hg
      as (platforms & path & extra & walls & gaps & specials & guards
          & -> & Hlen & _ & Hpath & Hextra & Hwalls & Hgaps & Hspecials & Hguards
          & _).
    rewrite fmap_cons, !fmap_app.
    rewrite (path_ids path) by (intros k o Hk; by destruct (Hpath k o Hk) as (_ & _ & ? & _)).
    rewrite (pushed_ids _ rs "platform_" _ _ Hextra) by done.
    rewrite (pushed_ids _ rs "wall_" _ _ Hwalls) by done.
    rewrite (pushed_ids _ rs "gap_" _ _ Hgaps) by done.
    rewrite (pushed_ids _ rs "special_" _ _ Hspecials) by done.
    rewrite (pushed_ids _ rs "guard_" _ _ Hguards) by done.
    assert (Hclash : ∀ (p1 p2 : string) (f1 f2 : nat → nat) (l1 l2 : list nat) x,
              (∀ s1 s2, p1 +:+ s1 ≠ p2 +:+ s2) →
              x ∈ (fun i => p1 +:+ pretty (f1 i)) <$> l1 →
              x ∉ (fun i => p2 +:+ pretty (f2 i)) <$> l2).
    { intros p1 p2 f1 f2 l1 l2 x Hne (i & -> & _)%list_elem_of_fmap
             (j & Heq & _)%list_elem_of_fmap. by apply Hne in Heq. }
    apply NoDup_cons. split.
    { rewrite !not_elem_of_app.
      split_and!; intros (j & Heq & _)%list_elem_of_fmap; discriminate Heq. }
    repeat (apply NoDup_app; split;
            [apply (numbered_ids_NoDup _ (fun i => _));
             [intros ? ?; lia|apply NoDup_seq]
            |split;
             [intros x Hx; rewrite ?not_elem_of_app; split_and?;
              refine (Hclash _ _ _ (fun i => i) _ _ x _ Hx);
              intros s1 s2 Heq; discriminate Heq|] ]).
    apply (numbered_ids_NoDup _ (fun i => i)); [by intros ? ?|apply NoDup_seq]. }
  split; [done|].
  intros e0 o Ho. apply remove_by_id_length; [|done].
  cbn [GameEngine.loadLevel GameEngine.obstacles GameEngine.buildPlatformsAndWalls
       GameEngine.set_walls GameEngine.set_platforms GameEngine.set_checkInGate
       GameEngine.set_obstacles].
  rewrite <- list_fmap_compose.
  assert (Heq : Obstacle.id ∘ (fun o0 : ConfigObstacle.t =>
                   Obstacle.mk (ConfigObstacle.type o0)
                     (Vector2.x (ConfigObstacle.position o0))
                     (Vector2.y (ConfigObstacle.position o0))
                     (ConfigObstacle.width o0) (ConfigObstacle.height o0)
                     (ConfigObstacle.id o0))
                = ConfigObstacle.id) by done.
  by rewrite Heq.
Qed.
Lemma generateLevelConfig_ids_unique_witness :
  NoDup (ConfigObstacle.id <$> LevelConfig.obstacles sawConfig).
Proof.
  assert (Hg : LevelGenerator.generateLevelConfig 7 1 (GameEngine.new 1200 700) saw 0%nat
               = (Some sawConfig, 123%nat)) by (vm_compute; reflexivity).
  exact (proj1
    (generateLevelConfig_ids_unique 7 1 (GameEngine.new 1200 700) saw 0%nat
       sawConfig 123%nat Hg)).
Defined.

(** *** Spawned passengers start on the spawn platform *)

Section SpawnPlatform.
Import Random LevelGenerator.

Lemma number_nonneg (i : nat) : 0 <= number i.
Proof.
  unfold number. change 0 with (inject_Z 0). rewrite <- Zle_Qle. lia.
Qed.

Lemma pushed_elem (body : nat → Random.t ConfigObstacle.t) (rs : nat → Q)
    (indices : list nat) (pushed : list ConfigObstacle.t) (c : ConfigObstacle.t) :
  Forall2 (fun i o => ∃ m, o = fst (body i rs m)) indices pushed →
  c ∈ pushed → ∃ i m, c = fst (body i rs m).
Proof.
  induction 1 as [|i o indices pushed (m & ->) _ IH]; intros Hc.
  - inversion Hc.
  - apply elem_of_cons in Hc as [->|Hc]; [by exists i, m|by apply IH].
Qed.

(** With draws that are not negative and a canvas 300 wide or more, what
    [buildPlatformsAndWalls] will take for a wall (not a gap, not wider
    than high) is 150 pixels or more from the left edge. *)
Lemma generated_walls_right (fuel : nat) (level : Z) (e : GameEngine.t)
    (rs : nat → Q) (n : nat) (config : LevelConfig.t) (n' : nat) :
  generateLevelConfig fuel level e rs n = (Some config, n') →
  (∀ m, 0 <= rs m) →
  300 <= GameEngine.canvasWidth e →
  ∀ c, c ∈ LevelConfig.obstacles config →
    ConfigObstacle.type c ≠ gap →
    ConfigObstacle.width c <= ConfigObstacle.height c →
    150 <= Vector2.x (ConfigObstacle.position c).
Proof.
  intros Hg Hrs HW c Hc Hty Hwh.
  apply generateLevelConfig_shape in Hg
    as (platforms & path & extra & walls & gaps & specials & guards
        & Hobs & Hlen & Hplat & Hpath & Hextra & Hwalls & Hgaps & Hspecials & Hguards
        & _).
  rewrite Hobs in Hc. clear Hobs.
  rewrite elem_of_cons, !elem_of_app in Hc.
  destruct Hc as [->|[Hc|[Hc|[Hc|[Hc|[Hc|Hc]]]]]].
  - exfalso. revert Hwh. vm_compute. auto.
  - apply list_elem_of_lookup in Hc as [k Hk].
    destruct (Hpath k c Hk) as (_ & Hh & _ & Hgeo).
    destruct (Hgeo Hrs) as [Hw _]. rewrite Hh in Hwh. lra.
  - destruct (pushed_elem _ _ _ _ _ Hextra Hc) as (i & m & ->).
    cbn in Hwh. pose proof (Hrs (S (S m))). lra.
  - destruct (pushed_elem _ _ _ _ _ Hwalls Hc) as (i & m & ->).
    cbn [verticalWall bind random ret fst ConfigObstacle.position Vector2.x].
    pose proof (Qmult_le_0_compat (rs m) (GameEngine.canvasWidth e - 300)
                  (Hrs m) ltac:(lra)).
    lra.
  - destruct (pushed_elem _ _ _ _ _ Hgaps Hc) as (i & m & ->). done.
  - destruct (pushed_elem _ _ _ _ _ Hspecials Hc) as (i & m & ->).
    cbn [special bind random ret fst ConfigObstacle.position Vector2.x].
    pose proof (number_nonneg i). pose proof (Hrs m). lra.
  - destruct (pushed_elem _ _ _ _ _ Hguards Hc) as (i & m & ->).
    cbn [guard bind random ret fst ConfigObstacle.position Vector2.x].
    destruct (at_index platforms _) as [p|] eqn:Hp.
    + unfold at_index in Hp. case_bool_decide; [|done].
      pose proof (Hplat _ _ Hp Hrs). lra.
    + pose proof (number_nonneg i). lra.
Qed.

End SpawnPlatform.
Section SpawnLanding.
Import Random LevelGenerator.

(** The walls of a loaded generated level are 150 pixels or more from the
    left edge, and its first platform is the spawn platform. *)
Lemma loadLevel_generated (fuel : nat) (level : Z) (e : GameEngine.t)
    (rs : nat → Q) (n : nat) (config : LevelConfig.t) (n' : nat) :
  generateLevelConfig fuel level e rs n = (Some config, n') →
  (∀ m, 0 <= rs m) →
  300 <= GameEngine.canvasWidth e →
  (∀ w, w ∈ GameEngine.walls (GameEngine.loadLevel config e) →
     150 <= BoundingBox.x w)
  ∧ (∃ rest, GameEngine.platforms (GameEngine.loadLevel config e)
             = BoundingBox.mk 0 50 150 20 :: rest).
Proof.
  intros Hg Hrs HW. split.
  - intros w Hw.
    cbn [GameEngine.loadLevel GameEngine.buildPlatformsAndWalls GameEngine.walls
         GameEngine.obstacles GameEngine.set_walls GameEngine.set_platforms
         GameEngine.set_checkInGate GameEngine.set_obstacles] in Hw.
    apply elem_of_obstacleWalls in Hw as (o & Ho & Hty & Hwh & ->).
    apply list_elem_of_In, in_map_iff in Ho as (c & <- & Hc%list_elem_of_In).
    cbn [Obstacle.bounds Obstacle.x BoundingBox.x].
    by apply (generated_walls_right fuel level e rs n config n' Hg Hrs HW c Hc).
  - apply generateLevelConfig_shape in Hg
      as (platforms & path & extra & walls & gaps & specials & guards
          & Hobs & _).
    cbn [GameEngine.loadLevel GameEngine.buildPlatformsAndWalls GameEngine.platforms
         GameEngine.obstacles GameEngine.set_walls GameEngine.set_platforms
         GameEngine.set_checkInGate GameEngine.set_obstacles].
    rewrite Hobs. cbn [map]. unfold GameEngine.obstaclePlatforms.
    cbn [List.filter]. eexists. reflexivity.
Qed.

End SpawnLanding.
(** X22.  "Passengers MUST start on this": in a level that
    [generateLevelConfig] has drawn with draws that are not negative, on
    a canvas 300 pixels wide or more, the first frame of a passenger
    created at the spawn point, for a frame time between 0 and 0.1 s,
    leaves it standing on the spawn platform: it has walked to the right
    by 50 * deltaTime, its vertical position is still 18, its vertical
    speed is 0 and it is not falling.  No generated wall, door, checkpoint
    or guard is near enough to the spawn point to turn it round or to push
    it. *)
Theorem spawn_on_platform (fuel : nat) (level : Z) (e : GameEngine.t)
    (rs : nat → Q) (n : nat) (config : LevelConfig.t) (n' : nat)
    (deltaTime : Q) (power : option SuperPower) (ident : string) :
  LevelGenerator.generateLevelConfig fuel level e rs n = (Some config, n') →
  (∀ m, 0 <= rs m) →
  300 <= GameEngine.canvasWidth e →
  0 <= deltaTime → deltaTime <= 1 # 10 →
  let e' := GameEngine.loadLevel config e in
  let p' :=
    Passenger.update deltaTime (GameEngine.platforms e') (GameEngine.walls e')
      (Some (GameEngine.checkInGate e'))
      (Passenger.new (LevelConfig.spawnPoint config) power ident) in
  Vector2.x (Passenger.position p') == 50 + 50 * deltaTime
  ∧ Vector2.y (Passenger.position p') == 18
  ∧ Vector2.y (Passenger.velocity p') == 0
  ∧ Passenger.isFalling p' = false
  ∧ Passenger.direction p' = 1%Z.
Proof.
  intros Hg Hrs HW Hdt0 Hdt1. cbv zeta.
  destruct (loadLevel_generated fuel level e rs n config n' Hg Hrs HW)
    as [Hwalls [rest Hplat]].
  rewrite Hplat. clear Hplat.
  assert (Hgate : GameEngine.checkInGate (GameEngine.loadLevel config e)
                  = LevelConfig.checkInGate config) by done.
  rewrite Hgate. clear Hgate.
  apply generateLevelConfig_shape in Hg
    as (ps & os1 & os2 & os3 & os4 & os5 & os6 & _ & _ & _ & _ & _ & _ & _ & _ & _ & -> & -> & _).
  clear ps os1 os2 os3 os4 os5 os6.
  set (walls := GameEngine.walls (GameEngine.loadLevel config e)) in *.
  clearbody walls.
  rewrite update_stages by done.
  (* steering and gravity *)
  assert (Hacc : UpdateStages.accelerate deltaTime
                   (Some (Vector2.mk (GameEngine.canvasWidth e - 150)
                                     (GameEngine.groundLevel e - 30)))
                   (Passenger.new (Vector2.mk 50 (50 - 32)) power ident)
                 = Passenger.set_velocity
                     (Vector2.mk (inject_Z 1 * 50) (0 + 500 * deltaTime))
                     (Passenger.set_direction 1
                        (Passenger.new (Vector2.mk 50 (50 - 32)) power ident))).
  { unfold UpdateStages.accelerate. cbv zeta.
    cbn [Passenger.new Passenger.position Passenger.velocity Passenger.direction
         Vector2.x Vector2.y].
    assert (Hfar : Qgtb (Qabs (GameEngine.canvasWidth e - 150 - 50)) 10 = true).
    { apply Qgtb_gt. rewrite Qabs_pos; lra. }
    assert (Hright : Qgtb (GameEngine.canvasWidth e - 150 - 50) 0 = true).
    { apply Qgtb_gt. lra. }
    by rewrite Hfar, Hright. }
  rewrite Hacc. clear Hacc.
  set (p1 := Passenger.set_velocity _ _).
  (* no wall is within reach *)
  assert (Hclear : ∀ bx by_, bx <= 55 → ∀ w, w ∈ walls →
            CollisionSystem.checkAABB
              (BoundingBox.mk bx by_ Passenger.width Passenger.height) w
            = false).
  { intros bx by_ Hx w Hw. apply checkAABB_false. right. left.
    cbn [BoundingBox.x BoundingBox.width]. unfold Passenger.width.
    pose proof (Hwalls w Hw). lra. }
  (* the horizontal move *)
  assert (Hmx : UpdateStages.moveX deltaTime walls p1
                = Passenger.set_position
                    (Vector2.mk (50 + inject_Z 1 * 50 * deltaTime) (50 - 32)) p1).
  { unfold UpdateStages.moveX. cbv zeta.
    destruct (negb (bool_decide (Passenger.superPower p1 = Some doorBreaker)));
      [|reflexivity].
    match goal with
    | |- context [Passenger.hitWallX ?s ?b walls ?q ?x] =>
        destruct (hitWallX_cases s b walls q x) as [[-> _]|[_ (w & Hw & Hhit)]]
    end; [reflexivity|].
    exfalso. rewrite Hclear in Hhit; [discriminate Hhit| |exact Hw].
    subst p1. cbn. unfold inject_Z. lra. }
  rewrite Hmx. clear Hmx.
  destruct (coolDown_frame deltaTime
              (UpdateStages.moveY deltaTime (BoundingBox.mk 0 50 150 20 :: rest) walls
                 (Passenger.set_position
                    (Vector2.mk (50 + inject_Z 1 * 50 * deltaTime) (50 - 32)) p1)))
    as (-> & -> & -> & -> & _).
  (* the vertical move *)
  unfold UpdateStages.moveY. cbv zeta. subst p1.
  cbn [Passenger.platformLoop Passenger.new
       Passenger.position Passenger.velocity Passenger.isFalling
       Passenger.direction
       Passenger.set_position Passenger.set_velocity Passenger.set_direction
       Passenger.velocityY
       Vector2.x Vector2.y
       BoundingBox.x BoundingBox.y BoundingBox.width BoundingBox.height].
  match goal with
  | |- context [Passenger.wallLoopY ?b walls (if ?c then _ else _)] =>
      assert (Hstand : c = true)
  end.
  { rewrite !andb_true_iff, !Qgeb_ge, Qleb_le, Qgtb_gt, Qltb_lt.
    unfold Passenger.width, Passenger.height, inject_Z. split_and!; lra. }
  rewrite Hstand. clear Hstand.
  rewrite wallLoopY_clear
    by (intros w Hw; apply Hclear; [unfold inject_Z; lra|exact Hw]).
  cbn [Passenger.onPlatform Passenger.newY Passenger.velocityY Passenger.falling
       negb andb
       Passenger.position Passenger.velocity Passenger.isFalling
       Passenger.direction
       Passenger.set_position Passenger.set_velocity Passenger.set_direction
       Passenger.set_isFalling
       Vector2.x Vector2.y].
  unfold Passenger.height, inject_Z.
  split_and!; [lra|lra|reflexivity|reflexivity|reflexivity].
Qed.

(** The first frame of a passenger in the level drawn from [saw]. *)
Lemma spawn_on_platform_witness :
  Passenger.update (1 # 10)
    (GameEngine.platforms (GameEngine.loadLevel sawConfig (GameEngine.new 1200 700)))
    (GameEngine.walls (GameEngine.loadLevel sawConfig (GameEngine.new 1200 700)))
    (Some (GameEngine.checkInGate
             (GameEngine.loadLevel sawConfig (GameEngine.new 1200 700))))
    (Passenger.new (LevelConfig.spawnPoint sawConfig) None "passenger_0")
  = Passenger.set_velocity (Vector2.mk (1 * 50) 0)
      (Passenger.set_position (Vector2.mk (50 + 1 * 50 * (1 # 10)) (50 - 32))
         (Passenger.new (LevelConfig.spawnPoint sawConfig) None "passenger_0"))
  ∧ Vector2.y
      (Passenger.position
         (Passenger.update (1 # 10)
            (GameEngine.platforms
               (GameEngine.loadLevel sawConfig (GameEngine.new 1200 700)))
            (GameEngine.walls
               (GameEngine.loadLevel sawConfig (GameEngine.new 1200 700)))
            (Some (GameEngine.checkInGate
                     (GameEngine.loadLevel sawConfig (GameEngine.new 1200 700))))
            (Passenger.new (LevelConfig.spawnPoint sawConfig) None "passenger_0")))
    == 18.
Proof.
  split; [vm_compute; reflexivity|].
  assert (Hg : LevelGenerator.generateLevelConfig 7 1 (GameEngine.new 1200 700) saw 0%nat
               = (Some sawConfig, 123%nat)) by (vm_compute; reflexivity).
  assert (HW : 300 <= GameEngine.canvasWidth (GameEngine.new 1200 700))
    by (vm_compute; discriminate).
  assert (Hdt0 : 0 <= 1 # 10) by (vm_compute; discriminate).
  assert (Hdt1 : 1 # 10 <= 1 # 10) by apply Qle_refl.
  exact (proj1 (proj2
    (spawn_on_platform 7 1 (GameEngine.new 1200 700) saw 0%nat sawConfig 123%nat
       (1 # 10) None "passenger_0" Hg saw_nonneg HW Hdt0 Hdt1))).
Defined.

(** ** The game loop *)

Section GameLoop.
Import GameEngine.





End GameLoop.



(** ** The whole game *)

Section WholeGame.
Import GameEngine.

Lemma reachable_numbered (inputs : list Input) (width height : Q) :
  numbered (runInputs inputs (new width height)).
Proof.
  unfold runInputs.
  assert (H0 : numbered (new width height)).
  { split; [done|]. intros j q Hj. done. }
  revert H0. generalize (new width height).
  induction inputs as [|i rest IH]; intros e He; cbn [fold_left]; [done|].
  apply IH. by apply input_numbered.
Qed.

Lemma reachable_levelInvariant (inputs : list Input) (width height : Q) :
  levelInvariant (runInputs inputs (new width height)).
Proof.
  unfold runInputs.
  assert (H0 : levelInvariant (new width height)) by done.
  revert H0. generalize (new width height).
  induction inputs as [|i rest IH]; intros e He; cbn [fold_left]; [done|].
  apply IH. by apply input_levelInvariant.
Qed.

(** Every event of the game is an input of the engine. *)
Lemma event_input (g : Game.t) (ev : Game.Event) :
  Game.gameEngine (Game.event g ev) = Game.gameEngine g
  ∨ ∃ i, Game.gameEngine (Game.event g ev) = input (Game.gameEngine g) i.
Proof.
  destruct ev as [currentTime now_ms rand|x y now_ms config|key];
    cbn [Game.event].
  - right.
    by exists (InputCall (CallUpdate now_ms
                 (Qmin ((currentTime - Game.lastTime g) / 1000) 0.1) rand)).
  - right. by exists (InputClick x y now_ms config).
  - unfold Game.keydown. destruct (_ || _); [|by left].
    right. by exists (InputCall (CallPause 0)).
Qed.

Lemma run_inputs (events : list Game.Event) (g : Game.t) :
  ∃ inputs,
    Game.gameEngine (Game.run events g) = runInputs inputs (Game.gameEngine g).
Proof.
  revert g. induction events as [|ev rest IH]; intros g.
  - by exists [].
  - unfold Game.run. cbn [fold_left]. fold (Game.run rest (Game.event g ev)).
    destruct (IH (Game.event g ev)) as (inputs & ->).
    destruct (event_input g ev) as [-> | (i & ->)].
    + by exists inputs.
    + by exists (i :: inputs).
Qed.

End WholeGame.

(** X24.  The shell of index.js drives the engine through [update],
    [handleClick] and [pause] only, so what holds in every state that
    these reach holds all through the game: whatever frames, clicks and
    keys follow the construction of the game, the level is between 1 and
    10, the passenger list has [passengersSpawned] elements, at most 100,
    with pairwise different ids, and no inventory count is negative. *)
Theorem game_invariants (events : list Game.Event) (now_ms : Z) (rand : Q) :
  let e := Game.gameEngine (Game.run events (Game.new now_ms rand)) in
  (∃ inputs, e = runInputs inputs (GameEngine.new 1200 700))
  ∧ (1 ≤ GameEngine.currentLevel e ≤ 10)%Z
  ∧ Z.of_nat (length (GameEngine.passengers e)) = GameEngine.passengersSpawned e
  ∧ (GameEngine.passengersSpawned e ≤ GameEngine.totalPassengers)%Z
  ∧ NoDup (Passenger.id <$> GameEngine.passengers e)
  ∧ nonNegative e.
Proof.
  cbv zeta.
  destruct (run_inputs events (Game.new now_ms rand)) as (inputs & Hrun).
  assert (Hnew : Game.gameEngine (Game.new now_ms rand) = GameEngine.new 1200 700).
  { unfold Game.new, Game.gameLoop. cbv zeta. cbn [Game.gameEngine].
    by apply update_not_playing. }
  rewrite Hnew in Hrun. rewrite Hrun.
  destruct (reachable_numbered inputs 1200 700) as [Hlen Hid].
  destruct (reachable_levelInvariant inputs 1200 700) as [Hlevel _].
  split; [by exists inputs|]. split; [exact Hlevel|]. split; [exact Hlen|].
  split; [apply spawned_never_past_cap|]. split; [|apply inventory_never_negative].
  apply NoDup_alt. intros j1 j2 s H1 H2.
  apply list_lookup_fmap_Some in H1 as (q1 & -> & Hq1).
  apply list_lookup_fmap_Some in H2 as (q2 & Heq & Hq2).
  destruct (Hid _ _ Hq1) as [Hi1 _]. destruct (Hid _ _ Hq2) as [Hi2 _].
  rewrite Hi1, Hi2 in Heq.
  apply (inj (String.append "passenger_")) in Heq.
  apply (inj pretty) in Heq. lia.
Qed.

(** ** Arrivals are counted once and for all *)

Section Arrivals.
Import GameEngine.

Lemma count_reached_le (l l' : list Passenger.t) :
  (∀ j q, l !! j = Some q →
     ∃ q', l' !! j = Some q'
           ∧ (Passenger.hasReachedGate q = true → Passenger.hasReachedGate q' = true)) →
  (length (List.filter Passenger.hasReachedGate l)
   ≤ length (List.filter Passenger.hasReachedGate l'))%nat.
Proof.
  revert l'. induction l as [|q l IH]; intros l' H; [cbn; lia|].
  destruct (H 0%nat q eq_refl) as (q' & Hq' & Hr).
  destruct l' as [|q0 l']; [done|]. injection Hq' as ->.
  specialize (IH l' (fun j => H (S j))).
  cbn [List.filter]. destruct (Passenger.hasReachedGate q) eqn:Hq.
  - rewrite (Hr eq_refl). cbn [length]. lia.
  - destruct (Passenger.hasReachedGate q'); cbn [length]; lia.
Qed.

End Arrivals.

(** X25.  Arrivals are never lost: whatever the shell does, either the
    input starts a level, which empties the passenger list, or the number
    of passengers that have reached the gate, which the win condition
    compares with 50, does not go down; and a frame alone never empties
    the list. *)
Theorem reachedGate_never_decreases (e : GameEngine.t) (i : Input) :
  (GameEngine.passengers (input e i) = []
   ∨ (GameEngine.reachedGate e ≤ GameEngine.reachedGate (input e i))%nat)
  ∧ ∀ now_ms dt rand,
      (GameEngine.reachedGate e
       ≤ GameEngine.reachedGate (GameEngine.update now_ms dt rand e))%nat.
Proof.
  assert (Hmono : ∀ e' : GameEngine.t,
            (∀ j q, GameEngine.passengers e !! j = Some q →
               ∃ q', GameEngine.passengers e' !! j = Some q' ∧ evolves q q') →
            (GameEngine.reachedGate e ≤ GameEngine.reachedGate e')%nat).
  { intros e' Hev. unfold GameEngine.reachedGate. apply count_reached_le.
    intros j q Hj. destruct (Hev j q Hj) as (q' & Hj' & Hq).
    exists q'. split; [done|]. by apply (evolves_keeps q q'). }
  split.
  - destruct (input_evolves e i) as [Hnil|Hev]; [by left|right]. by apply Hmono.
  - intros now_ms dt rand. apply Hmono. apply update_evolves.
Qed.

(** ** The compiled engine: a platform uses up the power *)

(** X26.  In the compiled engine (dist/GameEngine.js) the contact of a
    ready wall smasher with a wall-typed obstacle that is wider than high
    (a platform, such as the spawn platform) calls [activateSuperPower]
    before it looks at the shape: nothing is removed, the passenger keeps
    its power, but the power is now in use and the [stopUsingPower] of
    the branch that breaks a wall is not reached.  From then on, whatever
    calls other than [stopUsingPower] follow, no interaction of that
    passenger removes an obstacle or a wall: it can no longer smash. *)
Theorem dist_platform_uses_up_power (e : GameEngine.t) (p : Passenger.t)
    (platform : Obstacle.t) :
  Obstacle.type platform = wall →
  Obstacle.height platform < Obstacle.width platform →
  Passenger.superPower p = Some doorBreaker →
  canActivate p →
  let p1 := snd (DistGameEngine.handleObstacleInteraction e p platform) in
  fst (DistGameEngine.handleObstacleInteraction e p platform) = e
  ∧ Passenger.superPower p1 = Some doorBreaker
  ∧ Passenger.isUsingPower p1 = true
  ∧ Passenger.direction p1 = Passenger.direction p
  ∧ ∀ p2 e2 o, evolves p1 p2 →
      fst (DistGameEngine.handleObstacleInteraction e2 p2 o) = e2.
Proof.
  intros Hty Hwide Hsp Hcan. cbv zeta.
  assert (Heq : DistGameEngine.handleObstacleInteraction e p platform
                = (e, Passenger.set_powerCooldown 2
                        (Passenger.set_isUsingPower true p))).
  { unfold DistGameEngine.handleObstacleInteraction.
    rewrite Hty, Hsp, bool_decide_eq_true_2 by done.
    rewrite (activateSuperPower_true p Hcan).
    rewrite (proj2 (Qgtb_gt _ _) Hwide). done. }
  rewrite Heq. cbn [fst snd]. split_and!; try done.
  intros p2 e2 o Hev.
  destruct (evolves_keeps _ _ Hev) as (_ & _ & Hu & _).
  specialize (Hu eq_refl).
  assert (Hfail : Passenger.activateSuperPower p2 = (false, p2)).
  { apply activateSuperPower_false. intros (_ & _ & ?). congruence. }
  unfold DistGameEngine.handleObstacleInteraction. rewrite Hfail.
  destruct (Obstacle.type o); try done;
    destruct (bool_decide _); cbn [andb]; try done;
    by destruct (Qgtb _ _).
Qed.

Lemma dist_platform_uses_up_power_witness :
  fst (DistGameEngine.handleObstacleInteraction smasherEngine readySmasher wall_0)
  ≠ smasherEngine
  ∧ fst (DistGameEngine.handleObstacleInteraction smasherEngine
           (snd (DistGameEngine.handleObstacleInteraction smasherEngine
                   readySmasher spawn_platform))
           wall_0)
    = smasherEngine.
Proof.
  split; [vm_compute; discriminate|].
  assert (Hwide : Obstacle.height spawn_platform < Obstacle.width spawn_platform)
    by (vm_compute; reflexivity).
  assert (Hcan : canActivate readySmasher).
  { split_and!; [by eexists|vm_compute; discriminate|reflexivity]. }
  refine (proj2 (proj2 (proj2 (proj2
    (dist_platform_uses_up_power smasherEngine readySmasher spawn_platform
       eq_refl Hwide eq_refl Hcan)))) _ smasherEngine wall_0 _).
  apply evolves_refl.
Defined.

(** ** The inventory is spent one unit at a time *)

(** X27.  A click while PLAYING either leaves the inventory as it is and
    gives no passenger a power, or it hands out the selected power: then
    that power had a positive count, which goes down by exactly one, one
    passenger that had no power gets the power and its color, nothing
    else changes among the passengers, and the power is deselected. *)
Theorem handleClick_spends_one (x y : Q) (now_ms : Z) (config : LevelConfig.t)
    (e : GameEngine.t) :
  GameEngine.gameState e = PLAYING →
  let e' := GameEngine.handleClick x y now_ms config e in
  (GameEngine.powerCounts e' = GameEngine.powerCounts e
   ∧ noPowerGained (GameEngine.passengers e) (GameEngine.passengers e'))
  ∨ ∃ k j q,
      GameEngine.selectedPower e = Some k
      ∧ (0 < GameEngine.getCount k e)%Z
      ∧ GameEngine.powerCounts e'
        = <[k := (GameEngine.getCount k e - 1)%Z]> (GameEngine.powerCounts e)
      ∧ GameEngine.passengers e !! j = Some q
      ∧ Passenger.superPower q = None
      ∧ GameEngine.passengers e'
        = <[j := Passenger.set_color (Passenger.getColorForPower (Some k))
                   (Passenger.set_superPower (Some k) q)]>
            (GameEngine.passengers e)
      ∧ GameEngine.selectedPower e' = None.
Proof.
  intros Hp. cbv zeta. unfold GameEngine.handleClick. rewrite Hp.
  unfold GameEngine.handleClickPlaying. cbv zeta.
  assert (Helse : GameEngine.powerCounts (GameEngine.clickElsewhere x y e)
                  = GameEngine.powerCounts e
                  ∧ noPowerGained (GameEngine.passengers e)
                      (GameEngine.passengers (GameEngine.clickElsewhere x y e))).
  { by destruct (clickElsewhere_spec x y e) as [[] ?]. }
  destruct (Qgeb y _).
  { left.
    destruct (handleUIClick_spec x y
                (GameEngine.canvasHeight e - GameEngine.uiHeight) e)
      as (-> & -> & _).
    split; [done|apply noPowerGained_refl]. }
  destruct (GameEngine.find (GameEngine.clickedOn x y) (GameEngine.passengers e))
    as [[i pi]|].
  { left.
    by destruct (tryActivatePowerAtPosition_spec i x y
                   (GameEngine.set_selectedPassenger (Some i) e)) as [[] ?]. }
  destruct (GameEngine.selectedPower e) as [power|] eqn:Hsel; [|by left].
  case_bool_decide as Hcount; [|by left].
  destruct (GameEngine.find (GameEngine.eligibleNear x y) (GameEngine.passengers e))
    as [[i near]|] eqn:Hf; [|by left].
  right. apply find_lookup in Hf as [Hi Hel].
  exists power, i, near.
  cbn [GameEngine.powerCounts GameEngine.passengers GameEngine.selectedPower
       GameEngine.set_selectedPower GameEngine.set_powerCounts
       GameEngine.set_passengers].
  split_and!; try done.
  - f_equal. lia.
  - unfold GameEngine.eligibleNear in Hel.
    rewrite !andb_true_iff, negb_true_iff in Hel.
    destruct Hel as [[[_ _] Hnone] _]. apply negb_true_iff in Hnone.
    apply bool_decide_eq_false in Hnone.
    destruct (Passenger.superPower near); [|done].
    exfalso. apply Hnone. by eexists.
Qed.

(** The click that hands the bribe to [idlePassenger]: six bribes
    before, five after. *)
Lemma handleClick_spends_one_witness :
  GameEngine.getCount securityBriber briberSelected = 6%Z
  ∧ GameEngine.getCount securityBriber
      (GameEngine.handleClick 40 18 1000 demoLevel briberSelected) = 5%Z
  ∧ ((GameEngine.powerCounts (GameEngine.handleClick 40 18 1000 demoLevel briberSelected)
      = GameEngine.powerCounts briberSelected
      ∧ noPowerGained (GameEngine.passengers briberSelected)
          (GameEngine.passengers
             (GameEngine.handleClick 40 18 1000 demoLevel briberSelected)))
     ∨ ∃ k j q,
         GameEngine.selectedPower briberSelected = Some k
         ∧ (0 < GameEngine.getCount k briberSelected)%Z
         ∧ GameEngine.powerCounts
             (GameEngine.handleClick 40 18 1000 demoLevel briberSelected)
           = <[k := (GameEngine.getCount k briberSelected - 1)%Z]>
               (GameEngine.powerCounts briberSelected)
         ∧ GameEngine.passengers briberSelected !! j = Some q
         ∧ Passenger.superPower q = None
         ∧ GameEngine.passengers
             (GameEngine.handleClick 40 18 1000 demoLevel briberSelected)
           = <[j := Passenger.set_color (Passenger.getColorForPower (Some k))
                      (Passenger.set_superPower (Some k) q)]>
               (GameEngine.passengers briberSelected)
         ∧ GameEngine.selectedPower
             (GameEngine.handleClick 40 18 1000 demoLevel briberSelected) = None).
Proof.
  split_and!; [reflexivity..|].
  exact (handleClick_spends_one 40 18 1000 demoLevel briberSelected eq_refl).
Defined.

(** ** What holds of every passenger, all through the game *)

Section PassengerInvariant.
Import GameEngine.

(** A property of passengers that the methods of a passenger and the
    writes of the engine keep. *)
Variable P : Passenger.t → Prop.
Hypothesis P_new : ∀ start power ident, P (Passenger.new start power ident).
Hypothesis P_update :
  ∀ dt platforms walls target p, P p → P (Passenger.update dt platforms walls target p).
Hypothesis P_interaction :
  ∀ e p o, P p → P (snd (handleObstacleInteraction e p o)).
Hypothesis P_gate :
  ∀ gate width p, P p → P (snd (Passenger.checkReachedGate gate width p)).
Hypothesis P_activate : ∀ p, P p → P (snd (Passenger.activateSuperPower p)).
Hypothesis P_assign :
  ∀ k p, P p →
    P (Passenger.set_color (Passenger.getColorForPower (Some k))
         (Passenger.set_superPower (Some k) p)).
Hypothesis P_consume :
  ∀ p, P p → P (Passenger.set_color "#2196F3" (Passenger.set_superPower None p)).

Lemma fold_collideWith_holds (box : BoundingBox.t) (obs : list Obstacle.t)
    (e : t) (p : Passenger.t) :
  P p → P (snd (fold_left (collideWith box) obs (e, p))).
Proof.
  revert e p. induction obs as [|o rest IH]; intros e p Hp; cbn [fold_left]; [done|].
  assert (Hstep : P (snd (collideWith box (e, p) o))).
  { unfold collideWith.
    destruct (Obstacle.type o);
      repeat (match goal with |- context [if ?b then _ else _] => destruct b end);
      first [ by apply P_interaction | done ]. }
  destruct (collideWith box (e, p) o) as [e1 p1]. by apply IH.
Qed.

Lemma stepPassenger_holds (dt : Q) (e : t) (i : nat) :
  Forall P (passengers e) → Forall P (passengers (stepPassenger dt e i)).
Proof.
  intros Hall. unfold stepPassenger.
  destruct (passengers e !! i) as [pi|] eqn:Hi; [|done].
  assert (Hpi : P pi) by exact (Forall_lookup_1 _ _ _ _ Hall Hi).
  pose proof (handleObstacleCollisions_keeps e
                (Passenger.update dt (platforms e) (walls e)
                   (Some (checkInGate e)) pi)) as (_ & Hp & _).
  pose proof (fold_collideWith_holds
                (Passenger.getBounds
                   (Passenger.update dt (platforms e) (walls e)
                      (Some (checkInGate e)) pi))
                (obstacles e) e
                (Passenger.update dt (platforms e) (walls e)
                   (Some (checkInGate e)) pi)
                (P_update _ _ _ _ _ Hpi)) as H2.
  fold (handleObstacleCollisions e
          (Passenger.update dt (platforms e) (walls e) (Some (checkInGate e)) pi))
    in H2.
  destruct (handleObstacleCollisions e _) as [e1 p2]. cbn [fst snd] in *.
  pose proof (P_gate (checkInGate e1) gateWidth p2 H2) as H3.
  destruct (Passenger.checkReachedGate (checkInGate e1) gateWidth p2) as [r p3].
  cbn [snd] in H3. cbn [passengers set_passengers]. rewrite Hp.
  by apply Forall_insert.
Qed.

Lemma simulate_holds (dt rand : Q) (e : t) :
  Forall P (passengers e) → Forall P (passengers (simulate dt rand e)).
Proof.
  intros Hall. unfold simulate, forEachPassenger.
  assert (H1 : Forall P (passengers (buildPlatformsAndWalls (spawnStep dt rand e)))).
  { cbn [buildPlatformsAndWalls passengers set_walls set_platforms].
    unfold spawnStep, spawnPassenger. case_bool_decide; [|done].
    destruct (Qgeb _ _); [|done].
    cbn [levelConfig set_spawnTimer]. destruct (levelConfig e); [|done].
    cbn [passengers set_spawnTimer set_passengersSpawned set_passengers].
    apply Forall_app. split; [done|]. by apply Forall_singleton. }
  revert H1. generalize (buildPlatformsAndWalls (spawnStep dt rand e)).
  intros e0. generalize (seq 0 (length (passengers e0))). intros indices.
  revert e0. induction indices as [|i rest IH]; intros e0 H0; cbn [fold_left]; [done|].
  apply IH. by apply stepPassenger_holds.
Qed.

Lemma update_holds (now_ms : Z) (dt rand : Q) (e : t) :
  Forall P (passengers e) → Forall P (passengers (update now_ms dt rand e)).
Proof.
  intros Hall.
  destruct (decide (gameState e = PLAYING)) as [Hp|Hp];
    [|by rewrite update_not_playing].
  destruct (Qlt_le_dec (elapsed now_ms e) levelTimeLimit) as [Ht|Ht];
    [|by rewrite (update_timeout _ _ _ _ Hp Ht)].
  rewrite (update_in_time _ _ _ _ Hp Ht).
  destruct (checkWinCondition_keeps (simulate dt rand e))
    as (_ & _ & _ & _ & _ & -> & _).
  by apply simulate_holds.
Qed.

Lemma tryActivateLoop_holds (e e1 : t) (p p1 : Passenger.t) (x y : Q)
    (obs : list Obstacle.t) :
  tryActivateLoop e p x y obs = Some (e1, p1) → P p → P p1.
Proof.
  revert p. induction obs as [|o rest IH]; intros p; cbn [tryActivateLoop]; [done|].
  cbv zeta. destruct (_ && _); [|apply IH].
  intros H Hp. pose proof (P_activate p Hp) as Hact. revert H.
  destruct (Passenger.activateSuperPower p) as [[|] p2]; cbn [snd] in Hact.
  - pose proof (P_interaction e p2 o Hact) as Hint.
    destruct (handleObstacleInteraction e p2 o) as [e2 p3]. cbn [snd] in Hint.
    intros [= <- <-]. by apply P_consume.
  - intros H. by apply (IH p2).
Qed.

Lemma tryActivatePowerAtPosition_holds (i : nat) (x y : Q) (e : t) :
  Forall P (passengers e) →
  Forall P (passengers (tryActivatePowerAtPosition i x y e)).
Proof.
  intros Hall. unfold tryActivatePowerAtPosition.
  destruct (passengers e !! i) as [p|] eqn:Hi; [|done].
  destruct (_ || _); [done|].
  destruct (tryActivateLoop e p x y (obstacles e)) as [[e1 p1]|] eqn:Hl; [|done].
  pose proof (tryActivateLoop_holds _ _ _ _ _ _ _ Hl
                (Forall_lookup_1 _ _ _ _ Hall Hi)) as Hp1.
  apply tryActivateLoop_spec in Hl as (_ & Hp & _).
  cbn [passengers set_passengers]. rewrite Hp. by apply Forall_insert.
Qed.

Lemma handleClickPlaying_holds (x y : Q) (e : t) :
  Forall P (passengers e) → Forall P (passengers (handleClickPlaying x y e)).
Proof.
  intros Hall. unfold handleClickPlaying. cbv zeta.
  assert (Helse : Forall P (passengers (clickElsewhere x y e))).
  { unfold clickElsewhere. destruct (selectedPassenger e) as [i|]; [|done].
    by apply tryActivatePowerAtPosition_holds. }
  destruct (Qgeb y _).
  { by destruct (handleUIClick_spec x y (canvasHeight e - uiHeight) e) as (-> & _). }
  destruct (find (clickedOn x y) (passengers e)) as [[i pi]|].
  { by apply (tryActivatePowerAtPosition_holds i x y (set_selectedPassenger (Some i) e)). }
  destruct (selectedPower e) as [power|]; [|done].
  case_bool_decide; [|done].
  destruct (find (eligibleNear x y) (passengers e)) as [[i near]|] eqn:Hf; [|done].
  apply find_lookup in Hf as [Hi _].
  cbn [passengers set_selectedPower set_powerCounts set_passengers].
  apply Forall_insert; [done|]. apply P_assign.
  exact (Forall_lookup_1 _ _ _ _ Hall Hi).
Qed.

Lemma input_holds (e : t) (i : Input) :
  Forall P (passengers e) → Forall P (passengers (input e i)).
Proof.
  intros Hall. destruct i as [[now_ms dt rand|now_ms]|x y now_ms config];
    cbn [input call].
  - by apply update_holds.
  - unfold pause. by destruct (gameState e).
  - unfold handleClick, nextLevel. destruct (gameState e); try done.
    + by apply handleClickPlaying_holds.
    + by case_bool_decide.
Qed.

Lemma reachable_holds (inputs : list Input) (width height : Q) :
  Forall P (passengers (runInputs inputs (new width height))).
Proof.
  unfold runInputs.
  assert (H0 : Forall P (passengers (new width height))) by done.
  revert H0. generalize (new width height).
  induction inputs as [|i rest IH]; intros e He; cbn [fold_left]; [done|].
  apply IH. by apply input_holds.
Qed.

End PassengerInvariant.

Section Lifecycle.
Import GameEngine.

Lemma reachable_lifecycle (inputs : list Input) (width height : Q) :
  Forall lifecycle (passengers (runInputs inputs (new width height))).
Proof.
  apply reachable_holds; unfold lifecycle.
  - done.
  - intros dt platforms walls target p Hp.
    by destruct (update_identity dt platforms walls target p) as (_ & -> & -> & _).
  - intros e p o Hp.
    by destruct (handleObstacleInteraction_sameBody e p o) as [_ -> -> _ _ _].
  - intros gate width0 p Hp. unfold Passenger.checkReachedGate.
    destruct (Passenger.hasReachedGate p) eqn:Hr; [cbn [snd]; by rewrite Hr|].
    destruct (_ && _); [done|]. cbn [snd]. by rewrite Hr.
  - intros p Hp. by destruct (activateSuperPower_sameBody p) as [_ -> -> _ _ _].
  - done.
  - done.
Qed.

Lemma simulate_lifecycle (dt rand : Q) (e : t) :
  Forall lifecycle (passengers e) → Forall lifecycle (passengers (simulate dt rand e)).
Proof.
  apply simulate_holds; unfold lifecycle.
  - done.
  - intros dt0 platforms walls target p Hp.
    by destruct (update_identity dt0 platforms walls target p) as (_ & -> & -> & _).
  - intros e0 p o Hp.
    by destruct (handleObstacleInteraction_sameBody e0 p o) as [_ -> -> _ _ _].
  - intros gate width0 p Hp. unfold Passenger.checkReachedGate.
    destruct (Passenger.hasReachedGate p) eqn:Hr; [cbn [snd]; by rewrite Hr|].
    destruct (_ && _); [done|]. cbn [snd]. by rewrite Hr.
Qed.

(** When every passenger is active exactly until it reaches the gate and
    none is both active and short of the gate, all have reached it. *)
Lemma all_reached (l : list Passenger.t) :
  Forall lifecycle l →
  length (List.filter
            (fun p => Passenger.isActive p && negb (Passenger.hasReachedGate p)) l)
  = 0%nat →
  length (List.filter Passenger.hasReachedGate l) = length l.
Proof.
  induction 1 as [|p l Hp _ IH]; [done|]. cbn [List.filter].
  unfold lifecycle in Hp. rewrite Hp.
  destruct (Passenger.hasReachedGate p); cbn [negb andb length]; [|done].
  intros H. by rewrite IH.
Qed.

End Lifecycle.

(** X28.  Nothing but the gate takes a passenger out of play: in every
    state that the engine reaches, each passenger is active exactly as
    long as it has not reached the gate.  So when all 100 passengers are
    resolved they have all reached the gate, the 50 that the win
    condition asks for are there, and a frame of a PLAYING state ends in
    GAME_OVER only through the time limit. *)
Theorem game_over_only_by_timeout (inputs : list Input) (width height : Q)
    (now_ms : Z) (dt rand : Q) :
  let e := runInputs inputs (GameEngine.new width height) in
  Forall lifecycle (GameEngine.passengers e)
  ∧ (GameEngine.gameState e = PLAYING →
     GameEngine.gameState (GameEngine.update now_ms dt rand e) = GAME_OVER →
     GameEngine.levelTimeLimit <= GameEngine.elapsed now_ms e).
Proof.
  cbv zeta. split; [apply reachable_lifecycle|].
  intros Hp Hover.
  destruct (Qlt_le_dec (GameEngine.elapsed now_ms
                          (runInputs inputs (GameEngine.new width height)))
                       GameEngine.levelTimeLimit) as [Ht|Ht]; [|done].
  exfalso. rewrite (update_in_time _ _ _ _ Hp Ht) in Hover.
  set (e := runInputs inputs (GameEngine.new width height)) in *.
  pose proof (simulate_lifecycle dt rand e (reachable_lifecycle inputs width height))
    as Hlife.
  pose proof (simulate_numbered dt rand e (reachable_numbered inputs width height))
    as [Hlen _].
  pose proof (simulate_keeps dt rand e) as [Hgs _ _ _ _ _].
  set (s := simulate dt rand e) in *. clearbody s.
  unfold GameEngine.checkWinCondition in Hover.
  destruct (GameEngine.allResolved s) eqn:Hres;
    [|rewrite Hgs, Hp in Hover; discriminate Hover].
  unfold GameEngine.allResolved in Hres.
  apply andb_true_iff in Hres as [Hcap Hnone].
  apply bool_decide_eq_true in Hcap. apply bool_decide_eq_true in Hnone.
  pose proof (all_reached _ Hlife Hnone) as Hall.
  fold (GameEngine.reachedGate s) in Hall.
  rewrite bool_decide_eq_true_2 in Hover
    by (rewrite Hall; unfold GameEngine.totalPassengers in Hcap; lia).
  by case_bool_decide.
Qed.

(** X29.  The color of a passenger always shows its power: in every
    state that the engine reaches, the color of each passenger is the one
    that [getColorForPower] gives for the power it holds. *)
Theorem color_shows_power (inputs : list Input) (width height : Q) :
  Forall coloured
    (GameEngine.passengers (runInputs inputs (GameEngine.new width height))).
Proof.
  apply reachable_holds; unfold coloured.
  - done.
  - intros dt platforms walls target p Hp.
    by destruct (update_identity dt platforms walls target p)
      as (-> & _ & _ & _ & -> & _).
  - intros e p o Hp.
    by destruct (handleObstacleInteraction_sameBody e p o) as [_ _ _ -> -> _].
  - intros gate width0 p Hp. unfold Passenger.checkReachedGate.
    destruct (Passenger.hasReachedGate p); [done|]. by destruct (_ && _).
  - intros p Hp. by destruct (activateSuperPower_sameBody p) as [_ _ _ -> -> _].
  - done.
  - done.
Qed.

(** ** Free fall *)

Section FreeFall.
Import Passenger UpdateStages.

(** The platform loop does nothing when no platform is under the feet
    and none overlaps the box. *)
Lemma platformLoop_clear (posX feetY : Q) (testBoundsY : BoundingBox.t)
    (platforms : list BoundingBox.t) (v : vertical) :
  (∀ pl, pl ∈ platforms →
     CollisionSystem.checkAABB testBoundsY pl = false
     ∧ ¬ (BoundingBox.x pl < posX + width
          ∧ posX < BoundingBox.x pl + BoundingBox.width pl
          ∧ BoundingBox.y pl - 2 <= feetY
          ∧ feetY <= BoundingBox.y pl + 5
          ∧ 0 <= velocityY v)) →
  platformLoop posX feetY testBoundsY platforms v = v.
Proof.
  induction platforms as [|pl rest IH]; intros Hclear; [done|].
  cbn [platformLoop].
  destruct (Hclear pl) as [Hbox Hfeet]; [by left|].
  destruct (Qgtb (posX + width) (BoundingBox.x pl)
            && Qltb posX (BoundingBox.x pl + BoundingBox.width pl)
            && Qgeb feetY (BoundingBox.y pl - 2)
            && Qleb feetY (BoundingBox.y pl + 5)
            && Qgeb (velocityY v) 0) eqn:Hs.
  - exfalso. apply Hfeet.
    rewrite !andb_true_iff, Qgtb_gt, Qltb_lt, !Qgeb_ge, Qleb_le in Hs. tauto.
  - assert (Hpl : CollisionSystem.checkAABB testBoundsY
                    (BoundingBox.mk (BoundingBox.x pl) (BoundingBox.y pl)
                       (BoundingBox.width pl) (BoundingBox.height pl)) = false)
      by (by destruct pl).
    rewrite Hpl. apply IH. intros pl' Hpl'. apply Hclear. by right.
Qed.

End FreeFall.

(** X30.  Free fall.  Let an active passenger that has not reached the
    gate be, after the horizontal move of the frame, neither above a
    platform (with the feet between 2 pixels above and 5 pixels below
    its top, while not moving up) nor, displaced vertically, in contact
    with a platform or a wall.  Then [update] integrates gravity by one
    explicit step: the vertical speed grows by 500 deltaTime, the
    passenger moves down by the new speed times deltaTime, and it is
    falling if that speed is above 0. *)
Theorem free_fall (deltaTime : Q) (platforms walls : list BoundingBox.t)
    (target : option Vector2.t) (p : Passenger.t) :
  let p' := Passenger.update deltaTime platforms walls target p in
  let x' := Vector2.x (Passenger.position p') in
  let y := Vector2.y (Passenger.position p) in
  let vy := Vector2.y (Passenger.velocity p) + 500 * deltaTime in
  let box :=
    BoundingBox.mk x' (y + vy * deltaTime) Passenger.width Passenger.height in
  Passenger.isActive p = true →
  Passenger.hasReachedGate p = false →
  (∀ pl, pl ∈ platforms →
     CollisionSystem.checkAABB box pl = false
     ∧ ¬ (BoundingBox.x pl < x' + Passenger.width
          ∧ x' < BoundingBox.x pl + BoundingBox.width pl
          ∧ BoundingBox.y pl - 2 <= y + Passenger.height
          ∧ y + Passenger.height <= BoundingBox.y pl + 5
          ∧ 0 <= vy)) →
  (∀ w, w ∈ walls → CollisionSystem.checkAABB box w = false) →
  Vector2.y (Passenger.velocity p') = vy
  ∧ Vector2.y (Passenger.position p') = y + vy * deltaTime
  ∧ Passenger.isFalling p' = (if Qgtb vy 0 then true else Passenger.isFalling p).
Proof.
  cbv zeta. intros Ha Hr. rewrite update_stages by done.
  destruct (coolDown_frame deltaTime
              (UpdateStages.moveY deltaTime platforms walls
                 (UpdateStages.moveX deltaTime walls
                    (UpdateStages.accelerate deltaTime target p))))
    as (-> & -> & _ & -> & _).
  pose proof (moveY_frame deltaTime platforms walls
                (UpdateStages.moveX deltaTime walls
                   (UpdateStages.accelerate deltaTime target p))) as (-> & _).
  pose proof (moveX_frame deltaTime walls
                (UpdateStages.accelerate deltaTime target p))
    as (Hy & Hvy & Hf & _).
  set (p3 := UpdateStages.moveX deltaTime walls
               (UpdateStages.accelerate deltaTime target p)) in *.
  assert (Hy3 : Vector2.y (Passenger.position p3) = Vector2.y (Passenger.position p)).
  { rewrite Hy. unfold UpdateStages.accelerate. cbv zeta. by destruct target. }
  assert (Hvy3 : Vector2.y (Passenger.velocity p3)
                 = Vector2.y (Passenger.velocity p) + 500 * deltaTime).
  { rewrite Hvy. unfold UpdateStages.accelerate. cbv zeta. by destruct target. }
  assert (Hf3 : Passenger.isFalling p3 = Passenger.isFalling p).
  { rewrite Hf. unfold UpdateStages.accelerate. cbv zeta. by destruct target. }
  clearbody p3. clear Hy Hvy Hf.
  intros Hplat Hwall.
  unfold UpdateStages.moveY. cbv zeta. rewrite Hy3, Hvy3, Hf3.
  rewrite platformLoop_clear by exact Hplat.
  rewrite wallLoopY_clear by exact Hwall.
  cbn [Passenger.onPlatform Passenger.velocityY Passenger.falling Passenger.newY
       negb andb
       Passenger.set_isFalling Passenger.set_velocity Passenger.set_position
       Passenger.position Passenger.velocity Passenger.isFalling
       Vector2.x Vector2.y].
  by destruct (Qgtb _ 0).
Qed.

(** A passenger at rest in mid-air at (50, 18), left of [ledge] and of
    the wall [wall_0], after a frame of 1/8 s: it falls at 62.5 px/s and
    is 7.8125 pixels lower. *)
Lemma free_fall_witness :
  Vector2.y (Passenger.velocity
               (Passenger.update (1 # 8) [ledge] [Obstacle.bounds wall_0]
                  None idlePassenger)) == 62.5
  ∧ Vector2.y (Passenger.position
                 (Passenger.update (1 # 8) [ledge] [Obstacle.bounds wall_0]
                    None idlePassenger)) == 25.8125
  ∧ Passenger.isFalling
      (Passenger.update (1 # 8) [ledge] [Obstacle.bounds wall_0] None idlePassenger)
    = true.
Proof.
  destruct (free_fall (1 # 8) [ledge] [Obstacle.bounds wall_0] None idlePassenger
              eq_refl eq_refl) as (Hv & Hy & Hf).
  - intros pl ->%list_elem_of_singleton. split; [reflexivity|].
    intros (H & _). vm_compute in H. discriminate H.
  - intros w ->%list_elem_of_singleton. reflexivity.
  - rewrite Hv, Hy, Hf. split_and!; reflexivity.
Defined.

